(** * Documentation generator: extraction, synthesis, formatting, evaluation

    A shallow embedding of the Python sources
      - [src/preprocessing/code_parser.py]  ([CodeParser]),
      - [src/ai_engine/llm_interface.py]    ([LLMInterface], local mode),
      - [src/generator/doc_generator.py]    ([DocumentationGenerator]),
      - [src/evaluation/evaluator.py]       ([DocumentationEvaluator]),
    followed by the properties proved about them.

    Modelling conventions.
    - A Python [str] is a [string]; a character is a code point below 256
      (Latin-1), and the character classes used by [str.lower],
      [str.split], [str.isupper] and the [re] module ([\s], [\w], [\d]) are
      the Unicode ones restricted to that range.
    - A Python [float] is the rational number it denotes.  Every float
      operation is the exact operation followed by IEEE-754 binary64
      rounding (53 significant bits, round to nearest, ties to even).  The
      exponent range is left unbounded: the evaluator divides word and
      element counts and inverts a denominator that is never below
      [2^-55] in magnitude, so no value comes near overflow or the
      subnormal range.
    - A Python [dict] is a [gmap], a Python [set] a [gset].
    - Exceptions are explicit: a computation that can raise returns [exc].
    - The attributes of a [CodeParser] object are threaded as a state.
    - [ast.parse] belongs to CPython; the extractor is parametrised by
      what it answers.  The delegated (API) mode of [LLMInterface] needs
      an external service and is left out. *)

From Stdlib Require Import ZArith QArith Qround Qabs Qpower Lia Lqa.
From Stdlib Require Import Ascii String DecimalString DecimalPos.
From stdpp Require Import base option list gmap strings sorting.

Set Warnings "-register-all".
Local Open Scope string_scope.

(** ** Python strings *)

Module PyStr.

Definition code (c : ascii) : nat := nat_of_ascii c.

Definition in_range (lo hi : nat) (c : ascii) : bool :=
  (lo <=? code c)%nat && (code c <=? hi)%nat.

(** The regex classes [[A-Z]], [[a-z]] and [\d]. *)
Definition is_AZ (c : ascii) : bool := in_range 65 90 c.
Definition is_az (c : ascii) : bool := in_range 97 122 c.
Definition is_digit (c : ascii) : bool := in_range 48 57 c.

(** [c.isupper()]: A-Z and the Latin-1 capitals (all of C0-DE but the
    multiplication sign D7). *)
Definition isupper_char (c : ascii) : bool :=
  is_AZ c || (in_range 192 222 c && negb (code c =? 215)%nat).

(** [c.lower()]. *)
Definition lower_char (c : ascii) : ascii :=
  if isupper_char c then ascii_of_nat (code c + 32) else c.

(** [c.isspace()], which is also the regex class [\s] on [str] patterns. *)
Definition is_space (c : ascii) : bool :=
  in_range 9 13 c || in_range 28 32 c || (code c =? 133)%nat || (code c =? 160)%nat.

(** The regex class [\w] on [str] patterns. *)
Definition is_word (c : ascii) : bool :=
  is_AZ c || is_az c || is_digit c || (code c =? 95)%nat
  || (code c =? 170)%nat || (code c =? 178)%nat || (code c =? 179)%nat
  || (code c =? 181)%nat || (code c =? 185)%nat || (code c =? 186)%nat
  || in_range 188 190 c
  || (in_range 192 255 c && negb (code c =? 215)%nat && negb (code c =? 247)%nat).

Definition is_newline (c : ascii) : bool := (code c =? 10)%nat.

(** [s.lower()] *)
Fixpoint lower (s : string) : string :=
  match s with
  | EmptyString => EmptyString
  | String c s' => String (lower_char c) (lower s')
  end.

(** [s.startswith(p)] *)
Fixpoint startswith (p s : string) : bool :=
  match p, s with
  | EmptyString, _ => true
  | String a p', String b s' => Ascii.eqb a b && startswith p' s'
  | String _ _, EmptyString => false
  end.

(** [needle in hay] *)
Fixpoint contains (needle hay : string) : bool :=
  startswith needle hay ||
  match hay with
  | EmptyString => false
  | String _ hay' => contains needle hay'
  end.

(** [s.split(sep)] for a one-character separator. *)
Fixpoint split_char (sep : ascii) (s : string) : list string :=
  match s with
  | EmptyString => [EmptyString]
  | String c s' =>
      let r := split_char sep s' in
      if Ascii.eqb c sep then EmptyString :: r
      else match r with
           | h :: t => String c h :: t
           | [] => [String c EmptyString]
           end
  end.

(** [s.split()]: the maximal runs of non-whitespace characters. *)
Fixpoint split_ws (s : string) : list string :=
  match s with
  | EmptyString => []
  | String c s' =>
      if is_space c then split_ws s'
      else match s' with
           | EmptyString => [String c EmptyString]
           | String c' _ =>
               if is_space c' then String c EmptyString :: split_ws s'
               else match split_ws s' with
                    | w :: ws => String c w :: ws
                    | [] => [String c EmptyString]
                    end
           end
  end.

Fixpoint lstrip (s : string) : string :=
  match s with
  | EmptyString => EmptyString
  | String c s' => if is_space c then lstrip s' else s
  end.

Fixpoint rstrip (s : string) : string :=
  match s with
  | EmptyString => EmptyString
  | String c s' =>
      match rstrip s' with
      | EmptyString => if is_space c then EmptyString else String c EmptyString
      | r => String c r
      end
  end.

(** [s.strip()] *)
Definition strip (s : string) : string := rstrip (lstrip s).

(** [s.replace(old, new)]: occurrences are replaced left to right and do
    not overlap; [skip] counts the characters of the occurrence just
    replaced that are still to be passed over. *)
Fixpoint replace_from (old new : string) (skip : nat) (s : string) : string :=
  match s with
  | EmptyString => EmptyString
  | String c s' =>
      match skip with
      | S k => replace_from old new k s'
      | O =>
          if startswith old s
          then new +:+ replace_from old new (String.length old - 1) s'
          else String c (replace_from old new 0 s')
      end
  end.

Fixpoint intersperse (new : string) (s : string) : string :=
  match s with
  | EmptyString => new
  | String c s' => new +:+ String c (intersperse new s')
  end.

Definition replace (old new s : string) : string :=
  match old with
  | EmptyString => intersperse new s
  | _ => replace_from old new 0 s
  end.

(** [c.upper()] as used by [capitalize] on the first character.  The sharp
    s becomes two characters; for the micro sign and y-diaeresis CPython
    answers with code points above 255, which this model leaves as they
    are. *)
Definition title_char (c : ascii) : string :=
  if is_az c || (in_range 224 254 c && negb (code c =? 247)%nat)
  then String (ascii_of_nat (code c - 32)) EmptyString
  else if (code c =? 223)%nat then "Ss"
  else String c EmptyString.

(** [s.capitalize()] *)
Definition capitalize (s : string) : string :=
  match s with
  | EmptyString => EmptyString
  | String c s' => title_char c +:+ lower s'
  end.

(** [sep.join(parts)] *)
Fixpoint join (sep : string) (parts : list string) : string :=
  match parts with
  | [] => EmptyString
  | [p] => p
  | p :: ps => p +:+ sep +:+ join sep ps
  end.

(** [str(n)] for an [int]. *)
Definition str_of_Z (n : Z) : string := NilEmpty.string_of_int (Z.to_int n).

(** Python slicing [l[start:stop]] with step one; a negative bound counts
    from the end and everything is clipped to the list. *)
Definition clip_index (len : nat) (i : Z) : nat :=
  let i' := if (i <? 0)%Z then (i + Z.of_nat len)%Z else i in
  Nat.min len (Z.to_nat i').

Definition slice {A} (l : list A) (start : Z) (stop : option Z) : list A :=
  let n := List.length l in
  let lo := clip_index n start in
  let hi := match stop with Some j => clip_index n j | None => n end in
  firstn (hi - lo) (skipn lo l).

(** The length of the longest prefix made of characters of one class, as
    a greedy [[class]*] consumes it; [s[:n]] and [s[n:]]. *)
Fixpoint span_len (p : ascii -> bool) (s : string) : nat :=
  match s with
  | EmptyString => 0
  | String c s' => if p c then S (span_len p s') else 0
  end.

Definition take (n : nat) (s : string) : string := String.substring 0 n s.

Fixpoint drop (n : nat) (s : string) : string :=
  match n, s with
  | S n', String _ s' => drop n' s'
  | _, _ => s
  end.

Definition nl : string := String (ascii_of_nat 10) EmptyString.

End PyStr.

(** ** Exceptions *)

Inductive exn : Type :=
| ZeroDivisionError.

Inductive exc (A : Type) : Type :=
| Ok (a : A)
| Raise (e : exn).

Arguments Ok {A} a.
Arguments Raise {A} e.

Definition exc_bind {A B} (m : exc A) (k : A -> exc B) : exc B :=
  match m with
  | Ok a => k a
  | Raise e => Raise e
  end.

Notation "'let*' x ':=' m 'in' k" := (exc_bind m (fun x => k))
  (at level 10, x name, m at level 100, k at level 200).

(** ** Python floats *)

Module Float64.

Local Open Scope Q_scope.

Definition pow2 (e : Z) : Q := 2 ^ e.

(** Rounding of a rational to the nearest integer, ties to the even one. *)
Definition rne (x : Q) : Z :=
  let f := Qfloor x in
  match Qcompare (x - inject_Z f) (1 # 2) with
  | Lt => f
  | Gt => (f + 1)%Z
  | Eq => if Z.even f then f else (f + 1)%Z
  end.

(** The exponent of the last place of a positive rational at 53 bits of
    precision: [pow2 (fexp q + 52) <= q < pow2 (fexp q + 53)]. *)
Definition fexp (q : Q) : Z :=
  let g := (Z.log2 (Qnum q) - Z.log2 (Zpos (Qden q)))%Z in
  if Qle_bool (pow2 g) q then (g - 52)%Z else (g - 53)%Z.

Definition round_pos (q : Q) : Q :=
  inject_Z (rne (q / pow2 (fexp q))) * pow2 (fexp q).

(** binary64 rounding, symmetric around zero. *)
Definition b64 (q : Q) : Q :=
  let r := Qred q in
  match Qcompare r 0 with
  | Eq => 0
  | Gt => round_pos r
  | Lt => - round_pos (- r)
  end.

(** A decimal literal of the source text. *)
Definition lit (q : Q) : Q := b64 q.

(** [x + y], [x - y], [x * y] on floats. *)
Definition fadd (x y : Q) : Q := b64 (x + y).
Definition fsub (x y : Q) : Q := b64 (x - y).
Definition fmul (x y : Q) : Q := b64 (x * y).

(** [x / y] on floats, and on two [int]s (true division rounds the exact
    quotient once). *)
Definition fdiv (x y : Q) : exc Q :=
  if Qeq_bool y 0 then Raise ZeroDivisionError else Ok (b64 (x / y)).

Definition int_truediv (a b : Z) : exc Q :=
  fdiv (inject_Z a) (inject_Z b).

(** [round(x, 2)]: the exact value of [x] is rounded to the nearest
    multiple of 1/100, ties to even, and the float nearest to that decimal
    is returned. *)
Definition round2 (x : Q) : Q := b64 (inject_Z (rne (x * 100)) / 100).

(** [min(a, b)] returns its first argument unless the second is smaller. *)
Definition pymin (a b : Q) : Q := if Qlt_le_dec b a then b else a.

End Float64.

(** ** Layer 2: [CodeParser] (code_parser.py) *)

Module Parser.
Import PyStr.

Record FunctionInfo : Type := mkFunctionInfo {
  name : string;
  params : list string;
  return_annotation : option string;
  docstring : option string;
  line_start : Z;
  line_end : Z;
  body : string
}.

Record ClassInfo : Type := mkClassInfo {
  cls_name : string;
  methods : list FunctionInfo;
  cls_docstring : option string;
  cls_line_start : Z;
  cls_line_end : Z
}.

Record CodeStructure : Type := mkCodeStructure {
  functions : list FunctionInfo;
  classes : list ClassInfo;
  module_docstring : option string;
  total_lines : nat;
  is_valid : bool;
  error_message : option string
}.

(** The part of a CPython syntax tree the extractor reads.  A
    [FunctionDef] carries its name, the names of [args.args], the text
    [ast.unparse] gives for [returns] when there is one, what
    [ast.get_docstring] answers, its line span and its body; every node
    that is neither a function nor a class definition is an [OtherNode]
    with its child nodes. *)
Inductive node : Type :=
| FunctionDef (nm : string) (args : list string) (returns : option string)
    (doc : option string) (lineno : Z) (end_lineno : option Z)
    (stmts : list node)
| ClassDef (nm : string) (doc : option string) (lineno : Z)
    (end_lineno : option Z) (stmts : list node)
| OtherNode (children : list node).

Record module_ast : Type := mkModule {
  mod_body : list node;
  mod_docstring : option string
}.

(** What [ast.parse(code)] does: it returns a tree, raises [SyntaxError]
    (with its [lineno], possibly [None], and its [msg]) or raises another
    exception (with the text [str(e)]). *)
Inductive parse_outcome : Type :=
| Parsed (t : module_ast)
| RaisesSyntaxError (lineno : option Z) (msg : string)
| RaisesOther (text : string).

(** The two attributes of a [CodeParser] object. *)
Record parser_state : Type := mkState {
  tree : option module_ast;
  source_lines : list string
}.

Definition init : parser_state := {| tree := None; source_lines := [] |}.

(** [f"{e.lineno}"] *)
Definition fmt_lineno (l : option Z) : string :=
  match l with
  | Some n => str_of_Z n
  | None => "None"
  end.

(** [x or y] on an optional line number. *)
Definition or_lineno (x : option Z) (y : Z) : Z :=
  match x with
  | Some e => if (e =? 0)%Z then y else e
  | None => y
  end.

Definition child_nodes (n : node) : list node :=
  match n with
  | FunctionDef _ _ _ _ _ _ stmts => stmts
  | ClassDef _ _ _ _ stmts => stmts
  | OtherNode children => children
  end.

Fixpoint depth (n : node) : nat :=
  match n with
  | FunctionDef _ _ _ _ _ _ stmts => S (foldr (fun c d => Nat.max (depth c) d) 0%nat stmts)
  | ClassDef _ _ _ _ stmts => S (foldr (fun c d => Nat.max (depth c) d) 0%nat stmts)
  | OtherNode children => S (foldr (fun c d => Nat.max (depth c) d) 0%nat children)
  end.

(** [ast.walk]: breadth first, which is level by level.  [walk_levels k ns]
    lists the nodes of [ns] and their descendants down to [k] levels. *)
Fixpoint walk_levels (k : nat) (ns : list node) : list node :=
  match k with
  | O => []
  | S k' => ns ++ walk_levels k' (flat_map child_nodes ns)
  end.

(** The nodes [ast.walk(tree)] yields after the [Module] node itself. *)
Definition walk (t : module_ast) : list node :=
  walk_levels (foldr (fun c d => Nat.max (depth c) d) 0%nat (mod_body t)) (mod_body t).

Section WithParser.

Variable ast_parse : string -> parse_outcome.

Definition validate_syntax (code : string) (st : parser_state)
  : (bool * option string) * parser_state :=
  match ast_parse code with
  | Parsed t =>
      ((true, None), {| tree := Some t; source_lines := split_char "010" code |})
  | RaisesSyntaxError lineno msg =>
      ((false, Some ("Syntax error at line " +:+ fmt_lineno lineno +:+ ": " +:+ msg)), st)
  | RaisesOther text => ((false, Some text), st)
  end.

Definition _parse_function (nm : string) (args : list string)
    (returns : option string) (doc : option string) (lineno : Z)
    (end_lineno : option Z) (code : string) : FunctionInfo :=
  let lines := split_char "010" code in
  let body_lines := slice lines (lineno - 1) end_lineno in
  {| name := nm;
     params := args;
     return_annotation := returns;
     docstring := doc;
     line_start := lineno;
     line_end := or_lineno end_lineno lineno;
     body := join nl body_lines |}.

(** The loop bodies of [extract_functions] and of [_parse_class]. *)
Definition function_defs (code : string) (ns : list node) : list FunctionInfo :=
  flat_map (fun n =>
    match n with
    | FunctionDef nm args returns doc lineno end_lineno _ =>
        [_parse_function nm args returns doc lineno end_lineno code]
    | _ => []
    end) ns.

Definition _parse_class (nm : string) (doc : option string) (lineno : Z)
    (end_lineno : option Z) (stmts : list node) (code : string) : ClassInfo :=
  {| cls_name := nm;
     methods := function_defs code stmts;
     cls_docstring := doc;
     cls_line_start := lineno;
     cls_line_end := or_lineno end_lineno lineno |}.

Definition class_defs (code : string) (ns : list node) : list ClassInfo :=
  flat_map (fun n =>
    match n with
    | ClassDef nm doc lineno end_lineno stmts =>
        [_parse_class nm doc lineno end_lineno stmts code]
    | _ => []
    end) ns.

(** [if not self.tree: ...]: a tree left by an earlier call is reused. *)
Definition extract_functions (code : string) (st : parser_state)
  : list FunctionInfo * parser_state :=
  match tree st with
  | Some t => (function_defs code (mod_body t), st)
  | None =>
      let '((ok, _), st') := validate_syntax code st in
      if negb ok then ([], st')
      else match tree st' with
           | Some t => (function_defs code (mod_body t), st')
           | None => ([], st')
           end
  end.

Definition extract_classes (code : string) (st : parser_state)
  : list ClassInfo * parser_state :=
  match tree st with
  | Some t => (class_defs code (walk t), st)
  | None =>
      let '((ok, _), st') := validate_syntax code st in
      if negb ok then ([], st')
      else match tree st' with
           | Some t => (class_defs code (walk t), st')
           | None => ([], st')
           end
  end.

Definition get_structure (code : string) (st : parser_state)
  : CodeStructure * parser_state :=
  let '((ok, error_msg), st1) := validate_syntax code st in
  if negb ok then
    ({| functions := [];
        classes := [];
        module_docstring := None;
        total_lines := List.length (split_char "010" code);
        is_valid := false;
        error_message := error_msg |}, st1)
  else
    let '(fs, st2) := extract_functions code st1 in
    let '(cs, st3) := extract_classes code st2 in
    ({| functions := fs;
        classes := cs;
        module_docstring := match tree st3 with
                            | Some t => mod_docstring t
                            | None => None
                            end;
        total_lines := List.length (source_lines st3);
        is_valid := true;
        error_message := None |}, st3).

End WithParser.

End Parser.

(** ** Layer 3: [LLMInterface], local mode (llm_interface.py) *)

Module LLM.
Import PyStr Parser.

Record DocumentationOutput : Type := mkDocumentationOutput {
  function_name : string;
  description : string;
  param_descriptions : gmap string string;
  return_description : string;
  examples : list string;
  inline_comments : list string
}.

(** The double quote character, and a string in double quotes. *)
Definition dq : string := String (ascii_of_nat 34) EmptyString.
Definition quoted (s : string) : string := dq +:+ s +:+ dq.

(** Truth value of a [str] and of an [Optional[str]]. *)
Definition truthy (s : string) : bool := negb (String.eqb s EmptyString).
Definition truthy_opt (o : option string) : bool :=
  match o with
  | Some s => truthy s
  | None => false
  end.

(** [x in [a, b, c]] on strings. *)
Definition among (x : string) (l : list string) : bool := existsb (String.eqb x) l.

(** [[p for p in params if p != 'self']] *)
Definition non_self (ps : list string) : list string :=
  List.filter (fun p => negb (String.eqb p "self")) ps.

(** The lookahead [(?=[A-Z][a-z]|\d|\W|$)] tried on the text that
    follows. *)
Definition name_lookahead (r : string) : bool :=
  match r with
  | EmptyString => true
  | String c r' =>
      (is_AZ c && match r' with String d _ => is_az d | EmptyString => false end)
      || is_digit c || negb (is_word c)
  end.

(** [[A-Z]+(?=...)]: the greedy run gives back one capital at a time until
    the lookahead holds. *)
Fixpoint capitals_match (k : nat) (s : string) : option nat :=
  match k with
  | O => None
  | S k' => if name_lookahead (drop k s) then Some k else capitals_match k' s
  end.

(** One match attempt of
    [[A-Z]?[a-z]+|[A-Z]+(?=[A-Z][a-z]|\d|\W|$)|\d+] at the start of [s]. *)
Definition name_token_at (s : string) : option string :=
  match s with
  | EmptyString => None
  | String c s' =>
      if is_AZ c && (0 <? span_len is_az s')%nat
      then Some (String c (take (span_len is_az s') s'))
      else if is_az c then Some (take (span_len is_az s) s)
      else if is_AZ c then
        match capitals_match (span_len is_AZ s) s with
        | Some k => Some (take k s)
        | None => None
        end
      else if is_digit c then Some (take (span_len is_digit s) s)
      else None
  end.

(** [re.findall] of that pattern: matches are taken left to right and do
    not overlap; [skip] counts the characters of the last match still to be
    passed over. *)
Fixpoint name_findall (skip : nat) (s : string) : list string :=
  match s with
  | EmptyString => []
  | String _ s' =>
      match skip with
      | S k => name_findall k s'
      | O =>
          match name_token_at s with
          | Some t => t :: name_findall (String.length t - 1) s'
          | None => name_findall 0 s'
          end
      end
  end.

Definition _split_function_name (nm : string) : list string :=
  if contains "_" nm then split_char "_" nm
  else map lower (name_findall 0 nm).

Definition action_templates : gmap string string :=
  list_to_map
    [ ("get", "Retrieves"); ("set", "Sets or updates");
      ("calculate", "Calculates"); ("compute", "Computes");
      ("process", "Processes"); ("validate", "Validates");
      ("check", "Checks"); ("find", "Finds"); ("search", "Searches for");
      ("create", "Creates"); ("generate", "Generates"); ("build", "Builds");
      ("parse", "Parses"); ("format", "Formats"); ("convert", "Converts");
      ("transform", "Transforms"); ("sort", "Sorts"); ("filter", "Filters");
      ("load", "Loads"); ("save", "Saves"); ("delete", "Deletes");
      ("update", "Updates"); ("add", "Adds"); ("remove", "Removes") ].

Definition _generate_description (func_name : string) (name_parts : list string)
    (ps : list string) : string :=
  let action := match name_parts with a :: _ => a | [] => "process" end in
  let action_desc := default (capitalize action +:+ "s") (action_templates !! action) in
  let description :=
    if (1 <? List.length name_parts)%nat
    then action_desc +:+ " " +:+ join " " (tail name_parts)
    else action_desc +:+ " the input data" in
  let description :=
    if (2 <? List.length (non_self ps))%nat
    then description +:+ " with multiple parameters"
    else description in
  let description := description +:+ "." in
  let detailed := nl +:+ nl +:+ "This function performs " +:+ action +:+ " operations" in
  let detailed :=
    if (1 <? List.length name_parts)%nat
    then detailed +:+ " on " +:+ join " " (tail name_parts)
    else detailed in
  let detailed := detailed +:+
    ". It is designed to handle various input scenarios and provide reliable results." in
  description +:+ detailed.

Definition _generate_param_description (param func_name : string) : string :=
  let param_lower := lower param in
  if among param_lower ["data"; "input"; "value"] then
    "The input " +:+ param +:+ " to be processed"
  else if among param_lower ["name"; "filename"; "file"] then
    "The " +:+ param +:+ " of the file or resource"
  else if among param_lower ["path"; "filepath"] then
    "The " +:+ param +:+ " to the file or directory"
  else if among param_lower ["key"; "id"; "identifier"] then
    "Unique " +:+ param +:+ " for identification"
  else if among param_lower ["options"; "config"; "settings"] then
    "Configuration " +:+ param +:+ " for the operation"
  else if among param_lower ["items"; "list"; "array"] then
    "Collection of " +:+ param +:+ " to process"
  else if contains "count" param_lower || contains "num" param_lower
          || contains "size" param_lower then
    "The " +:+ param +:+ " specifying quantity"
  else if contains "flag" param_lower || contains "enable" param_lower
          || startswith "is_" param_lower then
    "Boolean flag indicating whether to " +:+ replace "_" " " (replace "is_" "" param)
  else
    "The " +:+ param +:+ " parameter".

(** The [else] branch of [_generate_return_description]: the description
    is inferred from the prefix of the function name. *)
Definition return_from_name (func_name : string) : string :=
  if startswith "is_" func_name || startswith "has_" func_name
     || startswith "check_" func_name then
    "Boolean value indicating the validation result"
  else if startswith "get_" func_name || startswith "find_" func_name then
    "The requested data or resource"
  else if startswith "calculate_" func_name || startswith "compute_" func_name then
    "The calculated numerical result"
  else "The processed result of the operation".

Definition _generate_return_description (func_name : string)
    (return_annotation : option string) : string :=
  match return_annotation with
  | Some ann =>
      if truthy ann then
        if contains "bool" (lower ann) then
          "Boolean value indicating success or validation result"
        else if contains "int" (lower ann) then
          "Integer value representing the computed result or count"
        else if contains "str" (lower ann) then
          "String containing the processed or formatted output"
        else if contains "list" (lower ann) || contains "List" ann then
          "List of processed items or results"
        else if contains "dict" (lower ann) || contains "Dict" ann then
          "Dictionary containing structured result data"
        else ann +:+ " object with the result"
      else return_from_name func_name
  | None => return_from_name func_name
  end.

(** The sample value [_generate_examples] picks for one parameter. *)
Definition example_value (param : string) : string :=
  let param_lower := lower param in
  if contains "name" param_lower || contains "str" param_lower then
    quoted (param +:+ "_value")
  else if contains "num" param_lower || contains "count" param_lower
          || contains "size" param_lower then "10"
  else if contains "list" param_lower || contains "items" param_lower then "[1, 2, 3]"
  else if contains "dict" param_lower || contains "data" param_lower then
    "{" +:+ quoted "key" +:+ ": " +:+ quoted "value" +:+ "}"
  else if startswith "is_" param_lower || contains "flag" param_lower then "True"
  else param +:+ "_value".

Definition _generate_examples (func_name : string) (ps : list string) : list string :=
  let non_self_params := non_self ps in
  match non_self_params with
  | [] => [">>> " +:+ func_name +:+ "()"; "result"]
  | _ =>
      let example_values := map example_value non_self_params in
      let example_call := ">>> " +:+ func_name +:+ "(" +:+ join ", " example_values +:+ ")" in
      [example_call; "expected_result"]
  end.

Definition _generate_inline_comments (func_info : FunctionInfo) : list string :=
  (if (1 <? List.length (params func_info))%nat
   then ["# Validate input parameters"] else [])
  ++ ["# Perform main operation"]
  ++ (if contains "return" (lower (body func_info))
         || truthy_opt (return_annotation func_info)
      then ["# Return processed result"] else []).

(** The loop filling [param_descriptions]: [self] is passed over, any
    other name gets an entry. *)
Definition describe_params (func_name : string) (ps : list string)
  : gmap string string :=
  fold_left
    (fun d param =>
       if String.eqb param "self" then d
       else <[param := _generate_param_description param func_name]> d)
    ps ∅.

Definition _generate_with_mock (func_info : FunctionInfo) : DocumentationOutput :=
  let name_parts := _split_function_name (name func_info) in
  let description :=
    _generate_description (name func_info) name_parts (params func_info) in
  let param_descriptions := describe_params (name func_info) (params func_info) in
  let return_desc :=
    _generate_return_description (name func_info) (return_annotation func_info) in
  let examples := _generate_examples (name func_info) (params func_info) in
  let inline_comments := _generate_inline_comments func_info in
  {| function_name := name func_info;
     description := description;
     param_descriptions := param_descriptions;
     return_description := return_desc;
     examples := examples;
     inline_comments := inline_comments |}.

End LLM.

(** ** Layer 4: [DocumentationGenerator] (doc_generator.py) *)

Module DocGen.
Import PyStr Parser LLM.

Definition triple_quote : string := dq +:+ dq +:+ dq.

(** The lines added for the parts of the description after its first
    line. *)
Definition detailed_lines (description : string) : list string :=
  match tail (split_char "010" description) with
  | [] => []
  | detailed_parts =>
      map strip (List.filter (fun part => truthy (strip part)) detailed_parts) ++ [""]
  end.

(** The list [lines] built by [_format_google_style]. *)
Definition google_lines (func_info : FunctionInfo) (ai_output : DocumentationOutput)
  : list string :=
  let brief := hd "" (split_char "010" (description ai_output)) in
  let ps := non_self (params func_info) in
  [triple_quote +:+ brief; ""]
  ++ detailed_lines (description ai_output)
  ++ (match ps with
      | [] => []
      | _ =>
          ["Args:"]
          ++ map (fun param =>
                    let param_desc :=
                      default ("The " +:+ param +:+ " parameter")
                              (param_descriptions ai_output !! param) in
                    "    " +:+ param +:+ ": " +:+ param_desc) ps
          ++ [""]
      end)
  ++ (if truthy_opt (return_annotation func_info) || truthy (return_description ai_output)
      then ["Returns:"; "    " +:+ return_description ai_output; ""]
      else [])
  ++ (match examples ai_output with
      | [] => []
      | exs => ["Examples:"] ++ map (fun example => "    " +:+ example) exs ++ [""]
      end)
  ++ [triple_quote].

Definition _format_google_style (func_info : FunctionInfo)
    (ai_output : DocumentationOutput) : string :=
  join nl (google_lines func_info ai_output).

(** The list [lines] built by [_format_numpy_style]. *)
Definition numpy_lines (func_info : FunctionInfo) (ai_output : DocumentationOutput)
  : list string :=
  let brief := hd "" (split_char "010" (description ai_output)) in
  let ps := non_self (params func_info) in
  [triple_quote +:+ brief; ""]
  ++ detailed_lines (description ai_output)
  ++ (match ps with
      | [] => []
      | _ =>
          ["Parameters"; "----------"]
          ++ flat_map (fun param =>
                    let param_desc :=
                      default ("The " +:+ param +:+ " parameter")
                              (param_descriptions ai_output !! param) in
                    [param +:+ " : type"; "    " +:+ param_desc]) ps
          ++ [""]
      end)
  ++ (if truthy_opt (return_annotation func_info) || truthy (return_description ai_output)
      then
        let return_type :=
          match return_annotation func_info with
          | Some a => if truthy a then a else "type"
          | None => "type"
          end in
        ["Returns"; "-------"; return_type; "    " +:+ return_description ai_output; ""]
      else [])
  ++ (match examples ai_output with
      | [] => []
      | exs => ["Examples"; "--------"] ++ exs ++ [""]
      end)
  ++ [triple_quote].

Definition _format_numpy_style (func_info : FunctionInfo)
    (ai_output : DocumentationOutput) : string :=
  join nl (numpy_lines func_info ai_output).

(** [style] is the attribute set by the constructor, already lower-cased. *)
Definition generate_function_docs (style : string) (func_info : FunctionInfo)
    (ai_output : DocumentationOutput) : string :=
  if String.eqb style "google" then _format_google_style func_info ai_output
  else if String.eqb style "numpy" then _format_numpy_style func_info ai_output
  else _format_google_style func_info ai_output.

End DocGen.

(** ** Layer 5: [DocumentationEvaluator] (evaluator.py) *)

Module Evaluator.
Import PyStr Parser Float64.

(** The interpretation strings begin with pictographs outside the
    character range of this model; each is represented by a tag.  They are
    presentation hints and enter no computation. *)
Inductive interpretation : Type :=
| KeywordExcellent | KeywordGood | KeywordModerate | KeywordLow
| CoveragePerfect | CoverageHigh | CoverageModerate | CoverageLow
| LengthBalanced | LengthVerbose | LengthConcise
| HighlyConsistent | GenerallyConsistent | ModeratelyConsistent | Inconsistent.

Record analysis : Type := mkAnalysis {
  an_keyword_overlap : Q * interpretation;
  an_coverage : Q * interpretation;
  an_length_ratio : Q * interpretation;
  an_consistency : Q * interpretation
}.

Record EvaluationResult : Type := mkEvaluationResult {
  keyword_overlap_score : Q;
  coverage_score : Q;
  length_ratio : Q;
  consistency_score : Q;
  overall_score : Q;
  detailed_analysis : analysis
}.

Definition stop_words : gset string :=
  list_to_set
    [ "the"; "a"; "an"; "and"; "or"; "but"; "in"; "on"; "at"; "to"; "for";
      "of"; "with"; "by"; "from"; "as"; "is"; "was"; "are"; "were"; "be";
      "been"; "being"; "have"; "has"; "had"; "do"; "does"; "did"; "will";
      "would"; "should"; "could"; "may"; "might"; "must"; "can"; "this";
      "that"; "these"; "those"; "it"; "its" ].

(** [re.sub(r'[^a-z0-9\s]', ' ', text)] *)
Fixpoint blank_specials (s : string) : string :=
  match s with
  | EmptyString => EmptyString
  | String c s' =>
      String (if is_az c || is_digit c || is_space c then c else " "%char)
             (blank_specials s')
  end.

Definition _extract_keywords (text : string) : gset string :=
  let text := lower text in
  let text := blank_specials text in
  let words := split_ws text in
  list_to_set
    (List.filter
       (fun word => negb (bool_decide (word ∈ stop_words))
                    && (2 <? String.length word)%nat)
       words).

Definition calculate_keyword_overlap (ai_docs human_docs : string) : exc Q :=
  let ai_keywords := _extract_keywords ai_docs in
  let human_keywords := _extract_keywords human_docs in
  if bool_decide (ai_keywords = ∅) || bool_decide (human_keywords = ∅)
  then Ok 0%Q
  else
    let intersection := ai_keywords ∩ human_keywords in
    let union := ai_keywords ∪ human_keywords in
    let* jaccard_similarity :=
      int_truediv (Z.of_nat (size intersection)) (Z.of_nat (size union)) in
    Ok (round2 (fmul jaccard_similarity 100)).

(** The names [calculate_coverage] looks for. *)
Definition element_names (code_structure : CodeStructure) : list string :=
  map name (functions code_structure) ++ map cls_name (classes code_structure).

(** The two counting loops of [calculate_coverage]. *)
Definition documented (docs : string) (names : list string) : nat :=
  List.length (List.filter (fun nm => contains (lower nm) (lower docs)) names).

Definition calculate_coverage (docs : string) (code_structure : CodeStructure) : exc Q :=
  let total_elements :=
    (List.length (functions code_structure) + List.length (classes code_structure))%nat in
  if (total_elements =? 0)%nat then Ok 100%Q
  else
    let documented_count :=
      (documented docs (map name (functions code_structure))
       + documented docs (map cls_name (classes code_structure)))%nat in
    let* fraction := int_truediv (Z.of_nat documented_count) (Z.of_nat total_elements) in
    let coverage := fmul fraction 100 in
    Ok (round2 coverage).

Definition calculate_length_ratio (ai_docs human_docs : string) : exc Q :=
  let ai_words := List.length (split_ws ai_docs) in
  let human_words := List.length (split_ws human_docs) in
  if (human_words =? 0)%nat then Ok 1%Q
  else
    let* ratio := int_truediv (Z.of_nat ai_words) (Z.of_nat human_words) in
    Ok (round2 ratio).

(** A literal matched under [re.IGNORECASE] at the start of [s]; the
    answer is the text matched, in the case it has in [s]. *)
Fixpoint imatch (pat s : string) : option string :=
  match pat, s with
  | EmptyString, _ => Some EmptyString
  | String a pat', String b s' =>
      if Ascii.eqb (lower_char a) (lower_char b)
      then option_map (String b) (imatch pat' s')
      else None
  | String _ _, EmptyString => None
  end.

Definition imatches (pat s : string) : bool :=
  match imatch pat s with Some _ => true | None => false end.

(** [re.search]: is there a position where the pattern matches? *)
Fixpoint search (matches_at : string -> bool) (s : string) : bool :=
  matches_at s ||
  match s with
  | EmptyString => false
  | String _ s' => search matches_at s'
  end.

(** [(Args|Parameters|Returns|Examples):] tried at the start of [s]; the
    answer is group 1. *)
Fixpoint header_alternatives (alts : list string) (s : string) : option string :=
  match alts with
  | [] => None
  | alt :: alts' =>
      match imatch (alt +:+ ":") s with
      | Some m => Some (take (String.length alt) m)
      | None => header_alternatives alts' s
      end
  end.

Definition header_at (s : string) : option string :=
  header_alternatives ["Args"; "Parameters"; "Returns"; "Examples"] s.

(** [re.findall(r'^(Args|Parameters|Returns|Examples):', docs,
    re.MULTILINE | re.IGNORECASE)]; [bol] says whether the position is the
    start of the text or follows a newline.  A header holds no newline, so
    no line start lies inside a match. *)
Fixpoint header_findall (bol : bool) (s : string) : list string :=
  match s with
  | EmptyString => []
  | String c s' =>
      let rest := header_findall (is_newline c) s' in
      if bol then
        match header_at s with
        | Some g => g :: rest
        | None => rest
        end
      else rest
  end.

(** [s[0].isupper()] on a matched header. *)
Definition starts_upper (s : string) : bool :=
  match s with
  | String c _ => isupper_char c
  | EmptyString => false
  end.

(** [\s+\w+:.*$] tried at the start of [s].  The classes [\s] and [\w]
    are disjoint and hold no colon, so both runs are the maximal ones; the
    match then extends to the end of the line.  The answer is the length of
    the match. *)
Definition param_line_at (s : string) : option nat :=
  let ws := span_len is_space s in
  let after_ws := drop ws s in
  let w := span_len is_word after_ws in
  let after_w := drop w after_ws in
  if (0 <? ws)%nat && (0 <? w)%nat && startswith ":" after_w
  then Some (ws + w + span_len (fun c => negb (is_newline c)) after_w)%nat
  else None.

(** [re.findall(r'^\s+\w+:.*$', docs, re.MULTILINE)]; the search resumes
    where the last match ended, and [skip] counts the characters of that
    match still to be passed over. *)
Fixpoint param_findall (bol : bool) (skip : nat) (s : string) : list string :=
  match s with
  | EmptyString => []
  | String c s' =>
      match skip with
      | S k => param_findall (is_newline c) k s'
      | O =>
          if bol then
            match param_line_at s with
            | Some n => take n s :: param_findall (is_newline c) (n - 1) s'
            | None => param_findall (is_newline c) 0 s'
            end
          else param_findall (is_newline c) 0 s'
      end
  end.

(** The headers found at line starts all begin with a capital, or none
    of them does. *)
Definition uniform_case (sections : list string) : Prop :=
  Forall (fun h => starts_upper h = true) sections
  \/ Forall (fun h => starts_upper h = false) sections.

(** The list [checks] of [calculate_consistency]. *)
Definition consistency_checks (docs : string) : list bool :=
  let has_args := search (fun s => imatches "Args:" s || imatches "Parameters:" s) docs in
  let has_returns := search (fun s => imatches "Returns:" s || imatches "Return:" s) docs in
  let has_examples := search (fun s => startswith "Example" s || startswith ">>>" s) docs in
  let sections := header_findall true docs in
  let case_check :=
    match sections with
    | [] => false
    | _ =>
        let capitalized := List.length (List.filter starts_upper sections) in
        (capitalized =? List.length sections)%nat || (capitalized =? 0)%nat
    end in
  let param_lines := param_findall true 0 docs in
  let param_check :=
    match param_lines with
    | [] => true
    | _ => (1 <=? List.length param_lines)%nat
    end in
  [has_args; has_returns; has_examples; case_check; param_check].

Definition calculate_consistency (docs : string) : exc Q :=
  let checks := consistency_checks docs in
  let* fraction :=
    int_truediv (Z.of_nat (List.length (List.filter id checks)))
                (Z.of_nat (List.length checks)) in
  let score := fmul fraction 100 in
  Ok (round2 score).

Definition _interpret_keyword_overlap (score : Q) : interpretation :=
  if Qle_bool 80 score then KeywordExcellent
  else if Qle_bool 60 score then KeywordGood
  else if Qle_bool 40 score then KeywordModerate
  else KeywordLow.

Definition _interpret_coverage (score : Q) : interpretation :=
  if Qeq_bool score 100 then CoveragePerfect
  else if Qle_bool 80 score then CoverageHigh
  else if Qle_bool 60 score then CoverageModerate
  else CoverageLow.

Definition _interpret_length_ratio (ratio : Q) : interpretation :=
  if Qle_bool (lit (8 # 10)) ratio && Qle_bool ratio (lit (12 # 10)) then LengthBalanced
  else if negb (Qle_bool ratio (lit (12 # 10))) then LengthVerbose
  else LengthConcise.

Definition _interpret_consistency (score : Q) : interpretation :=
  if Qle_bool 90 score then HighlyConsistent
  else if Qle_bool 70 score then GenerallyConsistent
  else if Qle_bool 50 score then ModeratelyConsistent
  else Inconsistent.

(** [length_ratio - 1.0 + 0.1] *)
Definition length_denominator (length_ratio : Q) : Q :=
  fadd (fsub length_ratio 1) (lit (1 # 10)).

(** [min(100, (1.0 / abs(length_ratio - 1.0 + 0.1)) * 10)] *)
Definition length_term (length_ratio : Q) : exc Q :=
  let* inverse := fdiv 1 (Qabs (length_denominator length_ratio)) in
  Ok (pymin 100 (fmul inverse 10)).

(** [keyword_score * 0.35 + coverage_score * 0.30 + clamped * 0.15
    + consistency_score * 0.20], added from left to right. *)
Definition weighted_sum (keyword_score coverage_score clamped consistency_score : Q) : Q :=
  fadd (fadd (fadd (fmul keyword_score (lit (35 # 100)))
                   (fmul coverage_score (lit (30 # 100))))
             (fmul clamped (lit (15 # 100))))
       (fmul consistency_score (lit (20 # 100))).

Definition evaluate (ai_docs human_docs : string) (code_structure : CodeStructure)
  : exc EvaluationResult :=
  let* keyword_score := calculate_keyword_overlap ai_docs human_docs in
  let* coverage_score := calculate_coverage ai_docs code_structure in
  let* length_ratio := calculate_length_ratio ai_docs human_docs in
  let* consistency_score := calculate_consistency ai_docs in
  let* clamped := length_term length_ratio in
  let overall_score :=
    weighted_sum keyword_score coverage_score clamped consistency_score in
  let analysis :=
    {| an_keyword_overlap := (keyword_score, _interpret_keyword_overlap keyword_score);
       an_coverage := (coverage_score, _interpret_coverage coverage_score);
       an_length_ratio := (length_ratio, _interpret_length_ratio length_ratio);
       an_consistency := (consistency_score, _interpret_consistency consistency_score) |} in
  Ok {| keyword_overlap_score := keyword_score;
        coverage_score := coverage_score;
        length_ratio := length_ratio;
        consistency_score := consistency_score;
        overall_score := overall_score;
        detailed_analysis := analysis |}.

End Evaluator.

(** ** Sample inputs *)

Module Samples.
Import PyStr Parser.

(** A text made of stop words and short words only. *)
Definition stop_word_text : string := "It is as it was".

Definition no_elements : CodeStructure :=
  {| functions := []; classes := []; module_docstring := None;
     total_lines := 1; is_valid := true; error_message := None |}.

(** Three functions, the name of one inside the name of another. *)
Definition nested_names : CodeStructure :=
  {| functions :=
       [ mkFunctionInfo "abcd" [] None None 1 1 "def abcd(): pass";
         mkFunctionInfo "bc" [] None None 2 2 "def bc(): pass";
         mkFunctionInfo "z" [] None None 3 3 "def z(): pass" ];
     classes := []; module_docstring := None;
     total_lines := 3; is_valid := true; error_message := None |}.

Definition well_formed_doc : string :=
  "Computes the total." +:+ nl +:+
  "Args:" +:+ nl +:+
  "    items: Collection of items" +:+ nl +:+
  "Returns:" +:+ nl +:+
  "    The total" +:+ nl +:+
  "Examples:" +:+ nl +:+
  "    >>> total([1])".

(** The function of the worked example, as the extractor would give it
    for a two-line definition. *)
Definition price_function : FunctionInfo :=
  mkFunctionInfo "calculate_total_price" ["items"; "tax_rate"] None None 1 2
    ("def calculate_total_price(items, tax_rate):" +:+ nl +:+
     "    return sum(items) * (1 + tax_rate)").

Definition class_method : FunctionInfo :=
  mkFunctionInfo "from_config" ["cls"; "settings"] None None 1 2
    "def from_config(cls, settings): return cls(settings)".

(** A parser that rejects one text and reads any other as an empty
    module. *)
Definition toy_parse (code : string) : parse_outcome :=
  if String.eqb code "def f(:" then RaisesSyntaxError (Some 1%Z) "invalid syntax"
  else Parsed {| mod_body := []; mod_docstring := None |}.

End Samples.

(** ** [CodeParser], continued: line counts and the shape of a tree *)

Module ParserExt.
Import PyStr Parser.

(** [count_lines]; the answer is a [dict] with four keys. *)
Definition count_lines (code : string) : gmap string Z :=
  let lines := split_char "010" code in
  let total := Z.of_nat (List.length lines) in
  let blank :=
    Z.of_nat (List.length
      (List.filter (fun line => String.eqb (strip line) EmptyString) lines)) in
  let comments :=
    Z.of_nat (List.length
      (List.filter (fun line => startswith "#" (strip line)) lines)) in
  {[ "total" := total; "blank" := blank; "comments" := comments;
     "code" := (total - blank - comments)%Z ]}.



End ParserExt.

(** ** [LLMInterface], continued: construction and delegated mode *)

Module Delegated.
Import PyStr Parser LLM.

(** The two attributes of an [LLMInterface] object. *)
Record interface : Type := mkInterface {
  use_api : bool;
  api_key : option string
}.

(** [__init__]; [env_key] is what [os.getenv('OPENAI_API_KEY')] answers.
    Without a key a request for the API mode is turned down. *)
Definition __init__ (use_api : bool) (api_key env_key : option string) : interface :=
  let key := if truthy_opt api_key then api_key else env_key in
  if use_api && negb (truthy_opt key)
  then {| use_api := false; api_key := key |}
  else {| use_api := use_api; api_key := key |}.

Definition _create_prompt (func_info : FunctionInfo) : string :=
  "Generate comprehensive documentation for this Python function:" +:+ nl +:+
  nl +:+
  "Function Name: " +:+ name func_info +:+ nl +:+
  "Parameters: " +:+ join ", " (params func_info) +:+ nl +:+
  "Return Type: " +:+
    (match return_annotation func_info with
     | Some a => if truthy a then a else "Not specified"
     | None => "Not specified"
     end) +:+ nl +:+
  nl +:+
  "Provide:" +:+ nl +:+
  "1. Brief description (1-2 sentences)" +:+ nl +:+
  "2. Parameter descriptions" +:+ nl +:+
  "3. Return value description" +:+ nl +:+
  "4. Usage example" +:+ nl +:+
  nl +:+
  "Format as Google-style docstring.".

(** The dict comprehension of [_parse_api_response]. *)
Definition placeholder_params (ps : list string) : gmap string string :=
  fold_left
    (fun d p => if String.eqb p "self" then d else <[p := "Description of " +:+ p]> d)
    ps ∅.

Definition _parse_api_response (response : string) (func_info : FunctionInfo)
  : DocumentationOutput :=
  {| function_name := name func_info;
     description := take 200 response;
     param_descriptions := placeholder_params (params func_info);
     return_description := "Return value description";
     examples := [">>> example()"; "result"];
     inline_comments := ["# Main operation"] |}.

Section WithService.

(** The chat completion call, from the prompt to the text of the first
    choice; [None] stands for any exception raised on the way (no
    [openai] module, authentication, network, a reply without text). *)
Variable complete : string -> option string.

Definition _generate_with_api (func_info : FunctionInfo) : DocumentationOutput :=
  match complete (_create_prompt func_info) with
  | Some content => _parse_api_response content func_info
  | None => _generate_with_mock func_info
  end.

Definition generate_documentation (self : interface) (function_info : FunctionInfo)
  : DocumentationOutput :=
  if use_api self then _generate_with_api function_info
  else _generate_with_mock function_info.

End WithService.

End Delegated.

(** ** [DocumentationGenerator], continued *)

Module DocGenExt.
Import PyStr Parser LLM DocGen.

(** [c * n] for a one-character string. *)
Fixpoint repeat_char (c : ascii) (n : nat) : string :=
  match n with
  | O => EmptyString
  | S n' => String c (repeat_char c n')
  end.

(** The constructor keeps the style in lower case. *)
Definition __init__ (style : string) : string := lower style.

(** The loop of [generate_inline_comments] over [enumerate(lines)]:
    [lines] holds the lines from the current one on. *)
Fixpoint comment_lines (ai_suggestions : list string) (suggestion_index : nat)
    (lines : list string) : list string :=
  match lines with
  | [] => []
  | line :: rest =>
      if contains "def " line && (suggestion_index <? List.length ai_suggestions)%nat
      then
        match rest with
        | next :: _ =>
            let indent := (String.length next - String.length (lstrip next))%nat in
            line
              :: (repeat_char " " indent +:+ nth suggestion_index ai_suggestions EmptyString)
              :: comment_lines ai_suggestions (S suggestion_index) rest
        | [] => line :: comment_lines ai_suggestions suggestion_index rest
        end
      else line :: comment_lines ai_suggestions suggestion_index rest
  end.

Definition generate_inline_comments (code : string) (ai_suggestions : list string)
  : string :=
  join nl (comment_lines ai_suggestions 0 (split_char "010" code)).

(** [x.docstring.split('\n')[0] if x.docstring else fallback] *)
Definition brief_of (doc : option string) (fallback : string) : string :=
  match doc with
  | Some d => if truthy d then hd EmptyString (split_char "010" d) else fallback
  | None => fallback
  end.

(** The list [lines] built by [generate_module_docs]. *)
Definition module_doc_lines (code_structure : CodeStructure) (project_name : string)
  : list string :=
  [triple_quote; project_name; "";
   "This module provides the following functionality:"; ""]
  ++ (match functions code_structure with
      | [] => []
      | fs =>
          ["Functions:"]
          ++ map (fun func =>
                    "    " +:+ name func +:+ ": " +:+ brief_of (docstring func) "Function") fs
          ++ [""]
      end)
  ++ (match classes code_structure with
      | [] => []
      | cs =>
          ["Classes:"]
          ++ map (fun cls =>
                    "    " +:+ cls_name cls +:+ ": " +:+ brief_of (cls_docstring cls) "Class") cs
          ++ [""]
      end)
  ++ [triple_quote].

Definition generate_module_docs (code_structure : CodeStructure) (project_name : string)
  : string :=
  join nl (module_doc_lines code_structure project_name).

(** A [dict] from names to texts whose order matters: the pairs in
    insertion order.  [d[k] = v] replaces the value of a key already
    there, in place, and otherwise adds the pair at the end. *)
Fixpoint dict_set (k v : string) (d : list (string * string)) : list (string * string) :=
  match d with
  | [] => [(k, v)]
  | (k', v') :: d' =>
      if String.eqb k' k then (k, v) :: d' else (k', v') :: dict_set k v d'
  end.

(** The list [output] built by [format_output]. *)
Definition output_items (all_docs : list (string * string)) : list string :=
  ["# Generated Documentation" +:+ nl; repeat_char "=" 60; ""]
  ++ flat_map (fun '(func_name, docstring) =>
                 ["## Function: " +:+ func_name; ""; docstring; "";
                  repeat_char "-" 60; ""]) all_docs.

Definition format_output (all_docs : list (string * string)) : string :=
  join nl (output_items all_docs).

End DocGenExt.

(** ** The generation loop of [main] and of the application *)

Module Pipeline.
Import PyStr Parser LLM DocGen DocGenExt.

(** [for func in code_structure.functions: ...]; [generate] is the
    [generate_documentation] of the interface in use and [style] the
    attribute of the generator. *)
Definition document_all (generate : FunctionInfo -> DocumentationOutput)
    (style : string) (fs : list FunctionInfo) : list (string * string) :=
  fold_left
    (fun all_docs func =>
       let ai_output := generate func in
       let docstring := generate_function_docs style func ai_output in
       dict_set (name func) docstring all_docs)
    fs [].

Definition generated_docs (generate : FunctionInfo -> DocumentationOutput)
    (style : string) (code_structure : CodeStructure) : string :=
  format_output (document_all generate (DocGenExt.__init__ style) (functions code_structure)).

End Pipeline.

(** ** Layer 6: [OutputFormatter] (formatter.py), the score bands *)

Module OutputFormatter.
Import Float64.

Definition _get_color (score : Q) : string :=
  if Qle_bool 80 score then "green"
  else if Qle_bool 60 score then "yellow"
  else if Qle_bool 40 score then "orange"
  else "red".

Definition _get_label (score : Q) : string :=
  if Qle_bool 85 score then "Excellent"
  else if Qle_bool 70 score then "Good"
  else if Qle_bool 55 score then "Fair"
  else "Needs Improvement".

(** The [status] entry of [create_visualization_data]. *)
Definition length_status (length_ratio : Q) : string :=
  if Qle_bool (lit (8 # 10)) length_ratio && Qle_bool length_ratio (lit (12 # 10))
  then "ideal" else "warning".

End OutputFormatter.

(** ** [DocumentationEvaluator], continued: the comparison table *)

Module Comparison.
Import PyStr Parser LLM DocGenExt.

(** [s.split(sep)] for a separator of several characters: occurrences
    are taken left to right and do not overlap; [skip] counts the
    characters of the occurrence just found that are still to be passed
    over. *)
Fixpoint split_from (sep : string) (skip : nat) (s : string) : list string :=
  match s with
  | EmptyString => [EmptyString]
  | String c s' =>
      match skip with
      | S k => split_from sep k s'
      | O =>
          if startswith sep s
          then EmptyString :: split_from sep (String.length sep - 1) s'
          else match split_from sep 0 s' with
               | h :: t => String c h :: t
               | [] => [String c EmptyString]
               end
      end
  end.

Definition split_str (sep s : string) : list string := split_from sep 0 s.

(** [d.get(k)] on a dict kept as its pairs. *)
Fixpoint dict_get (k : string) (d : list (string * string)) : option string :=
  match d with
  | [] => None
  | (k', v) :: d' => if String.eqb k' k then Some v else dict_get k d'
  end.

(** Group 1 of [re.match(r'def\s+(\w+)', line)]: both runs are the
    maximal ones, the two classes being disjoint. *)
Definition def_name (line : string) : option string :=
  if startswith "def" line then
    let after_def := drop 3 line in
    let ws := span_len is_space after_def in
    let after_ws := drop ws after_def in
    let w := span_len is_word after_ws in
    if (0 <? ws)%nat && (0 <? w)%nat then Some (take w after_ws) else None
  else None.

(** The three variables of the loop of [_split_by_function]. *)
Record splitter : Type := mkSplitter {
  sections : list (string * string);
  current_func : option string;
  current_content : list string
}.

(** [if current_func: sections[current_func] = '\n'.join(current_content)] *)
Definition save (st : splitter) : list (string * string) :=
  match current_func st with
  | Some f => if truthy f then dict_set f (join nl (current_content st)) (sections st)
              else sections st
  | None => sections st
  end.

(** One turn of the loop. *)
Definition split_step (st : splitter) (line : string) : splitter :=
  if contains "##" line && contains "Function:" line then
    {| sections := save st;
       current_func := Some (strip (List.last (split_str "Function:" line) EmptyString));
       current_content := [] |}
  else if startswith "def " line then
    match def_name line with
    | Some group1 =>
        {| sections := save st;
           current_func := Some group1;
           current_content := [line] |}
    | None => st
    end
  else if truthy_opt (current_func st) then
    {| sections := sections st;
       current_func := current_func st;
       current_content := current_content st ++ [line] |}
  else st.

Definition _split_by_function (docs : string) : list (string * string) :=
  save (fold_left split_step (split_char "010" docs)
          {| sections := []; current_func := None; current_content := [] |}).

(** One dict of the list [comparison]. *)
Record comparison_row : Type := mkRow {
  row_function : string;
  ai_doc : string;
  human_doc : string;
  row_match : bool
}.

Definition not_documented : string := "(Not documented)".

(** The order of [str]: by code points, a proper prefix first. *)
Definition string_le (a b : string) : Prop := String.leb a b = true.

#[global] Instance string_le_dec : RelDecision string_le :=
  fun a b => decide (String.leb a b = true).

(** [sorted(s)] on a set of strings. *)
Definition sorted (s : gset string) : list string := merge_sort string_le (elements s).

Definition generate_comparison_table (ai_docs human_docs : string)
  : list comparison_row :=
  let ai_sections := _split_by_function ai_docs in
  let human_sections := _split_by_function human_docs in
  let all_functions : gset string :=
    list_to_set (map fst ai_sections) ∪ list_to_set (map fst human_sections) in
  map (fun func_name =>
         {| row_function := func_name;
            ai_doc := default not_documented (dict_get func_name ai_sections);
            human_doc := default not_documented (dict_get func_name human_sections);
            row_match := among func_name (map fst ai_sections)
                         && among func_name (map fst human_sections) |})
      (sorted all_functions).

(** The entry [summary] of [format_comparison] (formatter.py). *)
Record comparison_summary : Type := mkSummary {
  total_functions : nat;
  both_documented : nat;
  only_ai : nat;
  only_human : nat
}.

Definition format_comparison_summary (comparison_data : list comparison_row)
  : comparison_summary :=
  {| total_functions := List.length comparison_data;
     both_documented := List.length (List.filter row_match comparison_data);
     only_ai :=
       List.length
         (List.filter
            (fun item => negb (String.eqb (ai_doc item) not_documented)
                         && String.eqb (human_doc item) not_documented)
            comparison_data);
     only_human :=
       List.length
         (List.filter
            (fun item => negb (String.eqb (human_doc item) not_documented)
                         && String.eqb (ai_doc item) not_documented)
            comparison_data) |}.

End Comparison.

(** ** More sample inputs *)

Module MoreSamples.
Import PyStr Parser LLM Delegated.

(** A module with a function and a class; the method of the class holds
    another class. *)
Definition shapes_text : string :=
  "def area(r):" +:+ nl +:+
  "    return r" +:+ nl +:+
  "class Shape:" +:+ nl +:+
  "    def scale(self, k):" +:+ nl +:+
  "        class Unit:" +:+ nl +:+
  "            pass" +:+ nl +:+
  "        return k".



(** A service with one answer to every prompt. *)
Definition steady_service (prompt : string) : option string :=
  Some "Adds the tax to the sum of the items.".

(** An interface built with a key. *)
Definition keyed : interface := Delegated.__init__ true (Some "sk-local") None.

(** A method whose second parameter is named [this]. *)
Definition bound_method : FunctionInfo :=
  mkFunctionInfo "scale" ["self"; "this"; "k"] None None 1 2
    ("def scale(self, this, k):" +:+ nl +:+ "    return this * k").

(** What CPython answers for a text that holds a null byte: it reads no
    line of it.  Up to 3.11 [ast.parse] raises [ValueError], from 3.12 a
    [SyntaxError] that carries no line number, with the same message.  Any
    other text is read here as an empty module. *)
Definition null_byte_parse (as_syntax_error : bool) (code : string) : parse_outcome :=
  if existsb (fun c => (PyStr.code c =? 0)%nat) (list_ascii_of_string code) then
    if as_syntax_error
    then RaisesSyntaxError None "source code string cannot contain null bytes"
    else RaisesOther "source code string cannot contain null bytes"
  else Parsed {| mod_body := []; mod_docstring := None |}.

Definition null_byte_text : string := "x = 1" +:+ String "000" EmptyString.

(** A service whose answer has more than 200 characters. *)
Definition long_reply : string :=
       "Computes the total price of the items in a basket. " +:+
       "Each item contributes its unit price times its quantity. " +:+
       "The tax rate is applied to the sum of all the items. " +:+
       "A negative rate is taken as a discount on the whole basket. " +:+
       "The result is rounded to two decimals before it is returned.".

Definition verbose_service (prompt : string) : option string := Some long_reply.

End MoreSamples.

(** * Properties *)

Import PyStr Parser Float64 LLM DocGen Evaluator Samples.

(** ** The model on small inputs *)

Example split_char_underscores :
  split_char "_" "__init__" = [""; ""; "init"; ""; ""].
Proof. reflexivity. Qed.

Example split_ws_runs :
  split_ws ("  a b" +:+ nl +:+ "c ") = ["a"; "b"; "c"].
Proof. reflexivity. Qed.

Example replace_is_prefix :
  replace "_" " " (replace "is_" "" "is_very_verbose") = "very verbose".
Proof. reflexivity. Qed.

Example name_findall_acronym :
  name_findall 0 "getHTTPResponse2Code" = ["get"; "HTTP"; "Response"; "2"; "Code"].
Proof. reflexivity. Qed.

Example name_findall_gives_back_one_capital :
  name_findall 0 "HTTPserver" = ["HTT"; "Pserver"].
Proof. reflexivity. Qed.

Example header_findall_line_starts :
  header_findall true ("Args:" +:+ nl +:+ "  returns: x" +:+ nl +:+ "EXAMPLES: y")
  = ["Args"; "EXAMPLES"].
Proof. reflexivity. Qed.

Example param_findall_spans_blank_lines :
  param_findall true 0 (nl +:+ nl +:+ "  x: y and" +:+ nl +:+ " z:" +:+ nl +:+ "q: r")
  = [nl +:+ nl +:+ "  x: y and"; " z:"].
Proof. reflexivity. Qed.

Example extract_keywords_sample :
  _extract_keywords "The parser; it PARSES the Source-code."
  = {[ "parser"; "parses"; "source"; "code" ]}.
Proof. vm_compute. reflexivity. Qed.

Example b64_tenth : Qeq (b64 (1 # 10)) (3602879701896397 # 36028797018963968).
Proof. vm_compute. reflexivity. Qed.

Example round2_tie_follows_the_binary_value :
  Qeq (round2 (b64 (1 # 200))) (b64 (1 # 100))
  /\ Qeq (round2 (b64 (1 # 8))) (b64 (12 # 100)).
Proof. split; vm_compute; reflexivity. Qed.

Example two_thirds_as_percentage :
  Qeq (round2 (fmul (b64 (2 # 3)) 100)) (b64 (6667 # 100)).
Proof. vm_compute. reflexivity. Qed.

(** ** Strings *)

Lemma sapp_assoc (a b c : string) : (a +:+ b) +:+ c = a +:+ b +:+ c.
Proof.
  induction a as [|x a IH]; [reflexivity|].
  change (String x ((a +:+ b) +:+ c) = String x (a +:+ b +:+ c)). now rewrite IH.
Qed.

Lemma sapp_nil_r (a : string) : a +:+ "" = a.
Proof.
  induction a as [|x a IH]; [reflexivity|].
  change (String x (a +:+ "") = String x a). now rewrite IH.
Qed.

Lemma lower_char_idemp (c : ascii) : lower_char (lower_char c) = lower_char c.
Proof. destruct c as [[] [] [] [] [] [] [] []]; reflexivity. Qed.

Lemma lower_idemp (s : string) : lower (lower s) = lower s.
Proof. induction s as [|c s IH]; simpl; [reflexivity|]. now rewrite lower_char_idemp, IH. Qed.

Lemma lower_app (s t : string) : lower (s +:+ t) = lower s +:+ lower t.
Proof. induction s as [|c s IH]; simpl; [reflexivity|]. now rewrite IH. Qed.

Lemma startswith_app (p s t : string) :
  startswith p s = true -> startswith p (s +:+ t) = true.
Proof.
  revert s. induction p as [|a p IH]; intros [|b s]; simpl; try easy.
  intros H. apply andb_true_iff in H as [-> H]. simpl. now apply IH.
Qed.

Lemma startswith_refl_app (p t : string) : startswith p (p +:+ t) = true.
Proof. induction p as [|a p IH]; simpl; [reflexivity|]. now rewrite Ascii.eqb_refl. Qed.

Lemma contains_app_l (n s t : string) :
  contains n s = true -> contains n (s +:+ t) = true.
Proof.
  induction s as [|c s IH]; simpl.
  - rewrite orb_false_r. intros H.
    destruct n; [destruct t; reflexivity | discriminate].
  - intros H. apply orb_true_iff in H as [H | H]; apply orb_true_iff.
    + left. now apply (startswith_app n (String c s) t).
    + right. now apply IH.
Qed.

Lemma contains_app_r (n s t : string) :
  contains n t = true -> contains n (s +:+ t) = true.
Proof.
  intros H. induction s as [|c s IH]; simpl; [assumption|].
  apply orb_true_iff. now right.
Qed.

Lemma contains_middle (n s t : string) : contains n (s +:+ n +:+ t) = true.
Proof.
  apply contains_app_r.
  destruct (n +:+ t) eqn:E; simpl.
  - destruct n; [reflexivity | discriminate].
  - apply orb_true_iff. left. rewrite <- E.
    apply (startswith_refl_app n t).
Qed.

Lemma startswith_split (p s : string) :
  startswith p s = true -> exists t, s = p +:+ t.
Proof.
  revert s. induction p as [|a p IH]; intros s H.
  - now exists s.
  - destruct s as [|b s]; [discriminate|]. simpl in H.
    apply andb_true_iff in H as [E H]. apply Ascii.eqb_eq in E as ->.
    destruct (IH _ H) as [t ->]. now exists t.
Qed.

Lemma contains_split (n s : string) :
  contains n s = true -> exists u t, s = u +:+ n +:+ t.
Proof.
  induction s as [|c s IH]; simpl.
  - rewrite orb_false_r. intros H. destruct (startswith_split _ _ H) as [t E].
    exists "", t. exact E.
  - intros H. apply orb_true_iff in H as [H | H].
    + destruct (startswith_split _ _ H) as [t E]. exists "", t. exact E.
    + destruct (IH H) as (u & t & ->). now exists (String c u), t.
Qed.

Lemma contains_refl (n : string) : contains n n = true.
Proof.
  rewrite <- (sapp_nil_r n) at 2. apply (contains_middle n "" "").
Qed.

Lemma contains_trans (a b c : string) :
  contains a b = true -> contains b c = true -> contains a c = true.
Proof.
  intros Hab Hbc.
  destruct (contains_split _ _ Hab) as (u & t & ->).
  destruct (contains_split _ _ Hbc) as (u' & t' & ->).
  apply contains_app_r.
  rewrite !sapp_assoc. apply contains_middle.
Qed.

(** ** Receiver exclusion *)

Lemma join_cons (sep x : string) (l : list string) :
  exists after, join sep (x :: l) = x +:+ after.
Proof.
  destruct l as [|y l].
  - exists "". simpl. now rewrite sapp_nil_r.
  - eexists. reflexivity.
Qed.

Lemma join_split (sep : string) (l1 : list string) (x : string) (l2 : list string) :
  exists before after, join sep (l1 ++ x :: l2) = before +:+ x +:+ after.
Proof.
  induction l1 as [|y l1 (b & a & IH)].
  - destruct (join_cons sep x l2) as (a & E). exists "", a. exact E.
  - exists (y +:+ sep +:+ b), a.
    change ((y :: l1) ++ x :: l2)%list with (y :: (l1 ++ x :: l2))%list.
    destruct (l1 ++ x :: l2)%list as [|z l] eqn:E.
    + destruct l1; discriminate.
    + change (join sep (y :: z :: l)) with (y +:+ sep +:+ join sep (z :: l)).
      rewrite IH. now rewrite !sapp_assoc.
Qed.

Lemma describe_params_fold (fn : string) (ps : list string) (d : gmap string string) (p : string) :
  p <> "self" ->
  In p ps \/ d !! p = Some (_generate_param_description p fn) ->
  fold_left
    (fun d param =>
       if String.eqb param "self" then d
       else <[param := _generate_param_description param fn]> d) ps d !! p
  = Some (_generate_param_description p fn).
Proof.
  intros Hp. revert d. induction ps as [|q ps IH]; intros d H; simpl.
  - destruct H as [[] | H]. exact H.
  - apply IH. destruct H as [[-> | H] | H].
    + right. destruct (String.eqb_spec p "self"); [contradiction|].
      apply lookup_insert_eq.
    + now left.
    + right. destruct (String.eqb q "self"); [exact H|].
      destruct (decide (q = p)) as [-> | Hne].
      * apply lookup_insert_eq.
      * now rewrite lookup_insert_ne.
Qed.

Lemma describe_params_lookup (fn : string) (ps : list string) (p : string) :
  In p ps -> p <> "self" ->
  describe_params fn ps !! p = Some (_generate_param_description p fn).
Proof. intros Hin Hp. apply describe_params_fold; auto. Qed.

Lemma describe_params_no_self (fn : string) (ps : list string) :
  describe_params fn ps !! "self" = None.
Proof.
  unfold describe_params.
  assert (G : forall d : gmap string string, d !! "self" = None ->
     fold_left
       (fun d param =>
          if String.eqb param "self" then d
          else <[param := _generate_param_description param fn]> d) ps d !! "self" = None).
  { induction ps as [|q ps IH]; intros d H; simpl; [exact H|].
    apply IH. destruct (String.eqb_spec q "self"); [exact H|].
    now rewrite lookup_insert_ne. }
  apply G, lookup_empty.
Qed.

Lemma non_self_in (ps : list string) (p : string) :
  In p ps -> p <> "self" -> In p (non_self ps).
Proof.
  intros Hin Hp. unfold non_self. apply filter_In. split; [assumption|].
  destruct (String.eqb_spec p "self"); [contradiction | reflexivity].
Qed.

Lemma generate_examples_shape (fn : string) (ps : list string) (p : string) :
  In p (non_self ps) ->
  exists before after,
    _generate_examples fn ps
    = [">>> " +:+ fn +:+ "(" +:+ before +:+ example_value p +:+ after +:+ ")";
       "expected_result"].
Proof.
  intros Hin. unfold _generate_examples.
  destruct (in_split _ _ Hin) as (l1 & l2 & El).
  destruct (join_split ", " (map example_value l1) (example_value p) (map example_value l2))
    as (b & a & E).
  exists b, a.
  destruct (non_self ps) as [|q qs]; [destruct l1; discriminate|].
  rewrite El, map_app. simpl map. rewrite E. now rewrite !sapp_assoc.
Qed.

Lemma args_block_in (g : string -> string) (ps : list string) (p : string) :
  In p ps ->
  In (g p) (match ps with
            | [] => []
            | _ => ["Args:"] ++ map g ps ++ [""]
            end)%list.
Proof.
  intros Hin. destruct ps as [|q qs]; [destruct Hin|].
  change (In (g p) ("Args:" :: (map g (q :: qs) ++ [""]))%list).
  apply in_cons, in_or_app. left. now apply in_map.
Qed.

Lemma parameters_block_split (g : string -> list string) (ps : list string) (p : string) :
  In p ps ->
  exists before after : list string,
    (match ps with
     | [] => []
     | _ => ["Parameters"; "----------"] ++ flat_map g ps ++ [""]
     end = before ++ g p ++ after)%list.
Proof.
  intros Hin. destruct (in_split _ _ Hin) as (l1 & l2 & ->).
  destruct (l1 ++ p :: l2)%list eqn:E; [destruct l1; discriminate|].
  rewrite <- E. rewrite flat_map_app. simpl flat_map.
  exists (["Parameters"; "----------"] ++ flat_map g l1)%list, (flat_map g l2 ++ [""])%list.
  now rewrite <- !app_assoc.
Qed.

Lemma return_description_nonempty (func_name : string) (ann : option string) :
  _generate_return_description func_name ann <> "".
Proof.
  unfold _generate_return_description, return_from_name.
  destruct ann as [a|].
  - destruct (truthy a) eqn:Ha.
    + repeat match goal with
      | |- context [if ?b then _ else _] => destruct b
      end; try discriminate.
      destruct a; discriminate.
    + repeat match goal with
      | |- context [if ?b then _ else _] => destruct b
      end; discriminate.
  - repeat match goal with
    | |- context [if ?b then _ else _] => destruct b
    end; discriminate.
Qed.

Lemma truthy_nonempty (s : string) : s <> "" -> truthy s = true.
Proof. intros H. unfold truthy. destruct s; [contradiction | reflexivity]. Qed.

Lemma describe_params_is_some (fn : string) (ps : list string) (q : string) :
  is_Some (describe_params fn ps !! q) <-> In q ps /\ q <> "self".
Proof.
  split.
  - unfold describe_params.
    assert (G : forall d : gmap string string,
      is_Some (fold_left
                 (fun d param =>
                    if String.eqb param "self" then d
                    else <[param := _generate_param_description param fn]> d) ps d !! q) ->
      (In q ps /\ q <> "self") \/ is_Some (d !! q)).
    { induction ps as [|r ps IH]; intros d H; simpl in H; [now right|].
      destruct (IH _ H) as [[Hin Hq] | Hs].
      - left. split; [now right | exact Hq].
      - destruct (String.eqb_spec r "self") as [-> | Hr]; [now right|].
        destruct (decide (r = q)) as [-> | Hne].
        + left. split; [now left | exact Hr].
        + right. now rewrite lookup_insert_ne in Hs. }
    intros H. destruct (G _ H) as [H' | H']; [exact H'|].
    rewrite lookup_empty in H'. now destruct H'.
  - intros [Hin Hq]. rewrite describe_params_lookup by assumption. now eexists.
Qed.

Lemma lines_up_to_returns {A} (a d blk : list A) (x y z : A) (rest : list A) :
  (a ++ d ++ blk ++ [x; y; z] ++ rest = (a ++ d) ++ blk ++ x :: y :: z :: rest)%list.
Proof. now rewrite <- !app_assoc. Qed.

Lemma lines_up_to_returns_numpy {A} (a d blk : list A) (x y z v w : A) (rest : list A) :
  (a ++ d ++ blk ++ [x; y; z; v; w] ++ rest
   = (a ++ d) ++ blk ++ x :: y :: z :: v :: w :: rest)%list.
Proof. now rewrite <- !app_assoc. Qed.

Lemma block_in_context {A} (x y b m a z : list A) :
  (x ++ y ++ (b ++ m ++ a) ++ z = (x ++ y ++ b) ++ m ++ a ++ z)%list.
Proof. now rewrite <- !app_assoc. Qed.

(** C10.  The receiver is left out by comparison with the literal name
    [self] and nothing else, for every function record.  Every other
    parameter, wherever it stands -- so also a first parameter named [cls]
    or [this] -- gets an entry in [param_descriptions], a sample value in
    the example call, an [Args:] line in Google style and a [name : type]
    entry followed by its description in NumPy style; for [cls] and [this]
    the description is the generic one and the sample value is
    [cls_value], [this_value].  And [self] is left out of all four: the
    descriptions are those of the parameters other than [self]; the
    arguments of the example call, the lines of the [Args:] block and the
    entries of the [Parameters] block are, in order, those of the
    parameters that remain when every parameter named [self] is removed
    (no block at all when none remains), the blocks standing between the
    description and the returns section. *)
Theorem receiver_exclusion_is_self_only (f : FunctionInfo) :
  let out := _generate_with_mock f in
  let others := List.filter (fun q => negb (String.eqb q "self")) (params f) in
  let head :=
    ([triple_quote +:+ hd "" (split_char "010" (description out)); ""]
     ++ detailed_lines (description out))%list in
  (forall p,
     In p (params f) ->
     p <> "self" ->
     let desc := _generate_param_description p (name f) in
     param_descriptions out !! p = Some desc
     /\ (exists before after,
           examples out
           = [">>> " +:+ name f +:+ "(" +:+ before +:+ example_value p +:+ after +:+ ")";
              "expected_result"])
     /\ In ("    " +:+ p +:+ ": " +:+ desc) (google_lines f out)
     /\ (exists before after : list string,
           numpy_lines f out
           = (before ++ [p +:+ " : type"; "    " +:+ desc] ++ after)%list))
  /\ param_descriptions out !! "self" = None
  /\ (forall fn, _generate_param_description "cls" fn = "The cls parameter")
  /\ (forall fn, _generate_param_description "this" fn = "The this parameter")
  /\ example_value "cls" = "cls_value"
  /\ example_value "this" = "this_value"
  /\ (forall q, is_Some (param_descriptions out !! q) <-> In q (params f) /\ q <> "self")
  /\ examples out
     = [">>> " +:+ name f +:+ "(" +:+ join ", " (map example_value others) +:+ ")";
        match others with [] => "result" | _ => "expected_result" end]
  /\ (exists after,
        google_lines f out
        = (head
           ++ match others with
              | [] => []
              | _ =>
                  "Args:"
                  :: map (fun q => "    " +:+ q +:+ ": "
                                   +:+ _generate_param_description q (name f)) others
                  ++ [""]
              end
           ++ "Returns:" :: after)%list)
  /\ (exists after,
        numpy_lines f out
        = (head
           ++ match others with
              | [] => []
              | _ =>
                  "Parameters" :: "----------"
                  :: flat_map (fun q => [q +:+ " : type";
                                         "    " +:+ _generate_param_description q (name f)])
                       others
                  ++ [""]
              end
           ++ "Returns" :: after)%list).
Proof.
  intros out others head.
  assert (Eout : param_descriptions out = describe_params (name f) (params f))
    by reflexivity.
  assert (Hr : truthy (return_description out) = true)
    by apply truthy_nonempty, return_description_nonempty.
  assert (Hlook : forall q, In q others ->
            default ("The " +:+ q +:+ " parameter") (param_descriptions out !! q)
            = _generate_param_description q (name f)).
  { intros q Hq. apply filter_In in Hq as [Hq1 Hq2].
    rewrite Eout, describe_params_lookup; [reflexivity | assumption |].
    intros ->. discriminate Hq2. }
  split.
  { intros p Hin Hp desc.
    assert (Hd : param_descriptions out !! p = Some desc)
      by (rewrite Eout; apply describe_params_lookup; assumption).
    pose proof (non_self_in _ _ Hin Hp) as Hns.
    split; [exact Hd|].
    split; [apply generate_examples_shape, Hns|].
    split.
    - unfold google_lines.
      apply in_or_app; right. apply in_or_app; right. apply in_or_app; left.
      pose proof (args_block_in
        (fun param => "    " +:+ param +:+ ": " +:+
           default ("The " +:+ param +:+ " parameter") (param_descriptions out !! param))
        _ p Hns) as H.
      cbv beta in H. rewrite Hd in H. exact H.
    - unfold numpy_lines.
      destruct (parameters_block_split
        (fun param => [param +:+ " : type"; "    " +:+
           default ("The " +:+ param +:+ " parameter") (param_descriptions out !! param)])
        _ p Hns) as (b & a & E).
      cbv beta in E. rewrite Hd in E.
      rewrite E, block_in_context. eexists _, _. reflexivity. }
  split; [rewrite Eout; apply describe_params_no_self|].
  do 4 (split; [reflexivity|]).
  split; [intros q; rewrite Eout; apply describe_params_is_some|].
  split.
  { change (examples out) with (_generate_examples (name f) (params f)).
    unfold _generate_examples. change (non_self (params f)) with others.
    destruct others; reflexivity. }
  split.
  - unfold google_lines. change (non_self (params f)) with others.
    rewrite Hr, orb_true_r.
    rewrite (map_ext_in _ (fun q => "    " +:+ q +:+ ": "
                                    +:+ _generate_param_description q (name f)) others)
      by (intros q Hq; now rewrite (Hlook q Hq)).
    destruct others as [|o os]; eexists; apply lines_up_to_returns.
  - unfold numpy_lines. change (non_self (params f)) with others.
    rewrite Hr, orb_true_r.
    assert (Hflat : flat_map
              (fun param => [param +:+ " : type"; "    " +:+
                 default ("The " +:+ param +:+ " parameter")
                         (param_descriptions out !! param)]) others
            = flat_map (fun q => [q +:+ " : type";
                                  "    " +:+ _generate_param_description q (name f)])
                others).
    { clear - Hlook. induction others as [|o os IH]; [reflexivity|].
      cbn [flat_map]. rewrite (Hlook o (or_introl eq_refl)).
      rewrite IH; [reflexivity|]. intros q Hq. apply Hlook. now right. }
    rewrite Hflat.
    destruct others as [|o os]; eexists; apply lines_up_to_returns_numpy.
Qed.

Lemma receiver_exclusion_is_self_only_witness :
  param_descriptions (_generate_with_mock MoreSamples.bound_method) !! "this"
  = Some "The this parameter"
  /\ param_descriptions (_generate_with_mock MoreSamples.bound_method) !! "self" = None
  /\ examples (_generate_with_mock MoreSamples.bound_method)
     = [">>> scale(this_value, k_value)"; "expected_result"]
  /\ In "    this: The this parameter"
        (google_lines MoreSamples.bound_method
           (_generate_with_mock MoreSamples.bound_method))
  /\ ~ In "    self: The self parameter"
        (google_lines MoreSamples.bound_method
           (_generate_with_mock MoreSamples.bound_method)).
Proof.
  pose proof (receiver_exclusion_is_self_only MoreSamples.bound_method) as H.
  destruct H as (Hp & H2 & _ & _ & _ & _ & _ & H8 & _).
  destruct (Hp "this") as (H1 & _ & H4 & _).
  - right. left. reflexivity.
  - discriminate.
  - split; [exact H1|]. split; [exact H2|]. split; [exact H8|]. split; [exact H4|].
    vm_compute. intuition discriminate.
Defined.

(** ** Syntax errors *)

Section Extraction.

Variable ast_parse : string -> parse_outcome.

Lemma get_structure_invalid (code : string) (st : parser_state) (msg : option string) :
  validate_syntax ast_parse code st = ((false, msg), st) ->
  get_structure ast_parse code st
  = ({| functions := []; classes := []; module_docstring := None;
        total_lines := List.length (split_char "010" code);
        is_valid := false; error_message := msg |}, st).
Proof. intros H. unfold get_structure. now rewrite H. Qed.

(** C2, amended.  For every text that [ast.parse] does not turn into a
    tree, [get_structure] returns a structure with [is_valid = false], no
    functions, no classes and a message, and leaves the parser object as
    it was; the result is a value, not an exception.  When the
    [SyntaxError] carries the line number [n] the message is
    [Syntax error at line n: msg]: it is not empty and contains the line
    number.  When it carries none the message reads
    [Syntax error at line None: msg], and for any other exception the
    message is the text of the exception, whatever that is. *)
Theorem syntax_error_is_reported (code : string) (st : parser_state) :
  (forall t, ast_parse code <> Parsed t) ->
  exists cs text,
    get_structure ast_parse code st = (cs, st)
    /\ is_valid cs = false
    /\ functions cs = []
    /\ classes cs = []
    /\ error_message cs = Some text
    /\ match ast_parse code with
       | RaisesSyntaxError (Some n) msg =>
           text = "Syntax error at line " +:+ str_of_Z n +:+ ": " +:+ msg
           /\ text <> ""
           /\ contains (str_of_Z n) text = true
       | RaisesSyntaxError None msg =>
           text = "Syntax error at line None: " +:+ msg /\ text <> ""
       | RaisesOther shown => text = shown
       | Parsed _ => False
       end.
Proof.
  intros H.
  destruct (ast_parse code) as [t | [n|] msg | shown] eqn:E.
  - now destruct (H t).
  - eexists _, _. split.
    + apply get_structure_invalid. unfold validate_syntax. rewrite E. reflexivity.
    + simpl. repeat (split; [reflexivity|]).
      split; [discriminate | apply contains_middle].
  - eexists _, _. split.
    + apply get_structure_invalid. unfold validate_syntax. rewrite E. reflexivity.
    + simpl. repeat (split; [reflexivity|]). discriminate.
  - eexists _, _. split.
    + apply get_structure_invalid. unfold validate_syntax. rewrite E. reflexivity.
    + simpl. repeat (split; [reflexivity|]). reflexivity.
Qed.

End Extraction.

Lemma syntax_error_is_reported_witness :
  exists cs text,
    get_structure toy_parse "def f(:" init = (cs, init)
    /\ is_valid cs = false
    /\ functions cs = []
    /\ classes cs = []
    /\ error_message cs = Some text
    /\ (text = "Syntax error at line " +:+ str_of_Z 1 +:+ ": " +:+ "invalid syntax"
        /\ text <> ""
        /\ contains (str_of_Z 1) text = true).
Proof.
  apply (syntax_error_is_reported toy_parse "def f(:" init).
  intros t H. discriminate H.
Defined.

Lemma list_ascii_app (s t : string) :
  list_ascii_of_string (s +:+ t) = (list_ascii_of_string s ++ list_ascii_of_string t)%list.
Proof.
  induction s as [|c s IH]; [reflexivity|].
  change (String c s +:+ t) with (String c (s +:+ t)). simpl. now rewrite IH.
Qed.

Lemma string_of_uint_first_digit (d : Decimal.uint) :
  d <> Decimal.Nil ->
  exists c rest, NilEmpty.string_of_uint d = String c rest /\ is_digit c = true.
Proof.
  destruct d; intros H; [contradiction|..]; eexists _, _; split; reflexivity.
Qed.

Lemma str_of_Z_has_digit (n : Z) :
  existsb is_digit (list_ascii_of_string (str_of_Z n)) = true.
Proof.
  unfold str_of_Z. destruct n as [|p|p]; [reflexivity|..];
    destruct (string_of_uint_first_digit (Pos.to_uint p) (Unsigned.to_uint_nonnil p))
      as (c & r & E & D); simpl; rewrite E; simpl; rewrite D; reflexivity.
Qed.

(** A text without a digit holds no number. *)
Lemma no_digit_no_number (text : string) :
  forallb (fun c => negb (is_digit c)) (list_ascii_of_string text) = true ->
  forall n : Z, contains (str_of_Z n) text = false.
Proof.
  intros Hnone n. destruct (contains (str_of_Z n) text) eqn:E; [|reflexivity].
  destruct (contains_split _ _ E) as (u & v & ->).
  rewrite !list_ascii_app, !forallb_app in Hnone.
  apply andb_true_iff in Hnone as [_ Hnone].
  apply andb_true_iff in Hnone as [Hnone _].
  pose proof (str_of_Z_has_digit n) as Hd.
  apply existsb_exists in Hd as (c & Hc & Hd).
  rewrite forallb_forall in Hnone. specialize (Hnone c Hc).
  rewrite Hd in Hnone. discriminate.
Qed.

(** C2 does not hold for every invalid text: a text with a null byte is
    rejected before any line is read, as a [SyntaxError] without line
    number or as a [ValueError], and the message reported for it contains
    no number at all. *)
Lemma syntax_error_without_line_counterexample :
  (forall t, MoreSamples.null_byte_parse true MoreSamples.null_byte_text <> Parsed t)
  /\ (forall t, MoreSamples.null_byte_parse false MoreSamples.null_byte_text <> Parsed t)
  /\ (exists cs,
        get_structure (MoreSamples.null_byte_parse true) MoreSamples.null_byte_text init
        = (cs, init)
        /\ is_valid cs = false
        /\ error_message cs
           = Some "Syntax error at line None: source code string cannot contain null bytes"
        /\ forall n : Z,
             contains (str_of_Z n)
               "Syntax error at line None: source code string cannot contain null bytes"
             = false)
  /\ (exists cs,
        get_structure (MoreSamples.null_byte_parse false) MoreSamples.null_byte_text init
        = (cs, init)
        /\ is_valid cs = false
        /\ error_message cs = Some "source code string cannot contain null bytes"
        /\ forall n : Z,
             contains (str_of_Z n) "source code string cannot contain null bytes" = false).
Proof.
  split; [intros t H; discriminate H|].
  split; [intros t H; discriminate H|].
  split; (eexists; split; [reflexivity|]; split; [reflexivity|];
          split; [reflexivity|]; apply no_digit_no_number; reflexivity).
Qed.

(** ** The worked example *)

(** C3 does not hold as the layout is listed: the line after the first
    blank is the elaboration paragraph, not [Args:], and a blank line
    stands between the [Examples:] block and the closing marker. *)
Lemma calculate_total_price_layout_counterexample :
  let out := _generate_with_mock price_function in
  google_lines price_function out
  <> [ triple_quote +:+ "Calculates total price.";
       "";
       "Args:";
       "    items: Collection of items to process";
       "    tax_rate: The tax_rate parameter";
       "";
       "Returns:";
       "    The calculated numerical result";
       "";
       "Examples:";
       "    >>> calculate_total_price([1, 2, 3], tax_rate_value)";
       "    expected_result";
       triple_quote ]
  /\ nth 2 (google_lines price_function out) ""
     = "This function performs calculate operations on total price. It is designed to handle various input scenarios and provide reliable results."
  /\ nth 14 (google_lines price_function out) "" = ""
  /\ List.length (google_lines price_function out) = 16%nat.
Proof. vm_compute. repeat split; discriminate. Qed.

(** C3, amended.  For the record [calculate_total_price] with parameters
    [items] and [tax_rate] and no return annotation (whatever its
    docstring, line span and body), local synthesis takes the action from
    the token [calculate], which the verb table renders [Calculates]; it
    gives [tax_rate] the generic description and infers the return
    description from the [calculate_] prefix.  The Google rendering is,
    in this order: the brief line, a blank, the elaboration paragraph, a
    blank, the [Args:] block with both parameters, a blank, the [Returns:]
    block, a blank, the [Examples:] block, a blank, the closing marker. *)
Theorem calculate_total_price_example
    (doc : option string) (first last : Z) (text : string) :
  let f := {| name := "calculate_total_price"; params := ["items"; "tax_rate"];
              return_annotation := None; docstring := doc;
              line_start := first; line_end := last; body := text |} in
  let out := _generate_with_mock f in
  hd_error (_split_function_name (name f)) = Some "calculate"
  /\ action_templates !! "calculate" = Some "Calculates"
  /\ description out
     = "Calculates total price." +:+ nl +:+ nl +:+
       "This function performs calculate operations on total price. It is designed to handle various input scenarios and provide reliable results."
  /\ param_descriptions out !! "tax_rate" = Some "The tax_rate parameter"
  /\ return_description out = "The calculated numerical result"
  /\ google_lines f out
     = [ triple_quote +:+ "Calculates total price.";
         "";
         "This function performs calculate operations on total price. It is designed to handle various input scenarios and provide reliable results.";
         "";
         "Args:";
         "    items: Collection of items to process";
         "    tax_rate: The tax_rate parameter";
         "";
         "Returns:";
         "    The calculated numerical result";
         "";
         "Examples:";
         "    >>> calculate_total_price([1, 2, 3], tax_rate_value)";
         "    expected_result";
         "";
         triple_quote ]
  /\ _format_google_style f out = join nl (google_lines f out).
Proof. intros f out. repeat split; vm_compute; reflexivity. Qed.

(** ** Name decomposition *)

Lemma lower_tokens (l : list string) : Forall (fun t => lower t = t) (map lower l).
Proof.
  induction l as [|t l IH]; simpl; constructor; [apply lower_idemp | exact IH].
Qed.

(** C5.  [HTTPServer] and [camelCase] decompose as claimed, and a name
    without underscore always yields lower-case tokens; but a name with an
    underscore is split at the underscores and left in the case it has:
    [Get_User] yields [Get] and [User]. *)
Theorem split_function_name_underscore_keeps_case :
  _split_function_name "Get_User" = ["Get"; "User"]
  /\ _split_function_name "HTTPServer" = ["http"; "server"]
  /\ _split_function_name "camelCase" = ["camel"; "case"]
  /\ (forall nm,
        if contains "_" nm
        then _split_function_name nm = split_char "_" nm
        else Forall (fun t => lower t = t) (_split_function_name nm)).
Proof.
  repeat split; try reflexivity.
  intros nm. unfold _split_function_name.
  destruct (contains "_" nm); [reflexivity | apply lower_tokens].
Qed.

(** ** Rounding *)

Local Open Scope Q_scope.

(** Closed facts about floats are settled by evaluation. *)
Ltac by_evaluation := vm_compute; first [reflexivity | discriminate].

Create HintDb floats.

Lemma rne_floor_bounds (x : Q) : (Qfloor x <= rne x <= Qfloor x + 1)%Z.
Proof.
  unfold rne. destruct (Qcompare _ _); [destruct (Z.even _)|..]; lia.
Qed.

Lemma rne_Z (z : Z) : rne (inject_Z z) = z.
Proof.
  unfold rne. rewrite Qfloor_Z.
  assert (H : Qcompare (inject_Z z - inject_Z z) (1 # 2) = Lt).
  { rewrite <- Qlt_alt. ring_simplify. reflexivity. }
  now rewrite H.
Qed.

Lemma rne_mono (x y : Q) : x <= y -> (rne x <= rne y)%Z.
Proof.
  intros Hxy.
  pose proof (Qfloor_resp_le _ _ Hxy) as Hf.
  destruct (Z.eq_dec (Qfloor x) (Qfloor y)) as [E | NE].
  - unfold rne. rewrite <- E.
    destruct (Qcompare (x - inject_Z (Qfloor x)) (1 # 2)) eqn:Cx;
    destruct (Qcompare (y - inject_Z (Qfloor x)) (1 # 2)) eqn:Cy;
    try (destruct (Z.even (Qfloor x))); try lia;
    try rewrite <- Qeq_alt in *; try rewrite <- Qlt_alt in *; try rewrite <- Qgt_alt in *;
    exfalso; lra.
  - pose proof (rne_floor_bounds x). pose proof (rne_floor_bounds y). lia.
Qed.

Lemma pow2_pos (e : Z) : 0 < pow2 e.
Proof. apply Qpower_0_lt. reflexivity. Qed.

Lemma pow2_add (a b : Z) : pow2 (a + b) == pow2 a * pow2 b.
Proof. apply Qpower_plus. discriminate. Qed.

Lemma pow2_sub (a b : Z) : pow2 (a - b) == pow2 a / pow2 b.
Proof. unfold pow2. apply Qpower_minus. discriminate. Qed.

Lemma pow2_le (a b : Z) : (a <= b)%Z -> pow2 a <= pow2 b.
Proof. intros H. apply Qpower_le_compat_l; [exact H | discriminate]. Qed.

Lemma pow2_lt (a b : Z) : (a < b)%Z -> pow2 a < pow2 b.
Proof. intros H. apply Qpower_lt_compat_l; [exact H | reflexivity]. Qed.

Lemma pow2_Z (a : Z) : (0 <= a)%Z -> pow2 a == inject_Z (2 ^ a).
Proof. intros H. unfold pow2. now rewrite Zpower_Qpower. Qed.

Lemma pow2_S (a : Z) : pow2 (a + 1) == 2 * pow2 a.
Proof. rewrite pow2_add. unfold pow2 at 2. simpl. ring. Qed.

(** Bracketing of a positive fraction by the binary logarithms of its
    numerator and denominator. *)
Lemma log2_bracket (n : Z) (d : positive) :
  (0 < n)%Z ->
  let g := (Z.log2 n - Z.log2 (Zpos d))%Z in
  pow2 (g - 1) <= n # d /\ n # d < pow2 (g + 1).
Proof.
  intros Hn g.
  destruct (Z.log2_spec n Hn) as [Ha1 Ha2].
  destruct (Z.log2_spec (Zpos d) (Pos2Z.is_pos d)) as [Hb1 Hb2].
  pose proof (Z.log2_nonneg n) as Ha0.
  pose proof (Z.log2_nonneg (Zpos d)) as Hb0.
  set (a := Z.log2 n) in *. set (b := Z.log2 (Zpos d)) in *.
  assert (HA : (0 < 2 ^ a)%Z) by (apply Z.pow_pos_nonneg; lia).
  assert (HB : (0 < 2 ^ b)%Z) by (apply Z.pow_pos_nonneg; lia).
  rewrite !Z.pow_succ_r in * by lia.
  split.
  - replace (g - 1)%Z with (a - (b + 1))%Z by (unfold g; lia).
    rewrite pow2_sub, pow2_S, !pow2_Z by lia.
    apply Qle_shift_div_r.
    + apply Qmult_lt_0_compat; [reflexivity|]. rewrite <- (pow2_Z b) by lia. apply pow2_pos.
    + unfold Qle, Qmult, inject_Z; simpl. nia.
  - replace (g + 1)%Z with ((a + 1) - b)%Z by (unfold g; lia).
    rewrite pow2_sub, pow2_S, !pow2_Z by lia.
    apply Qlt_shift_div_l.
    + rewrite <- (pow2_Z b) by lia. apply pow2_pos.
    + unfold Qlt, Qmult, inject_Z; simpl. nia.
Qed.

Lemma fexp_spec (q : Q) :
  0 < q -> pow2 (fexp q + 52) <= q /\ q < pow2 (fexp q + 53).
Proof.
  intros Hq. destruct q as [n d].
  assert (Hn : (0 < n)%Z) by (unfold Qlt in Hq; simpl in Hq; lia).
  destruct (log2_bracket n d Hn) as [Hlo Hhi].
  unfold fexp; simpl Qnum; simpl Qden.
  set (g := (Z.log2 n - Z.log2 (Zpos d))%Z) in *.
  destruct (Qle_bool (pow2 g) (n # d)) eqn:E.
  - apply Qle_bool_iff in E.
    replace (g - 52 + 52)%Z with g by lia.
    replace (g - 52 + 53)%Z with (g + 1)%Z by lia. now split.
  - assert (Hlt : n # d < pow2 g).
    { apply Qnot_le_lt. intros H. apply Qle_bool_iff in H. congruence. }
    replace (g - 53 + 52)%Z with (g - 1)%Z by lia.
    replace (g - 53 + 53)%Z with g by lia. now split.
Qed.

Lemma scaled_bounds (q : Q) :
  0 < q -> pow2 52 <= q / pow2 (fexp q) /\ q / pow2 (fexp q) < pow2 53.
Proof.
  intros Hq. destruct (fexp_spec q Hq) as [Hlo Hhi].
  rewrite pow2_add in Hlo, Hhi. rewrite Qmult_comm in Hlo, Hhi.
  pose proof (pow2_pos (fexp q)) as Hp.
  split.
  - apply Qle_shift_div_l; [exact Hp | exact Hlo].
  - apply Qlt_shift_div_r; [exact Hp | exact Hhi].
Qed.

Lemma rne_scaled_bounds (q : Q) :
  0 < q -> (2 ^ 52 <= rne (q / pow2 (fexp q)) <= 2 ^ 53)%Z.
Proof.
  intros Hq. destruct (scaled_bounds q Hq) as [Hlo Hhi].
  rewrite (pow2_Z 52) in Hlo by lia. rewrite (pow2_Z 53) in Hhi by lia.
  split.
  - rewrite <- (rne_Z (2 ^ 52)). now apply rne_mono.
  - rewrite <- (rne_Z (2 ^ 53)). apply rne_mono. now apply Qlt_le_weak.
Qed.

Lemma round_pos_bounds (q : Q) :
  0 < q ->
  pow2 (fexp q + 52) <= round_pos q /\ round_pos q <= pow2 (fexp q + 53).
Proof.
  intros Hq. destruct (rne_scaled_bounds q Hq) as [Hlo Hhi].
  pose proof (pow2_pos (fexp q)) as Hp.
  unfold round_pos. rewrite !pow2_add, (pow2_Z 52), (pow2_Z 53) by lia.
  split.
  - rewrite (Qmult_comm (pow2 (fexp q))). apply Qmult_le_compat_r.
    + now rewrite <- Zle_Qle.
    + now apply Qlt_le_weak.
  - rewrite (Qmult_comm (pow2 (fexp q))). apply Qmult_le_compat_r.
    + now rewrite <- Zle_Qle.
    + now apply Qlt_le_weak.
Qed.

Lemma fexp_mono (q1 q2 : Q) : 0 < q1 -> q1 <= q2 -> (fexp q1 <= fexp q2)%Z.
Proof.
  intros H1 H12.
  assert (H2 : 0 < q2) by (eapply Qlt_le_trans; eauto).
  destruct (fexp_spec q1 H1) as [Hlo1 _].
  destruct (fexp_spec q2 H2) as [_ Hhi2].
  destruct (Z_le_gt_dec (fexp q1) (fexp q2)) as [|Hgt]; [assumption|].
  exfalso.
  assert (Hp : pow2 (fexp q2 + 53) <= pow2 (fexp q1 + 52)) by (apply pow2_le; lia).
  apply (Qlt_irrefl q2).
  eapply Qlt_le_trans; [exact Hhi2|].
  eapply Qle_trans; [exact Hp|]. eapply Qle_trans; eauto.
Qed.

Lemma round_pos_mono (q1 q2 : Q) :
  0 < q1 -> q1 <= q2 -> round_pos q1 <= round_pos q2.
Proof.
  intros H1 H12.
  assert (H2 : 0 < q2) by (eapply Qlt_le_trans; eauto).
  pose proof (fexp_mono q1 q2 H1 H12) as He.
  destruct (Z.eq_dec (fexp q1) (fexp q2)) as [E | NE].
  - unfold round_pos. rewrite E.
    apply Qmult_le_compat_r; [|apply Qlt_le_weak, pow2_pos].
    rewrite <- Zle_Qle. apply rne_mono.
    apply Qmult_le_compat_r; [assumption|].
    apply Qlt_le_weak, Qinv_lt_0_compat, pow2_pos.
  - destruct (round_pos_bounds q1 H1) as [_ Hup].
    destruct (round_pos_bounds q2 H2) as [Hlo _].
    eapply Qle_trans; [exact Hup|]. eapply Qle_trans; [|exact Hlo].
    apply pow2_le. lia.
Qed.

Lemma round_pos_gt0 (q : Q) : 0 < q -> 0 < round_pos q.
Proof.
  intros Hq. destruct (round_pos_bounds q Hq) as [Hlo _].
  eapply Qlt_le_trans; [apply pow2_pos | exact Hlo].
Qed.

Lemma b64_proper (q q' : Q) : q == q' -> b64 q = b64 q'.
Proof. intros H. unfold b64. now rewrite (Qred_complete _ _ H). Qed.

Lemma b64_of_pos (q : Q) : 0 < q -> b64 q = round_pos (Qred q).
Proof.
  intros Hq. unfold b64.
  assert (H : Qcompare (Qred q) 0 = Gt).
  { rewrite <- Qgt_alt. now rewrite Qred_correct. }
  now rewrite H.
Qed.

Lemma b64_of_neg (q : Q) : q < 0 -> b64 q = - round_pos (- Qred q).
Proof.
  intros Hq. unfold b64.
  assert (H : Qcompare (Qred q) 0 = Lt).
  { rewrite <- Qlt_alt. now rewrite Qred_correct. }
  now rewrite H.
Qed.

Lemma b64_of_zero (q : Q) : q == 0 -> b64 q = 0.
Proof. intros Hq. now rewrite (b64_proper _ _ Hq). Qed.

Lemma b64_gt0 (q : Q) : 0 < q -> 0 < b64 q.
Proof.
  intros Hq. rewrite b64_of_pos by assumption.
  apply round_pos_gt0. now rewrite Qred_correct.
Qed.

Lemma b64_lt0 (q : Q) : q < 0 -> b64 q < 0.
Proof.
  intros Hq. rewrite b64_of_neg by assumption.
  assert (H : 0 < round_pos (- Qred q)).
  { apply round_pos_gt0. rewrite Qred_correct. lra. }
  lra.
Qed.

Lemma b64_ge0 (q : Q) : 0 <= q -> 0 <= b64 q.
Proof.
  intros Hq. destruct (Qlt_le_dec 0 q) as [H | H].
  - apply Qlt_le_weak, b64_gt0, H.
  - rewrite b64_of_zero; [apply Qle_refl | lra].
Qed.

Lemma b64_mono (q1 q2 : Q) : q1 <= q2 -> b64 q1 <= b64 q2.
Proof.
  intros H12.
  destruct (Q_dec q1 0) as [[N1 | P1] | Z1].
  - destruct (Q_dec q2 0) as [[N2 | P2] | Z2].
    + rewrite !b64_of_neg by assumption.
      apply Qopp_le_compat.
      apply round_pos_mono; rewrite !Qred_correct; lra.
    + pose proof (b64_lt0 _ N1). pose proof (b64_gt0 _ P2). lra.
    + pose proof (b64_lt0 _ N1). rewrite (b64_of_zero q2) by assumption. lra.
  - assert (P2 : 0 < q2) by lra.
    rewrite !b64_of_pos by assumption.
    apply round_pos_mono; rewrite !Qred_correct; assumption.
  - rewrite (b64_of_zero q1) by assumption. apply b64_ge0. lra.
Qed.

Lemma b64_nonzero (q : Q) : ~ q == 0 -> ~ b64 q == 0.
Proof.
  intros Hq. destruct (Q_dec q 0) as [[N | P] | Z]; [| |contradiction].
  - pose proof (b64_lt0 _ N). lra.
  - pose proof (b64_gt0 _ P). lra.
Qed.

(** ** Float operations *)

Lemma b64_1 : b64 1 == 1.
Proof. by_evaluation. Qed.

Lemma b64_100 : b64 100 == 100.
Proof. by_evaluation. Qed.

Lemma b64_le (q c : Q) : q <= c -> b64 c == c -> b64 q <= c.
Proof. intros H E. rewrite <- E. now apply b64_mono. Qed.

Lemma fmul_mono (x y c : Q) : 0 <= c -> x <= y -> fmul x c <= fmul y c.
Proof. intros Hc H. apply b64_mono. now apply Qmult_le_compat_r. Qed.

Lemma fadd_mono (x x' y y' : Q) : x <= x' -> y <= y' -> fadd x y <= fadd x' y'.
Proof. intros Hx Hy. apply b64_mono. now apply Qplus_le_compat. Qed.

Lemma fmul_ge0 (x c : Q) : 0 <= x -> 0 <= c -> 0 <= fmul x c.
Proof. intros Hx Hc. apply b64_ge0. now apply Qmult_le_0_compat. Qed.

Lemma fadd_ge0 (x y : Q) : 0 <= x -> 0 <= y -> 0 <= fadd x y.
Proof. intros Hx Hy. apply b64_ge0. lra. Qed.

#[local] Hint Resolve b64_mono b64_ge0 fmul_mono fadd_mono fmul_ge0 fadd_ge0 : floats.

Lemma round2_mono (x y : Q) : x <= y -> round2 x <= round2 y.
Proof.
  intros H. apply b64_mono.
  apply Qmult_le_compat_r; [|discriminate].
  rewrite <- Zle_Qle. apply rne_mono.
  apply Qmult_le_compat_r; [assumption | discriminate].
Qed.

Lemma round2_ge0 (x : Q) : 0 <= x -> 0 <= round2 x.
Proof.
  intros H. apply (round2_mono 0 x) in H.
  eapply Qle_trans; [|exact H]. by_evaluation.
Qed.

Lemma round2_le100 (x : Q) : x <= 100 -> round2 x <= 100.
Proof.
  intros H. apply (round2_mono x 100) in H.
  eapply Qle_trans; [exact H|]. by_evaluation.
Qed.

Lemma round2_proper (x y : Q) : x == y -> round2 x = round2 y.
Proof.
  intros H. unfold round2. apply b64_proper.
  assert (E : rne (x * 100) = rne (y * 100)).
  { apply Z.le_antisymm; apply rne_mono; rewrite H; apply Qle_refl. }
  now rewrite E.
Qed.

Lemma int_truediv_ok (a b : Z) :
  b <> 0%Z -> int_truediv a b = Ok (b64 (inject_Z a / inject_Z b)).
Proof.
  intros Hb. unfold int_truediv, fdiv.
  destruct (Qeq_bool (inject_Z b) 0) eqn:E; [|reflexivity].
  apply Qeq_bool_iff in E. unfold Qeq in E. simpl in E. lia.
Qed.

Lemma fraction_range_nonneg (i u : Z) :
  (0 <= i)%Z -> (0 < u)%Z -> 0 <= b64 (inject_Z i / inject_Z u).
Proof.
  intros Hi Hu.
  assert (Hu' : inject_Z 0 < inject_Z u) by (now rewrite <- Zlt_Qlt).
  change (inject_Z 0) with 0 in Hu'.
  apply b64_ge0. apply Qle_shift_div_l; [assumption|].
  rewrite Qmult_0_l. change (inject_Z 0 <= inject_Z i). rewrite <- Zle_Qle. lia.
Qed.

(** The quotient of two counts, the first at most the second. *)
Lemma fraction_range (i u : Z) :
  (0 <= i <= u)%Z -> (0 < u)%Z -> 0 <= b64 (inject_Z i / inject_Z u) <= 1.
Proof.
  intros Hi Hu.
  assert (Hu' : inject_Z 0 < inject_Z u) by (now rewrite <- Zlt_Qlt).
  change (inject_Z 0) with 0 in Hu'.
  split.
  - apply b64_ge0. apply Qle_shift_div_l; [assumption|].
    rewrite Qmult_0_l. change (inject_Z 0 <= inject_Z i). rewrite <- Zle_Qle. lia.
  - apply b64_le; [|apply b64_1].
    apply Qle_shift_div_r; [assumption|].
    rewrite Qmult_1_l. rewrite <- Zle_Qle. lia.
Qed.

Lemma fraction_mono (i j u : Z) :
  (i <= j)%Z -> (0 < u)%Z ->
  b64 (inject_Z i / inject_Z u) <= b64 (inject_Z j / inject_Z u).
Proof.
  intros Hij Hu. apply b64_mono.
  apply Qmult_le_compat_r.
  - now rewrite <- Zle_Qle.
  - apply Qlt_le_weak, Qinv_lt_0_compat.
    change (inject_Z 0 < inject_Z u). now rewrite <- Zlt_Qlt.
Qed.

(** [round(x * 100, 2)] for a fraction [x] of the unit interval. *)
Lemma percent_range (x : Q) :
  0 <= x <= 1 -> 0 <= round2 (fmul x 100) <= 100.
Proof.
  intros [H0 H1]. split.
  - apply round2_ge0, fmul_ge0; [assumption | discriminate].
  - apply round2_le100. apply b64_le; [|apply b64_100]. lra.
Qed.

Lemma percent_mono (x y : Q) :
  x <= y -> round2 (fmul x 100) <= round2 (fmul y 100).
Proof. intros H. apply round2_mono, fmul_mono; [discriminate | assumption]. Qed.

Lemma percent_full : round2 (fmul (b64 1) 100) == 100.
Proof. by_evaluation. Qed.

Lemma rne_near (x : Q) : Qabs (inject_Z (rne x) - x) <= 1 # 2.
Proof.
  pose proof (Qfloor_le x) as Hlo. pose proof (Qlt_floor x) as Hhi.
  rewrite inject_Z_plus in Hhi. change (inject_Z 1) with 1 in Hhi.
  apply Qabs_Qle_condition. unfold rne.
  destruct (Qcompare (x - inject_Z (Qfloor x)) (1 # 2)) eqn:C.
  - rewrite <- Qeq_alt in C.
    destruct (Z.even (Qfloor x)); rewrite ?inject_Z_plus;
      change (inject_Z 1) with 1; split; lra.
  - rewrite <- Qlt_alt in C. split; lra.
  - rewrite <- Qgt_alt in C. rewrite inject_Z_plus.
    change (inject_Z 1) with 1. split; lra.
Qed.

(** ** The clamped length term *)

Lemma length_denominator_mono (L L' : Q) :
  L <= L' -> fsub L 1 + lit (1 # 10) <= fsub L' 1 + lit (1 # 10).
Proof.
  intros H. apply Qplus_le_compat; [|apply Qle_refl].
  apply b64_mono. lra.
Qed.

Lemma hundredths_mono (j k : Z) :
  (j <= k)%Z -> b64 (inject_Z j / 100) <= b64 (inject_Z k / 100).
Proof.
  intros H. apply b64_mono. apply Qmult_le_compat_r; [|discriminate].
  now rewrite <- Zle_Qle.
Qed.

(** The denominator [length_ratio - 1.0 + 0.1] is never zero on a ratio
    that has two decimals: below 0.90 it is negative, above it is
    positive, and at 0.90 itself the two roundings leave [2^-55]. *)
Lemma length_denominator_nonzero (k : Z) :
  ~ length_denominator (b64 (inject_Z k / 100)) == 0.
Proof.
  unfold length_denominator, fadd. apply b64_nonzero.
  destruct (Z_le_gt_dec k 89%Z) as [Hlo | Hhi].
  - pose proof (length_denominator_mono _ _ (hundredths_mono k 89 Hlo)) as H.
    assert (C : fsub (b64 (inject_Z 89 / 100)) 1 + lit (1 # 10) < 0)
      by by_evaluation.
    lra.
  - destruct (Z.eq_dec k 90%Z) as [-> | Hne].
    + by_evaluation.
    + assert (H91 : (91 <= k)%Z) by lia.
      pose proof (length_denominator_mono _ _ (hundredths_mono 91 k H91)) as H.
      assert (C : 0 < fsub (b64 (inject_Z 91 / 100)) 1 + lit (1 # 10))
        by by_evaluation.
      lra.
Qed.

Lemma pymin_range (x : Q) : 0 <= x -> 0 <= pymin 100 x <= 100.
Proof.
  intros Hx. unfold pymin. destruct (Qlt_le_dec x 100); split; lra.
Qed.

Lemma length_term_proper (L L' : Q) : L == L' -> length_term L = length_term L'.
Proof.
  intros H. unfold length_term, length_denominator, fsub.
  assert (E : b64 (L - 1) = b64 (L' - 1)) by (apply b64_proper; now rewrite H).
  now rewrite E.
Qed.

Lemma length_term_hundredths (k : Z) :
  exists t, length_term (b64 (inject_Z k / 100)) = Ok t /\ 0 <= t <= 100.
Proof.
  pose proof (length_denominator_nonzero k) as Hd.
  unfold length_term, fdiv.
  set (d := length_denominator (b64 (inject_Z k / 100))) in *.
  assert (Hpos : 0 < Qabs d).
  { destruct (Qlt_le_dec 0 (Qabs d)) as [|Hle]; [assumption|].
    exfalso. apply Hd.
    pose proof (Qabs_nonneg d) as Hn.
    assert (E : Qabs d == 0) by lra.
    pose proof (Qle_Qabs d). pose proof (Qle_Qabs (- d)) as Hm.
    rewrite Qabs_opp in Hm. lra. }
  destruct (Qeq_bool (Qabs d) 0) eqn:E.
  - apply Qeq_bool_iff in E. lra.
  - simpl. eexists; split; [reflexivity|].
    apply pymin_range. apply fmul_ge0; [|discriminate].
    apply b64_ge0. apply Qle_shift_div_l; [assumption|]. lra.
Qed.

(** A length ratio is always the float of some count of hundredths. *)
Lemma calculate_length_ratio_hundredths (ai_docs human_docs : string) :
  exists L k, calculate_length_ratio ai_docs human_docs = Ok L
              /\ (0 <= k)%Z /\ L == b64 (inject_Z k / 100).
Proof.
  unfold calculate_length_ratio.
  destruct (List.length (split_ws human_docs) =? 0)%nat eqn:E.
  - exists 1, 100%Z. split; [reflexivity|]. split; [lia|]. vm_compute. reflexivity.
  - apply Nat.eqb_neq in E.
    rewrite int_truediv_ok by lia. simpl.
    eexists _, _. split; [reflexivity|]. split; [|reflexivity].
    rewrite <- (rne_Z 0). apply rne_mono.
    apply Qmult_le_0_compat; [|discriminate].
    apply fraction_range_nonneg; lia.
Qed.

(** ** Ranges of the four metrics *)

Lemma percent_of_counts (i u : nat) :
  (i <= u)%nat -> (0 < u)%nat ->
  exists s, (let* x := int_truediv (Z.of_nat i) (Z.of_nat u) in
             Ok (round2 (fmul x 100))) = Ok s
            /\ 0 <= s <= 100.
Proof.
  intros Hi Hu. rewrite int_truediv_ok by lia. simpl.
  eexists; split; [reflexivity|].
  apply percent_range, fraction_range; lia.
Qed.

Lemma calculate_keyword_overlap_range (ai_docs human_docs : string) :
  exists s, calculate_keyword_overlap ai_docs human_docs = Ok s /\ 0 <= s <= 100.
Proof.
  unfold calculate_keyword_overlap.
  set (A := _extract_keywords ai_docs). set (B := _extract_keywords human_docs).
  destruct (bool_decide (A = ∅)) eqn:EA; simpl.
  { exists 0. split; [reflexivity | split; discriminate]. }
  destruct (bool_decide (B = ∅)) eqn:EB; simpl.
  { exists 0. split; [reflexivity | split; discriminate]. }
  apply bool_decide_eq_false in EA.
  apply percent_of_counts.
  - apply subseteq_size. transitivity A.
    + apply intersection_subseteq_l.
    + apply union_subseteq_l.
  - assert (Hn : size A <> 0%nat).
    { intros Hz. apply EA, leibniz_equiv. now apply size_empty_inv. }
    pose proof (subseteq_size A (A ∪ B) (union_subseteq_l A B)) as Hsub.
    lia.
Qed.

Lemma documented_le (docs : string) (names : list string) :
  (documented docs names <= List.length names)%nat.
Proof. unfold documented. apply filter_length_le. Qed.

Lemma calculate_coverage_range (docs : string) (cs : CodeStructure) :
  exists s, calculate_coverage docs cs = Ok s /\ 0 <= s <= 100.
Proof.
  unfold calculate_coverage.
  destruct (_ =? 0)%nat eqn:E.
  { exists 100. split; [reflexivity | split; discriminate]. }
  apply Nat.eqb_neq in E.
  apply percent_of_counts; [|lia].
  pose proof (documented_le docs (map name (functions cs))).
  pose proof (documented_le docs (map cls_name (classes cs))).
  rewrite !length_map in *. lia.
Qed.

(** The fifth check passes whether or not a parameter line is found. *)
Lemma consistency_checks_shape (docs : string) :
  exists a b c d, consistency_checks docs = [a; b; c; d; true].
Proof.
  unfold consistency_checks. do 4 eexists. repeat f_equal.
  destruct (param_findall true 0 docs); reflexivity.
Qed.

Lemma calculate_consistency_range (docs : string) :
  exists s, calculate_consistency docs = Ok s /\ 20 <= s <= 100.
Proof.
  unfold calculate_consistency.
  destruct (consistency_checks_shape docs) as (a & b & c & d & ->).
  destruct a, b, c, d; vm_compute; eexists; (split; [reflexivity|]);
    split; discriminate.
Qed.

(** ** The overall score *)

Lemma weighted_sum_range (k c t s : Q) :
  0 <= k <= 100 -> 0 <= c <= 100 -> 0 <= t <= 100 -> 0 <= s <= 100 ->
  0 <= weighted_sum k c t s <= 100.
Proof.
  intros [Hk0 Hk] [Hc0 Hc] [Ht0 Ht] [Hs0 Hs].
  assert (W35 : 0 <= lit (35 # 100)) by by_evaluation.
  assert (W30 : 0 <= lit (30 # 100)) by by_evaluation.
  assert (W15 : 0 <= lit (15 # 100)) by by_evaluation.
  assert (W20 : 0 <= lit (20 # 100)) by by_evaluation.
  unfold weighted_sum. split.
  - auto 8 with floats.
  - apply Qle_trans with (weighted_sum 100 100 100 100).
    + unfold weighted_sum. auto 8 with floats.
    + by_evaluation.
Qed.

Lemma evaluate_total (ai_docs human_docs : string) (cs : CodeStructure) :
  exists r t,
    evaluate ai_docs human_docs cs = Ok r
    /\ calculate_keyword_overlap ai_docs human_docs = Ok (keyword_overlap_score r)
    /\ calculate_coverage ai_docs cs = Ok (coverage_score r)
    /\ calculate_length_ratio ai_docs human_docs = Ok (length_ratio r)
    /\ calculate_consistency ai_docs = Ok (consistency_score r)
    /\ length_term (length_ratio r) = Ok t
    /\ 0 <= t <= 100
    /\ overall_score r
       = weighted_sum (keyword_overlap_score r) (coverage_score r) t (consistency_score r)
    /\ 0 <= overall_score r <= 100.
Proof.
  destruct (calculate_keyword_overlap_range ai_docs human_docs) as (k & Ek & Hk).
  destruct (calculate_coverage_range ai_docs cs) as (c & Ec & Hc).
  destruct (calculate_length_ratio_hundredths ai_docs human_docs) as (L & n & EL & Hn & HL).
  destruct (calculate_consistency_range ai_docs) as (s & Es & Hs).
  destruct (length_term_hundredths n) as (t & Et & Ht).
  rewrite <- (length_term_proper _ _ HL) in Et.
  unfold evaluate. rewrite Ek, Ec, EL, Es. simpl. rewrite Et. simpl.
  eexists _, t. split; [reflexivity|]. simpl.
  repeat (split; [first [reflexivity | assumption | apply Ht] |]).
  apply weighted_sum_range; try assumption. destruct Hs; split; lra.
Qed.

(** ** A document compared with itself *)

Lemma b64_self_quotient (n : Z) : n <> 0%Z -> b64 (inject_Z n / inject_Z n) = b64 1.
Proof.
  intros Hn. apply b64_proper. apply Qmult_inv_r.
  unfold Qeq; simpl. lia.
Qed.

Lemma calculate_keyword_overlap_self (D : string) :
  exists s, calculate_keyword_overlap D D = Ok s
            /\ if bool_decide (_extract_keywords D = ∅) then s == 0 else s == 100.
Proof.
  unfold calculate_keyword_overlap.
  set (K := _extract_keywords D).
  destruct (bool_decide (K = ∅)) eqn:E; simpl.
  - exists 0. split; reflexivity.
  - apply bool_decide_eq_false in E.
    assert (Hn : size K <> 0%nat).
    { intros Hz. apply E. apply leibniz_equiv. now apply size_empty_inv. }
    rewrite intersection_idemp_L, union_idemp_L.
    rewrite int_truediv_ok by lia. simpl.
    rewrite b64_self_quotient by lia.
    eexists; split; [reflexivity | apply percent_full].
Qed.

Lemma calculate_length_ratio_self (D : string) :
  exists L, calculate_length_ratio D D = Ok L /\ L == 1.
Proof.
  unfold calculate_length_ratio.
  destruct (List.length (split_ws D) =? 0)%nat eqn:E.
  - exists 1. split; reflexivity.
  - apply Nat.eqb_neq in E.
    rewrite int_truediv_ok by lia. simpl.
    rewrite b64_self_quotient by lia.
    eexists; split; [reflexivity|]. vm_compute. reflexivity.
Qed.

(** C4 does not hold for every document: a text without keywords scores
    0 against itself, not 100. *)
Lemma identical_documents_counterexample :
  exists r, evaluate stop_word_text stop_word_text no_elements = Ok r
            /\ keyword_overlap_score r == 0
            /\ ~ keyword_overlap_score r == 100.
Proof.
  vm_compute. eexists; split; [reflexivity|]. split; [reflexivity | discriminate].
Qed.

(** C4, amended.  Evaluating a document against itself succeeds and
    gives a length ratio of 1.0; the keyword overlap is 100.0 when the
    document has at least one keyword, and 0.0 when it has none. *)
Theorem identical_documents (D : string) (cs : CodeStructure) :
  exists r, evaluate D D cs = Ok r
            /\ length_ratio r == 1
            /\ if bool_decide (_extract_keywords D = ∅)
               then keyword_overlap_score r == 0
               else keyword_overlap_score r == 100.
Proof.
  destruct (evaluate_total D D cs) as (r & t & Er & Ek & _ & EL & _).
  destruct (calculate_keyword_overlap_self D) as (s & Es & Hs).
  destruct (calculate_length_ratio_self D) as (L & EL' & HL).
  rewrite Ek in Es. injection Es as <-.
  rewrite EL in EL'. injection EL' as <-.
  exists r. auto.
Qed.

(** ** Coverage *)

Lemma documented_mono (docs docs' : string) (names : list string) :
  (forall nm, In nm names ->
     contains (lower nm) (lower docs) = true ->
     contains (lower nm) (lower docs') = true) ->
  (documented docs names <= documented docs' names)%nat.
Proof.
  unfold documented. induction names as [|nm names IH]; intros H; simpl; [lia|].
  assert (IH' : (List.length (List.filter (fun nm => contains (lower nm) (lower docs)) names)
                 <= List.length (List.filter (fun nm => contains (lower nm) (lower docs')) names))%nat).
  { apply IH. intros n Hn. apply H. now right. }
  destruct (contains (lower nm) (lower docs)) eqn:E.
  - rewrite (H nm (or_introl eq_refl) E). simpl. lia.
  - destruct (contains (lower nm) (lower docs')); simpl; lia.
Qed.

Lemma calculate_coverage_mono (cs : CodeStructure) (docs docs' : string) :
  (forall nm, In nm (element_names cs) ->
     contains (lower nm) (lower docs) = true ->
     contains (lower nm) (lower docs') = true) ->
  exists c c', calculate_coverage docs cs = Ok c
               /\ calculate_coverage docs' cs = Ok c' /\ c <= c'.
Proof.
  intros H. unfold calculate_coverage.
  destruct (_ =? 0)%nat eqn:E.
  { exists 100, 100. repeat split; try reflexivity. discriminate. }
  apply Nat.eqb_neq in E.
  rewrite !int_truediv_ok by lia. simpl.
  eexists _, _. split; [reflexivity|]. split; [reflexivity|].
  apply percent_mono, fraction_mono; [|lia].
  assert (H1 : (documented docs (map name (functions cs))
                <= documented docs' (map name (functions cs)))%nat).
  { apply documented_mono. intros nm Hn. apply H. unfold element_names.
    apply in_or_app. now left. }
  assert (H2 : (documented docs (map cls_name (classes cs))
                <= documented docs' (map cls_name (classes cs)))%nat).
  { apply documented_mono. intros nm Hn. apply H. unfold element_names.
    apply in_or_app. now right. }
  lia.
Qed.

(** C6 does not hold for every insertion: putting the element name [z]
    in the middle of [abcd] documents [z] but breaks the occurrences of
    [abcd] and [bc], and the score drops from 66.67 to 33.33. *)
Lemma coverage_insertion_counterexample :
  exists c c',
    calculate_coverage ("ab" +:+ "cd") nested_names = Ok c
    /\ calculate_coverage ("ab" +:+ "z" +:+ "cd") nested_names = Ok c'
    /\ In "z" (element_names nested_names)
    /\ c' < c.
Proof.
  vm_compute. eexists _, _. split; [reflexivity|]. split; [reflexivity|].
  split; [auto | reflexivity].
Qed.

(** C6, amended.  [calculate_coverage] returns 100 for every document
    when the model has no function and no class; and for a fixed model the
    score does not decrease from one text to another in which every element
    name that occurred (by the test of the code, on the lower-cased name
    and text) still occurs -- in particular when the lower-cased text
    occurs unbroken in the lower-cased new text. *)
Theorem coverage_empty_and_monotone (cs : CodeStructure) (docs docs' : string) :
  (forall nm, In nm (element_names cs) ->
     contains (lower nm) (lower docs) = true ->
     contains (lower nm) (lower docs') = true) ->
  (forall text mdoc lines valid err,
     calculate_coverage text
       {| functions := []; classes := []; module_docstring := mdoc;
          total_lines := lines; is_valid := valid; error_message := err |}
     = Ok 100)
  /\ (exists c c',
        calculate_coverage docs cs = Ok c
        /\ calculate_coverage docs' cs = Ok c'
        /\ c <= c')
  /\ (forall text text',
        contains (lower text) (lower text') = true ->
        exists c c',
          calculate_coverage text cs = Ok c
          /\ calculate_coverage text' cs = Ok c'
          /\ c <= c').
Proof.
  intros Hkept. split; [reflexivity|]. split.
  - now apply calculate_coverage_mono.
  - intros text text' Hin. apply calculate_coverage_mono.
    intros nm _ H. exact (contains_trans _ _ _ H Hin).
Qed.

Lemma coverage_empty_and_monotone_witness :
  exists c c',
    calculate_coverage "abcd" nested_names = Ok c
    /\ calculate_coverage "abcd, z" nested_names = Ok c'
    /\ c <= c'.
Proof.
  destruct (coverage_empty_and_monotone nested_names "abcd" "abcd, z")
    as (_ & H & _); [|exact H].
  intros nm Hin. simpl in Hin.
  destruct Hin as [<- | [<- | [<- | []]]]; intros _; reflexivity.
Defined.

(** ** Consistency *)

Lemma imatch_startswith (pat s : string) :
  startswith pat s = true -> imatches pat s = true.
Proof.
  unfold imatches. revert s. induction pat as [|a pat IH]; intros [|b s]; simpl; try easy.
  intros H. apply andb_true_iff in H as [E H].
  apply Ascii.eqb_eq in E as ->. rewrite Ascii.eqb_refl.
  specialize (IH s H). destruct (imatch pat s); [reflexivity | discriminate].
Qed.

Lemma search_weaken (p q : string -> bool) (s : string) :
  (forall t, p t = true -> q t = true) -> search p s = true -> search q s = true.
Proof.
  intros H. induction s as [|c s IH]; simpl.
  - rewrite !orb_false_r. apply H.
  - intros Hs. apply orb_true_iff in Hs as [Hs | Hs]; apply orb_true_iff; auto.
Qed.

Lemma contains_search (n s : string) : contains n s = search (startswith n) s.
Proof. induction s as [|c s IH]; simpl; [reflexivity|]. now rewrite IH. Qed.

Lemma filter_all {A} (p : A -> bool) (l : list A) :
  Forall (fun x => p x = true) l -> List.filter p l = l.
Proof. induction 1 as [|x l Hx _ IH]; simpl; [reflexivity|]. now rewrite Hx, IH. Qed.

Lemma filter_none {A} (p : A -> bool) (l : list A) :
  Forall (fun x => p x = false) l -> List.filter p l = [].
Proof. induction 1 as [|x l Hx _ IH]; simpl; [reflexivity|]. now rewrite Hx. Qed.

(** C7.  A document that contains [Args:], [Returns:] and [Example], has
    at least one section header at a line start, all such headers in one
    capitalisation, and at least one indented [name: description] line,
    has consistency 100. *)
Theorem consistency_full_marks (docs : string) :
  contains "Args:" docs = true ->
  contains "Returns:" docs = true ->
  contains "Example" docs = true ->
  header_findall true docs <> [] ->
  uniform_case (header_findall true docs) ->
  param_findall true 0 docs <> [] ->
  exists s, calculate_consistency docs = Ok s /\ s == 100.
Proof.
  intros Ha Hr He Hs Hu Hp.
  assert (E : consistency_checks docs = [true; true; true; true; true]).
  { unfold consistency_checks.
    rewrite contains_search in Ha, Hr, He.
    assert (C1 : search (fun s => imatches "Args:" s || imatches "Parameters:" s) docs = true).
    { revert Ha. apply search_weaken. intros t Ht.
      now rewrite (imatch_startswith "Args:" t Ht). }
    assert (C2 : search (fun s => imatches "Returns:" s || imatches "Return:" s) docs = true).
    { revert Hr. apply search_weaken. intros t Ht.
      now rewrite (imatch_startswith "Returns:" t Ht). }
    assert (C3 : search (fun s => startswith "Example" s || startswith ">>>" s) docs = true).
    { revert He. apply search_weaken. intros t Ht. now rewrite Ht. }
    rewrite C1, C2, C3.
    destruct (header_findall true docs) as [|h hs] eqn:Eh; [contradiction|].
    destruct (param_findall true 0 docs) as [|p ps] eqn:Ep; [contradiction|].
    repeat f_equal.
    destruct Hu as [Hu | Hu].
    - rewrite (filter_all _ _ Hu). now rewrite Nat.eqb_refl.
    - rewrite (filter_none _ _ Hu). apply orb_true_r. }
  unfold calculate_consistency. rewrite E.
  vm_compute. eexists; split; reflexivity.
Qed.

Lemma consistency_full_marks_witness :
  exists s, calculate_consistency well_formed_doc = Ok s /\ s == 100.
Proof.
  apply (consistency_full_marks well_formed_doc).
  - reflexivity.
  - reflexivity.
  - reflexivity.
  - vm_compute. discriminate.
  - left. vm_compute. repeat constructor.
  - vm_compute. discriminate.
Defined.

(** C9.  For every document the consistency score is at least 20: the
    fifth check is true whether parameter lines are found or not. *)
Theorem consistency_at_least_20 (docs : string) :
  exists s, calculate_consistency docs = Ok s
            /\ 20 <= s
            /\ nth 4 (consistency_checks docs) false = true.
Proof.
  destruct (calculate_consistency_range docs) as (s & Es & Hs & _).
  destruct (consistency_checks_shape docs) as (a & b & c & d & E).
  exists s. rewrite E. auto.
Qed.

(** ** Length ratio *)

Lemma round2_two_decimals (x : Q) :
  exists k : Z, round2 x = b64 (inject_Z k / 100)
                /\ Qabs (inject_Z k / 100 - x) <= 1 # 200.
Proof.
  exists (rne (x * 100)). split; [reflexivity|].
  pose proof (rne_near (x * 100)) as H.
  apply Qabs_Qle_condition in H. apply Qabs_Qle_condition.
  unfold Qdiv. change (/ 100) with (1 # 100).
  destruct H as [H1 H2]. split; lra.
Qed.

(** C8.  [calculate_length_ratio] returns 1.0 when the reference has no
    word, and otherwise the quotient of the two word counts rounded to two
    decimals: [round2 x] is the float of a number of hundredths within
    half a hundredth of [x].  For [a b c d] against [a b] the ratio is
    2.0. *)
Theorem length_ratio_spec :
  (forall ai_docs human_docs,
     calculate_length_ratio ai_docs human_docs
     = Ok (match List.length (split_ws human_docs) with
           | O => 1
           | S _ =>
               round2 (b64 (inject_Z (Z.of_nat (List.length (split_ws ai_docs)))
                            / inject_Z (Z.of_nat (List.length (split_ws human_docs)))))
           end))
  /\ (forall x, exists k : Z,
        round2 x = b64 (inject_Z k / 100)
        /\ Qabs (inject_Z k / 100 - x) <= 1 # 200)
  /\ (exists r, calculate_length_ratio "a b c d" "a b" = Ok r /\ r == 2).
Proof.
  split; [|split].
  - intros ai_docs human_docs. unfold calculate_length_ratio.
    destruct (List.length (split_ws human_docs)) as [|h] eqn:E; [reflexivity|].
    simpl Nat.eqb. cbv iota. now rewrite int_truediv_ok by lia.
  - apply round2_two_decimals.
  - vm_compute. eexists; split; reflexivity.
Qed.

(** ** The overall score is total and bounded *)

(** C1.  [evaluate] returns a result for every pair of documents and
    every model -- no division raises -- and its overall score is the
    weighted sum with the length term clamped to 100 and lies between 0 and
    100.  The clamped term is defined for every ratio of two decimals: the
    float denominator [length_ratio - 1.0 + 0.1] is never zero, and at the
    ratio 0.9 it is [2^-55]. *)
Theorem evaluate_overall_in_range (ai_docs human_docs : string) (cs : CodeStructure) :
  (exists r clamped,
     evaluate ai_docs human_docs cs = Ok r
     /\ length_term (length_ratio r) = Ok clamped
     /\ clamped <= 100
     /\ overall_score r
        = weighted_sum (keyword_overlap_score r) (coverage_score r) clamped
                       (consistency_score r)
     /\ 0 <= overall_score r <= 100)
  /\ (forall k : Z, exists t,
        length_term (b64 (inject_Z k / 100)) = Ok t /\ 0 <= t <= 100)
  /\ length_denominator (lit (9 # 10)) == pow2 (-55).
Proof.
  split; [|split].
  - destruct (evaluate_total ai_docs human_docs cs)
      as (r & t & Er & _ & _ & _ & _ & Et & Ht & Eo & Ho).
    exists r, t. destruct Ht as [_ Ht]. auto.
  - apply length_term_hundredths.
  - vm_compute. reflexivity.
Qed.

(** * Further properties of the code *)

Import ParserExt Delegated DocGenExt Pipeline OutputFormatter Comparison MoreSamples.

(** ** Keyword overlap as a function of the two vocabularies *)

(** X1.  Keyword overlap is symmetric in its two documents. *)
Theorem keyword_overlap_symmetric (ai_docs human_docs : string) :
  calculate_keyword_overlap ai_docs human_docs
  = calculate_keyword_overlap human_docs ai_docs.
Proof.
  unfold calculate_keyword_overlap.
  rewrite (orb_comm (bool_decide (_extract_keywords ai_docs = ∅))).
  rewrite (intersection_comm_L (_extract_keywords ai_docs)).
  rewrite (union_comm_L (_extract_keywords ai_docs)).
  reflexivity.
Qed.

Lemma percent_zero (u : Z) : round2 (fmul (b64 (inject_Z 0 / inject_Z u)) 100) == 0.
Proof.
  assert (E : b64 (inject_Z 0 / inject_Z u) = b64 0).
  { apply b64_proper. unfold Qdiv. apply Qmult_0_l. }
  rewrite E. by_evaluation.
Qed.

(** X2.  Two documents with the same non-empty set of keywords overlap at
    100, whatever their case, punctuation, word order and stop words. *)
Theorem keyword_overlap_same_vocabulary (ai_docs human_docs : string) :
  _extract_keywords ai_docs = _extract_keywords human_docs ->
  _extract_keywords ai_docs <> ∅ ->
  exists s, calculate_keyword_overlap ai_docs human_docs = Ok s /\ s == 100.
Proof.
  intros E Hne. unfold calculate_keyword_overlap. rewrite <- E.
  destruct (bool_decide (_extract_keywords ai_docs = ∅)) eqn:D.
  { apply bool_decide_eq_true in D. contradiction. }
  simpl. rewrite intersection_idemp_L, union_idemp_L.
  assert (Hn : size (_extract_keywords ai_docs) <> 0%nat).
  { intros Hz. apply Hne, leibniz_equiv. now apply size_empty_inv. }
  rewrite int_truediv_ok by lia. simpl.
  rewrite b64_self_quotient by lia.
  eexists; split; [reflexivity | apply percent_full].
Qed.

Lemma keyword_overlap_same_vocabulary_witness :
  exists s, calculate_keyword_overlap "Parse the source code." "SOURCE-CODE: parse it, parse!" = Ok s
            /\ s == 100.
Proof.
  apply keyword_overlap_same_vocabulary.
  - vm_compute. reflexivity.
  - vm_compute. discriminate.
Defined.

(** X3.  Two documents without a keyword in common overlap at 0. *)
Theorem keyword_overlap_disjoint (ai_docs human_docs : string) :
  _extract_keywords ai_docs ∩ _extract_keywords human_docs = ∅ ->
  exists s, calculate_keyword_overlap ai_docs human_docs = Ok s /\ s == 0.
Proof.
  intros Hd. unfold calculate_keyword_overlap.
  destruct (bool_decide (_extract_keywords ai_docs = ∅)) eqn:DA; simpl.
  { exists 0. split; reflexivity. }
  destruct (bool_decide (_extract_keywords human_docs = ∅)) eqn:DB; simpl.
  { exists 0. split; reflexivity. }
  apply bool_decide_eq_false in DA.
  rewrite Hd, size_empty.
  assert (Hn : size (_extract_keywords ai_docs) <> 0%nat).
  { intros Hz. apply DA, leibniz_equiv. now apply size_empty_inv. }
  pose proof (subseteq_size _ _
    (union_subseteq_l (_extract_keywords ai_docs) (_extract_keywords human_docs))) as Hs.
  rewrite int_truediv_ok by lia. simpl.
  eexists; split; [reflexivity | apply percent_zero].
Qed.

Lemma keyword_overlap_disjoint_witness :
  exists s, calculate_keyword_overlap "Sorts the list" "Opens a file" = Ok s /\ s == 0.
Proof.
  apply keyword_overlap_disjoint. vm_compute. reflexivity.
Defined.

(** ** What a keyword looks like *)

Lemma split_ws_chars (s w : string) :
  In w (split_ws s) ->
  forall c, In c (list_ascii_of_string w) ->
            In c (list_ascii_of_string s) /\ is_space c = false.
Proof.
  revert w. induction s as [|a s IH]; intros w Hw c Hc; [destruct Hw|].
  cbn [split_ws] in Hw.
  destruct (is_space a) eqn:Ea.
  - destruct (IH w Hw c Hc) as [H1 H2]. split; [now right | exact H2].
  - destruct s as [|b s'].
    + destruct Hw as [<- | []]. destruct Hc as [<- | []]. split; [now left | exact Ea].
    + destruct (is_space b) eqn:Eb.
      * destruct Hw as [<- | Hw].
        -- destruct Hc as [<- | []]. split; [now left | exact Ea].
        -- destruct (IH w Hw c Hc) as [H1 H2]. split; [now right | exact H2].
      * destruct (split_ws (String b s')) as [|w0 ws] eqn:Es.
        -- destruct Hw as [<- | []]. destruct Hc as [<- | []]. split; [now left | exact Ea].
        -- destruct Hw as [<- | Hw].
           ++ destruct Hc as [<- | Hc]; [split; [now left | exact Ea]|].
              destruct (IH w0 (or_introl eq_refl) c Hc) as [H1 H2].
              split; [now right | exact H2].
           ++ destruct (IH w (or_intror Hw) c Hc) as [H1 H2].
              split; [now right | exact H2].
Qed.

Lemma blank_specials_chars (s : string) (c : ascii) :
  In c (list_ascii_of_string (blank_specials s)) ->
  is_az c || is_digit c || is_space c = true.
Proof.
  induction s as [|a s IH]; intros H; [destruct H|].
  destruct H as [<- | H]; [|now apply IH].
  destruct (is_az a || is_digit a || is_space a) eqn:E; [exact E | reflexivity].
Qed.

(** X4.  A keyword is made of lower-case ASCII letters and digits only,
    has at least three characters and is not a stop word. *)
Theorem keywords_are_normalised (text w : string) :
  w ∈ _extract_keywords text ->
  (3 <= String.length w)%nat
  /\ (w ∉ stop_words)
  /\ forallb (fun c => is_az c || is_digit c) (list_ascii_of_string w) = true.
Proof.
  unfold _extract_keywords. intros H.
  apply elem_of_list_to_set, list_elem_of_In, filter_In in H as [Hin Hf].
  apply andb_true_iff in Hf as [Hstop Hlen].
  split; [apply Nat.ltb_lt in Hlen; lia|].
  split.
  - intros Hs. apply negb_true_iff, bool_decide_eq_false in Hstop. contradiction.
  - apply forallb_forall. intros c Hc.
    destruct (split_ws_chars _ _ Hin c Hc) as [Hb Hsp].
    apply blank_specials_chars in Hb. rewrite Hsp, orb_false_r in Hb. exact Hb.
Qed.

Lemma keywords_are_normalised_witness :
  (3 <= String.length "parser")%nat
  /\ ("parser" ∉ stop_words)
  /\ forallb (fun c => is_az c || is_digit c) (list_ascii_of_string "parser") = true.
Proof.
  apply (keywords_are_normalised "The Parser; it PARSES 2 files").
  vm_compute. reflexivity.
Defined.

Local Close Scope Q_scope.

(** ** The structure [get_structure] returns *)

Lemma split_char_length (sep : ascii) (s : string) :
  List.length (split_char sep s)
  = S (List.length (List.filter (Ascii.eqb sep) (list_ascii_of_string s))).
Proof.
  induction s as [|c s IH]; [reflexivity|].
  cbn [split_char list_ascii_of_string List.filter].
  rewrite (Ascii.eqb_sym sep c).
  destruct (Ascii.eqb c sep).
  - cbn [List.length]. now rewrite IH.
  - destruct (split_char sep s) as [|h t] eqn:E; [discriminate|].
    cbn [List.length] in *. exact IH.
Qed.

Section ExtractionProps.

Variable ast_parse : string -> parse_outcome.

Lemma get_structure_parsed (code : string) (st : parser_state) (t : module_ast) :
  ast_parse code = Parsed t ->
  get_structure ast_parse code st
  = ({| functions := function_defs code (mod_body t);
        classes := class_defs code (walk t);
        module_docstring := mod_docstring t;
        total_lines := List.length (split_char "010" code);
        is_valid := true;
        error_message := None |},
     {| tree := Some t; source_lines := split_char "010" code |}).
Proof.
  intros H. unfold get_structure, validate_syntax. rewrite H. reflexivity.
Qed.

Lemma get_structure_failed (code : string) (st : parser_state) :
  (forall t, ast_parse code <> Parsed t) ->
  exists msg,
    get_structure ast_parse code st
    = ({| functions := []; classes := []; module_docstring := None;
          total_lines := List.length (split_char "010" code);
          is_valid := false; error_message := Some msg |}, st).
Proof.
  intros H. unfold get_structure, validate_syntax.
  destruct (ast_parse code) as [t | l m | x] eqn:E.
  - now destruct (H t).
  - eexists. reflexivity.
  - eexists. reflexivity.
Qed.

Lemma parse_cases (code : string) :
  (exists t, ast_parse code = Parsed t) \/ (forall t, ast_parse code <> Parsed t).
Proof. destruct (ast_parse code); [left; eauto | right; discriminate | right; discriminate]. Qed.


(** X6.  The structure returned for a text does not depend on what the
    parser object has parsed before. *)
Theorem get_structure_ignores_history (code : string) (st st' : parser_state) :
  fst (get_structure ast_parse code st) = fst (get_structure ast_parse code st').
Proof.
  destruct (parse_cases code) as [[t H] | H].
  - now rewrite !(get_structure_parsed code _ t H).
  - destruct (get_structure_failed code st H) as [m1 E1].
    destruct (get_structure_failed code st' H) as [m2 E2].
    rewrite E1, E2. simpl. f_equal.
    unfold get_structure, validate_syntax in E1, E2.
    destruct (ast_parse code); [now destruct (H t) | |]; simpl in E1, E2; congruence.
Qed.


End ExtractionProps.


(** ** Every class of the tree, the functions of the module body *)










(** ** Line counts *)

Lemma disjoint_filters {A} (p q : A -> bool) (l : list A) :
  (forall x, p x = true -> q x = false) ->
  (List.length (List.filter p l) + List.length (List.filter q l) <= List.length l)%nat.
Proof.
  intros H. induction l as [|x l IH]; [reflexivity|].
  simpl. destruct (p x) eqn:P.
  - rewrite (H x P). simpl. lia.
  - destruct (q x); simpl; lia.
Qed.

(** X9.  [count_lines] never reports a negative number: blank lines and
    comment lines are disjoint, so the four counts are non-negative,
    [total] is at least 1 (also for the empty text) and is the sum of the
    other three. *)
Theorem count_lines_partition (code : string) :
  exists total blank comments rest : Z,
    count_lines code !! "total" = Some total
    /\ count_lines code !! "blank" = Some blank
    /\ count_lines code !! "comments" = Some comments
    /\ count_lines code !! "code" = Some rest
    /\ (1 <= total /\ 0 <= blank /\ 0 <= comments /\ 0 <= rest)%Z
    /\ (total = blank + comments + rest)%Z.
Proof.
  unfold count_lines.
  set (lines := split_char "010" code).
  set (b := List.filter (fun line => String.eqb (strip line) EmptyString) lines).
  set (m := List.filter (fun line => startswith "#" (strip line)) lines).
  assert (Hd : (List.length b + List.length m <= List.length lines)%nat).
  { apply disjoint_filters. intros x Hx. apply String.eqb_eq in Hx. now rewrite Hx. }
  assert (Hl : (1 <= List.length lines)%nat).
  { unfold lines. rewrite split_char_length. lia. }
  do 4 eexists. repeat split; try reflexivity; lia.
Qed.

(** ** Parameter and return descriptions *)

(** X10.  Every parameter description quotes the parameter's name as it
    is written, except in the flag bucket, whose sentence ends with the
    name stripped of [is_] and with blanks for underscores: [is_enabled]
    is described without its name. *)
Theorem param_description_quotes_the_name :
  (forall param func_name,
     contains param (_generate_param_description param func_name) = true
     \/ _generate_param_description param func_name
        = "Boolean flag indicating whether to " +:+ replace "_" " " (replace "is_" "" param))
  /\ (forall func_name,
        _generate_param_description "is_enabled" func_name
        = "Boolean flag indicating whether to enabled"
        /\ contains "is_enabled" (_generate_param_description "is_enabled" func_name)
           = false).
Proof.
  split; [|split; reflexivity].
  intros param func_name. unfold _generate_param_description.
  repeat match goal with
  | |- context [if ?b then _ else _] => destruct b
  end;
  first [ right; reflexivity | left; apply contains_middle ].
Qed.

(** X11.  The return types are tried in the order bool, int, str, list,
    dict on the lower-cased annotation: an annotation that contains [int]
    anywhere, and not [bool], is described as an integer, also when it
    names a list, a dict or a class. *)
Theorem return_description_int_shadows (func_name ann : string) :
  contains "int" (lower ann) = true ->
  contains "bool" (lower ann) = false ->
  _generate_return_description func_name (Some ann)
  = "Integer value representing the computed result or count".
Proof.
  intros Hi Hb. unfold _generate_return_description.
  assert (Hne : truthy ann = true).
  { unfold truthy. destruct ann; [discriminate | reflexivity]. }
  now rewrite Hne, Hb, Hi.
Qed.

Lemma return_description_int_shadows_witness :
  _generate_return_description "nearest_points" (Some "List[Point]")
  = "Integer value representing the computed result or count".
Proof.
  apply return_description_int_shadows; reflexivity.
Defined.

(** ** The payload, in local and in delegated mode *)

Lemma described_keys (g : string -> string) (ps : list string) (d : gmap string string) :
  dom (fold_left (fun d p => if String.eqb p "self" then d else <[p := g p]> d) ps d)
  = dom d ∪ list_to_set (non_self ps).
Proof.
  revert d. induction ps as [|p ps IH]; intros d.
  - simpl. now rewrite union_empty_r_L.
  - cbn [fold_left]. rewrite IH. unfold non_self. cbn [List.filter].
    destruct (String.eqb p "self"); cbn [negb].
    + reflexivity.
    + rewrite dom_insert_L. cbn [list_to_set]. fold (non_self ps).
      rewrite (union_comm_L {[p]} (dom d)).
      now rewrite <- union_assoc_L.
Qed.

Lemma generate_examples_two_lines (func_name : string) (ps : list string) :
  List.length (_generate_examples func_name ps) = 2%nat.
Proof. unfold _generate_examples. destruct (non_self ps); reflexivity. Qed.

Lemma payload_returns_and_examples (complete : string -> option string)
    (self : interface) (func_info : FunctionInfo) :
  let out := generate_documentation complete self func_info in
  return_description out <> "" /\ List.length (examples out) = 2%nat.
Proof.
  unfold generate_documentation, _generate_with_api.
  assert (L : return_description (_generate_with_mock func_info) <> ""
              /\ List.length (examples (_generate_with_mock func_info)) = 2%nat).
  { split; [apply return_description_nonempty | apply generate_examples_two_lines]. }
  destruct (use_api self); [|exact L].
  destruct (complete (_create_prompt func_info)); [|exact L].
  split; [discriminate | reflexivity].
Qed.

(** X12.  Whatever the mode of the interface and whatever the service
    replies or raises, the payload carries the function's name, a
    description for each parameter other than [self] and for nothing else,
    a non-empty return description and two example lines. *)
Theorem payload_shape (complete : string -> option string) (self : interface)
    (func_info : FunctionInfo) :
  let out := generate_documentation complete self func_info in
  function_name out = name func_info
  /\ dom (param_descriptions out) = list_to_set (non_self (params func_info))
  /\ return_description out <> ""
  /\ List.length (examples out) = 2%nat.
Proof.
  intros out.
  destruct (payload_returns_and_examples complete self func_info) as [Hr He].
  fold out in Hr, He.
  assert (L : function_name (_generate_with_mock func_info) = name func_info
              /\ dom (param_descriptions (_generate_with_mock func_info))
                 = list_to_set (non_self (params func_info))).
  { split; [reflexivity|]. simpl. unfold describe_params.
    rewrite (described_keys (fun p => _generate_param_description p (name func_info))).
    now rewrite dom_empty_L, union_empty_l_L. }
  assert (N : function_name out = name func_info
              /\ dom (param_descriptions out) = list_to_set (non_self (params func_info))).
  { unfold out, generate_documentation, _generate_with_api.
    destruct (use_api self); [|exact L].
    destruct (complete (_create_prompt func_info)) as [content|]; [|exact L].
    split; [reflexivity|]. simpl. unfold placeholder_params.
    rewrite (described_keys (fun p => "Description of " +:+ p)).
    now rewrite dom_empty_L, union_empty_l_L. }
  destruct N as [N1 N2]. repeat split; assumption.
Qed.

Lemma take_length (n : nat) (s : string) : (String.length (take n s) <= n)%nat.
Proof.
  unfold take. revert s. induction n as [|n IH]; intros [|c s]; simpl; try lia.
  specialize (IH s). lia.
Qed.

Lemma take_prefix (n : nat) (s : string) : startswith (take n s) s = true.
Proof.
  unfold take. revert s. induction n as [|n IH]; intros [|c s]; simpl; try reflexivity.
  now rewrite Ascii.eqb_refl, IH.
Qed.

Lemma take_all (n : nat) (s : string) : (String.length s <= n)%nat -> take n s = s.
Proof.
  unfold take. revert s. induction n as [|n IH]; intros [|c s] H; simpl in *;
    try reflexivity; try lia.
  rewrite IH by lia. reflexivity.
Qed.

Lemma take_S (n : nat) (c : ascii) (s : string) :
  take (S n) (String c s) = String c (take n s).
Proof. reflexivity. Qed.

Lemma take_length_exact (k : nat) (s : string) :
  (k <= String.length s)%nat -> String.length (take k s) = k.
Proof.
  revert s. induction k as [|k IH]; intros s H.
  - destruct s; reflexivity.
  - destruct s as [|c s]; simpl in H; [lia|].
    rewrite take_S. simpl. rewrite IH; lia.
Qed.

Lemma take_drop (k : nat) (s : string) : take k s +:+ drop k s = s.
Proof.
  revert s. induction k as [|k IH]; intros [|c s]; try reflexivity.
  rewrite take_S. simpl drop.
  change (String c (take k s) +:+ drop k s) with (String c (take k s +:+ drop k s)).
  now rewrite IH.
Qed.

Lemma take_length_min (k : nat) (s : string) :
  String.length (take k s) = Nat.min k (String.length s).
Proof.
  destruct (Nat.le_gt_cases k (String.length s)) as [H | H].
  - rewrite take_length_exact by assumption. lia.
  - rewrite take_all by lia. lia.
Qed.

(** X13.  When the service answers, the description is the reply cut
    after 200 characters: it is the prefix of the reply that has 200
    characters, or the whole reply when that is shorter. *)
Theorem api_description_is_truncated (complete : string -> option string)
    (self : interface) (func_info : FunctionInfo) (content : string) :
  use_api self = true ->
  complete (_create_prompt func_info) = Some content ->
  let out := generate_documentation complete self func_info in
  (String.length (description out) <= 200)%nat
  /\ startswith (description out) content = true
  /\ ((String.length content <= 200)%nat -> description out = content)
  /\ String.length (description out) = Nat.min 200 (String.length content)
  /\ (exists rest, content = description out +:+ rest).
Proof.
  intros Hu Hc. unfold generate_documentation, _generate_with_api.
  rewrite Hu, Hc. simpl.
  split; [apply take_length|]. split; [apply take_prefix|].
  split; [apply take_all|]. split; [apply take_length_min|].
  exists (drop 200 content). symmetry. apply take_drop.
Qed.

Lemma api_description_is_truncated_witness :
  (200 < String.length long_reply)%nat
  /\ let out := generate_documentation verbose_service keyed price_function in
     (String.length (description out) <= 200)%nat
     /\ startswith (description out) long_reply = true
     /\ ((String.length long_reply <= 200)%nat -> description out = long_reply)
     /\ String.length (description out) = Nat.min 200 (String.length long_reply)
     /\ (exists rest, long_reply = description out +:+ rest).
Proof.
  split; [apply Nat.ltb_lt; reflexivity|].
  apply (api_description_is_truncated verbose_service keyed price_function); reflexivity.
Defined.

(** X14.  Without a key -- none given and none in the environment, or
    empty ones -- an interface asked for the API mode works in local mode:
    its output is the local synthesis and the service is not called.  The
    same output results when the call raises. *)
Theorem no_service_means_local (complete : string -> option string)
    (requested : bool) (key env_key : option string) (func_info : FunctionInfo) :
  truthy_opt key = false ->
  truthy_opt env_key = false ->
  use_api (Delegated.__init__ requested key env_key) = false
  /\ generate_documentation complete (Delegated.__init__ requested key env_key) func_info
     = _generate_with_mock func_info
  /\ (forall k, complete (_create_prompt func_info) = None ->
        generate_documentation complete (Delegated.__init__ true (Some k) env_key) func_info
        = _generate_with_mock func_info).
Proof.
  intros Hk He.
  assert (E : use_api (Delegated.__init__ requested key env_key) = false).
  { unfold Delegated.__init__. rewrite Hk, He. now destruct requested. }
  split; [exact E|]. split.
  - unfold generate_documentation. now rewrite E.
  - intros k Hc. unfold generate_documentation, _generate_with_api.
    rewrite Hc.
    destruct (use_api (Delegated.__init__ true (Some k) env_key)); reflexivity.
Qed.

Lemma no_service_means_local_witness :
  use_api (Delegated.__init__ true None (Some "")) = false
  /\ generate_documentation steady_service (Delegated.__init__ true None (Some ""))
       price_function
     = _generate_with_mock price_function
  /\ (forall k, steady_service (_create_prompt price_function) = None ->
        generate_documentation steady_service (Delegated.__init__ true (Some k) (Some ""))
          price_function
        = _generate_with_mock price_function).
Proof.
  apply (no_service_means_local steady_service true None (Some "") price_function);
    reflexivity.
Defined.

(** ** The sections of a rendered payload *)

Lemma section_lines (func_info : FunctionInfo) (out : DocumentationOutput) :
  return_description out <> "" -> examples out <> [] ->
  In "Returns:" (google_lines func_info out)
  /\ In "Examples:" (google_lines func_info out)
  /\ (non_self (params func_info) = [] \/ In "Args:" (google_lines func_info out))
  /\ last (google_lines func_info out) = Some triple_quote
  /\ In "Returns" (numpy_lines func_info out)
  /\ In "Examples" (numpy_lines func_info out)
  /\ (non_self (params func_info) = [] \/ In "Parameters" (numpy_lines func_info out))
  /\ last (numpy_lines func_info out) = Some triple_quote.
Proof.
  intros Hr He.
  apply truthy_nonempty in Hr.
  destruct (examples out) as [|e1 es] eqn:Ee; [congruence|].
  unfold google_lines, numpy_lines. rewrite Hr, Ee, orb_true_r.
  repeat split.
  - do 3 (apply in_or_app; right). apply in_or_app; left. now left.
  - do 4 (apply in_or_app; right). apply in_or_app; left. now left.
  - destruct (non_self (params func_info)) as [|p ps]; [now left | right].
    do 2 (apply in_or_app; right). apply in_or_app; left. now left.
  - rewrite !app_assoc. apply last_snoc.
  - do 3 (apply in_or_app; right). apply in_or_app; left. now left.
  - do 4 (apply in_or_app; right). apply in_or_app; left. now left.
  - destruct (non_self (params func_info)) as [|p ps]; [now left | right].
    do 2 (apply in_or_app; right). apply in_or_app; left. now left.
  - rewrite !app_assoc. apply last_snoc.
Qed.

(** X15.  In either mode of the interface the rendered block always has
    its returns and its examples section, in Google and in NumPy style,
    and ends with the closing marker; the parameters section is there as
    soon as the function has a parameter other than [self]. *)
Theorem rendering_sections (complete : string -> option string) (self : interface)
    (func_info : FunctionInfo) :
  let out := generate_documentation complete self func_info in
  In "Returns:" (google_lines func_info out)
  /\ In "Examples:" (google_lines func_info out)
  /\ (non_self (params func_info) = [] \/ In "Args:" (google_lines func_info out))
  /\ last (google_lines func_info out) = Some triple_quote
  /\ In "Returns" (numpy_lines func_info out)
  /\ In "Examples" (numpy_lines func_info out)
  /\ (non_self (params func_info) = [] \/ In "Parameters" (numpy_lines func_info out))
  /\ last (numpy_lines func_info out) = Some triple_quote.
Proof.
  intros out.
  destruct (payload_returns_and_examples complete self func_info) as [Hr He].
  fold out in Hr, He.
  apply section_lines; [exact Hr|].
  intros E. rewrite E in He. discriminate He.
Qed.

(** ** Inline comments *)

Lemma join_split_char (s : string) : join nl (split_char "010" s) = s.
Proof.
  induction s as [|c s IH]; [reflexivity|].
  cbn [split_char].
  destruct (split_char "010" s) as [|h t] eqn:E.
  { exfalso. pose proof (split_char_length "010" s) as L. rewrite E in L. discriminate. }
  destruct (Ascii.eqb_spec c "010") as [-> | Hc].
  - change (join nl ("" :: h :: t)) with ("" +:+ nl +:+ join nl (h :: t)).
    now rewrite IH.
  - destruct t as [|h' t].
    + simpl in *. now rewrite IH.
    + change (join nl (String c h :: h' :: t))
        with (String c (h +:+ nl +:+ join nl (h' :: t))).
      change (join nl (h :: h' :: t)) with (h +:+ nl +:+ join nl (h' :: t)) in IH.
      now rewrite IH.
Qed.

Lemma comment_lines_spent (ai_suggestions : list string) (k : nat) (lines : list string) :
  (List.length ai_suggestions <= k)%nat ->
  comment_lines ai_suggestions k lines = lines.
Proof.
  intros H. induction lines as [|line rest IH]; [reflexivity|].
  cbn [comment_lines].
  assert (E : (k <? List.length ai_suggestions)%nat = false) by (apply Nat.ltb_ge; lia).
  now rewrite E, andb_false_r, IH.
Qed.

Lemma comment_lines_keep (ai_suggestions : list string) (k : nat) (lines : list string) :
  sublist lines (comment_lines ai_suggestions k lines)
  /\ (List.length (comment_lines ai_suggestions k lines)
      <= List.length lines + (List.length ai_suggestions - k))%nat
  /\ (List.length (comment_lines ai_suggestions k lines)
      <= List.length lines
         + List.length (List.filter (contains "def ") (removelast lines)))%nat.
Proof.
  revert k. induction lines as [|line rest IH]; intros k.
  - repeat split; simpl; [apply sublist_nil | lia | lia].
  - cbn [comment_lines].
    destruct (contains "def " line && (k <? List.length ai_suggestions)%nat) eqn:E.
    + apply andb_true_iff in E as [Ed Ek]. apply Nat.ltb_lt in Ek.
      destruct rest as [|next rest'].
      * repeat split; simpl; [apply sublist_skip, sublist_nil | lia | lia].
      * destruct (IH (S k)) as (S1 & S2 & S3).
        repeat split.
        -- apply sublist_skip, sublist_cons, S1.
        -- cbn [List.length] in *. lia.
        -- change (removelast (line :: next :: rest'))
             with (line :: removelast (next :: rest')).
           cbn [List.filter]. rewrite Ed. cbn [List.length] in *. lia.
    + destruct (IH k) as (S1 & S2 & S3).
      repeat split.
      * apply sublist_skip, S1.
      * cbn [List.length]. lia.
      * destruct rest as [|next rest'].
        -- simpl. lia.
        -- change (removelast (line :: next :: rest'))
             with (line :: removelast (next :: rest')).
           cbn [List.filter]. destruct (contains "def " line); cbn [List.length] in *; lia.
Qed.

(** X16.  [generate_inline_comments] keeps every line of the code, in
    order, and only adds lines: at most one per suggestion and at most one
    per line that contains [def ] and is not the last.  With no suggestion
    the code comes back unchanged. *)
Theorem inline_comments_only_add (code : string) (ai_suggestions : list string) :
  let lines := split_char "010" code in
  let commented := comment_lines ai_suggestions 0 lines in
  generate_inline_comments code ai_suggestions = join nl commented
  /\ sublist lines commented
  /\ (List.length commented <= List.length lines + List.length ai_suggestions)%nat
  /\ (List.length commented
      <= List.length lines
         + List.length (List.filter (contains "def ") (removelast lines)))%nat
  /\ generate_inline_comments code [] = code.
Proof.
  intros lines commented.
  destruct (comment_lines_keep ai_suggestions 0 lines) as (S1 & S2 & S3).
  split; [reflexivity|]. split; [exact S1|]. split; [unfold commented; lia|].
  split; [exact S3|].
  unfold generate_inline_comments.
  rewrite comment_lines_spent by (simpl; lia). apply join_split_char.
Qed.

(** ** Coverage of the documents the generator itself writes *)

Local Open Scope Q_scope.

Lemma startswith_lower (p s : string) :
  startswith p s = true -> startswith (lower p) (lower s) = true.
Proof.
  revert s. induction p as [|a p IH]; intros [|b s]; simpl; try easy.
  intros H. apply andb_true_iff in H as [E H].
  apply Ascii.eqb_eq in E as ->. rewrite Ascii.eqb_refl. now apply IH.
Qed.

Lemma contains_lower (n s : string) :
  contains n s = true -> contains (lower n) (lower s) = true.
Proof.
  induction s as [|c s IH]; simpl.
  - rewrite !orb_false_r. apply (startswith_lower n "").
  - intros H. apply orb_true_iff in H as [H | H]; apply orb_true_iff.
    + left. apply (startswith_lower n (String c s) H).
    + right. now apply IH.
Qed.

Lemma contains_in_join (sep n x : string) (l : list string) :
  In x l -> contains n x = true -> contains n (join sep l) = true.
Proof.
  intros Hin Hx. induction l as [|y l IH]; [destruct Hin|].
  destruct l as [|z l].
  - destruct Hin as [-> | []]. exact Hx.
  - change (join sep (y :: z :: l)) with (y +:+ sep +:+ join sep (z :: l)).
    destruct Hin as [-> | Hin].
    + now apply contains_app_l.
    + apply contains_app_r, contains_app_r, IH, Hin.
Qed.

Lemma documented_all (docs : string) (names : list string) :
  (forall nm, In nm names -> contains (lower nm) (lower docs) = true) ->
  documented docs names = List.length names.
Proof.
  intros H. unfold documented. f_equal. apply filter_all.
  apply Forall_forall. intros nm Hn. apply H. now apply list_elem_of_In.
Qed.

Lemma coverage_full (docs : string) (cs : CodeStructure) :
  (forall nm, In nm (element_names cs) -> contains nm docs = true) ->
  exists s, calculate_coverage docs cs = Ok s /\ s == 100.
Proof.
  intros H. unfold calculate_coverage.
  destruct (_ =? 0)%nat eqn:E.
  { exists 100. split; reflexivity. }
  apply Nat.eqb_neq in E.
  rewrite !documented_all.
  - rewrite !length_map, int_truediv_ok by lia. simpl.
    rewrite b64_self_quotient by lia.
    eexists; split; [reflexivity | apply percent_full].
  - intros nm Hn. apply contains_lower, H. unfold element_names.
    apply in_or_app. now right.
  - intros nm Hn. apply contains_lower, H. unfold element_names.
    apply in_or_app. now left.
Qed.

(** The keys of the dict the loop fills. *)
Lemma dict_set_key (k v : string) (d : list (string * string)) :
  In k (map fst (dict_set k v d)).
Proof.
  induction d as [|[k' v'] d IH]; simpl; [now left|].
  destruct (String.eqb k' k); simpl; [now left | now right].
Qed.

Lemma dict_set_keeps (k v k0 : string) (d : list (string * string)) :
  In k0 (map fst d) -> In k0 (map fst (dict_set k v d)).
Proof.
  induction d as [|[k' v'] d IH]; simpl; [tauto|].
  intros [-> | H].
  - destruct (String.eqb_spec k0 k) as [-> | Hne]; simpl; now left.
  - destruct (String.eqb k' k); simpl; [now right | right; now apply IH].
Qed.

Lemma document_all_keys (generate : FunctionInfo -> DocumentationOutput)
    (style : string) (fs : list FunctionInfo) (f : FunctionInfo) :
  In f fs -> In (name f) (map fst (document_all generate style fs)).
Proof.
  unfold document_all.
  assert (G : forall acc,
    In f fs \/ In (name f) (map fst acc) ->
    In (name f) (map fst
      (fold_left
         (fun all_docs func =>
            dict_set (name func)
              (generate_function_docs style func (generate func)) all_docs) fs acc))).
  { induction fs as [|g fs IH]; intros acc H; simpl.
    - destruct H as [[] | H]. exact H.
    - apply IH. destruct H as [[-> | H] | H].
      + right. apply dict_set_key.
      + now left.
      + right. now apply dict_set_keeps. }
  intros H. apply G. now left.
Qed.

Lemma format_output_heading (all_docs : list (string * string)) (k : string) :
  In k (map fst all_docs) ->
  contains ("## Function: " +:+ k) (format_output all_docs) = true.
Proof.
  intros H. unfold format_output.
  apply (contains_in_join nl _ ("## Function: " +:+ k)).
  - unfold output_items. apply in_or_app. right.
    apply in_map_iff in H as ([k' v] & <- & H).
    apply in_flat_map. exists (k', v). split; [exact H | now left].
  - rewrite <- (sapp_nil_r ("## Function: " +:+ k)) at 2.
    apply (contains_middle ("## Function: " +:+ k) "" "").
Qed.

(** X17.  The document the generation loop writes mentions every
    function of the structure, in whatever mode and style: all functions
    count as documented, and for a structure without classes the coverage
    of the generated document is 100. *)
Theorem generated_docs_cover_functions
    (generate : FunctionInfo -> DocumentationOutput) (style : string)
    (cs : CodeStructure) :
  classes cs = [] ->
  documented (generated_docs generate style cs) (map name (functions cs))
  = List.length (functions cs)
  /\ exists s, calculate_coverage (generated_docs generate style cs) cs = Ok s
               /\ s == 100.
Proof.
  intros Hc.
  assert (H : forall nm, In nm (map name (functions cs)) ->
                         contains nm (generated_docs generate style cs) = true).
  { intros nm Hn. apply in_map_iff in Hn as (f & <- & Hf).
    apply (contains_trans _ ("## Function: " +:+ name f)).
    - apply contains_app_r, contains_refl.
    - apply format_output_heading, document_all_keys, Hf. }
  split.
  - rewrite documented_all, length_map; [reflexivity|].
    intros nm Hn. apply contains_lower, H, Hn.
  - apply coverage_full. intros nm Hn. unfold element_names in Hn.
    rewrite Hc in Hn. simpl in Hn. rewrite app_nil_r in Hn. now apply H.
Qed.

Lemma generated_docs_cover_functions_witness :
  documented (generated_docs _generate_with_mock "Google" nested_names)
    (map name (functions nested_names))
  = List.length (functions nested_names)
  /\ exists s, calculate_coverage (generated_docs _generate_with_mock "Google" nested_names)
                 nested_names = Ok s
               /\ s == 100.
Proof.
  apply (generated_docs_cover_functions _generate_with_mock "Google" nested_names).
  reflexivity.
Defined.

(** X18.  The listing [generate_module_docs] writes names every function
    and every class of the structure, so against that structure it always
    reaches coverage 100, whatever the project name. *)
Theorem module_docs_cover_everything (cs : CodeStructure) (project_name : string) :
  documented (generate_module_docs cs project_name) (map name (functions cs))
  = List.length (functions cs)
  /\ documented (generate_module_docs cs project_name) (map cls_name (classes cs))
     = List.length (classes cs)
  /\ exists s, calculate_coverage (generate_module_docs cs project_name) cs = Ok s
               /\ s == 100.
Proof.
  assert (Hf : forall nm, In nm (map name (functions cs)) ->
                          contains nm (generate_module_docs cs project_name) = true).
  { intros nm Hn. apply in_map_iff in Hn as (f & <- & Hf).
    unfold generate_module_docs.
    apply (contains_in_join nl _
             ("    " +:+ name f +:+ ": " +:+ brief_of (docstring f) "Function")).
    - unfold module_doc_lines. apply in_or_app. right. apply in_or_app. left.
      destruct (functions cs) as [|g fs] eqn:E; [destruct Hf|].
      apply in_or_app. right. apply in_or_app. left.
      apply in_map_iff. now exists f.
    - apply contains_middle. }
  assert (Hc : forall nm, In nm (map cls_name (classes cs)) ->
                          contains nm (generate_module_docs cs project_name) = true).
  { intros nm Hn. apply in_map_iff in Hn as (c & <- & Hc).
    unfold generate_module_docs.
    apply (contains_in_join nl _
             ("    " +:+ cls_name c +:+ ": " +:+ brief_of (cls_docstring c) "Class")).
    - unfold module_doc_lines. apply in_or_app. right. apply in_or_app. right.
      apply in_or_app. left.
      destruct (classes cs) as [|g fs] eqn:E; [destruct Hc|].
      apply in_or_app. right. apply in_or_app. left.
      apply in_map_iff. now exists c.
    - apply contains_middle. }
  split; [|split].
  - rewrite documented_all, length_map; [reflexivity|].
    intros nm Hn. now apply contains_lower, Hf.
  - rewrite documented_all, length_map; [reflexivity|].
    intros nm Hn. now apply contains_lower, Hc.
  - apply coverage_full. intros nm Hn. unfold element_names in Hn.
    apply in_app_or in Hn as [Hn | Hn]; [now apply Hf | now apply Hc].
Qed.

(** ** The dict of the generation loop *)

Lemma dict_set_keys_in (k v k0 : string) (d : list (string * string)) :
  In k0 (map fst (dict_set k v d)) -> k0 = k \/ In k0 (map fst d).
Proof.
  induction d as [|[k' v'] d IH]; simpl.
  - intros [E | []]. now left.
  - destruct (String.eqb_spec k' k) as [-> | Hne]; simpl.
    + intros [E | H]; [now left | right; now right].
    + intros [E | H]; [right; now left|].
      destruct (IH H) as [E | H']; [now left | right; now right].
Qed.

Lemma dict_set_nodup (k v : string) (d : list (string * string)) :
  List.NoDup (map fst d) -> List.NoDup (map fst (dict_set k v d)).
Proof.
  induction d as [|[k' v'] d IH]; simpl; intros H.
  - constructor; [intros [] | constructor].
  - inversion H as [|? ? Hk Hd]; subst.
    destruct (String.eqb_spec k' k) as [-> | Hne]; simpl.
    + now constructor.
    + constructor; [|now apply IH].
      intros Hin. apply dict_set_keys_in in Hin as [E | Hin]; [congruence | now apply Hk].
Qed.

Lemma dict_set_lookup (k v k0 v0 : string) (d : list (string * string)) :
  List.NoDup (map fst d) ->
  In (k0, v0) (dict_set k v d) <-> (k0 = k /\ v0 = v) \/ (k0 <> k /\ In (k0, v0) d).
Proof.
  induction d as [|[k' v'] d IH]; simpl; intros H.
  - split.
    + intros [E | []]. injection E as <- <-. now left.
    + intros [[-> ->] | [_ []]]. now left.
  - inversion H as [|? ? Hk Hd]; subst. specialize (IH Hd).
    destruct (String.eqb_spec k' k) as [-> | Hne]; simpl.
    + split.
      * intros [E | Hin]; [injection E as <- <-; now left|].
        right. split; [|now right].
        intros ->. apply Hk. apply in_map_iff. now exists (k, v0).
      * intros [[-> ->] | [Hne [E | Hin]]]; [now left | | now right].
        injection E as E _. congruence.
    + rewrite IH. split.
      * intros [E | [[-> ->] | [Hne' Hin]]].
        -- injection E as <- <-. right. split; [congruence | now left].
        -- now left.
        -- right. split; [assumption | now right].
      * intros [[-> ->] | [Hne' [E | Hin]]].
        -- right. now left.
        -- now left.
        -- right. right. now split.
Qed.

Lemma document_all_snoc (generate : FunctionInfo -> DocumentationOutput)
    (style : string) (fs : list FunctionInfo) (f : FunctionInfo) :
  document_all generate style (fs ++ [f])%list
  = dict_set (name f) (generate_function_docs style f (generate f))
      (document_all generate style fs).
Proof. unfold document_all. now rewrite fold_left_app. Qed.

(** X19.  The dict filled by the generation loop holds every name once,
    and under a name the documentation of the last function of that name:
    when two functions share a name the documentation of the earlier one
    is dropped. *)
Theorem one_document_per_name
    (generate : FunctionInfo -> DocumentationOutput) (style : string)
    (fs : list FunctionInfo) :
  let all_docs := document_all generate style fs in
  List.NoDup (map fst all_docs)
  /\ (forall k v,
        In (k, v) all_docs <->
        exists f, last (List.filter (fun g => String.eqb (name g) k) fs) = Some f
                  /\ v = generate_function_docs style f (generate f))
  /\ (List.length all_docs <= List.length fs)%nat.
Proof.
  induction fs as [|f fs IH] using rev_ind.
  - split; [constructor | split; [|reflexivity]].
    intros k v. split; [intros [] | intros (f & H & _); discriminate].
  - cbv zeta in *. destruct IH as (Hn & Hl & Hlen).
    rewrite document_all_snoc. split; [now apply dict_set_nodup | split].
    + intros k v. rewrite dict_set_lookup by assumption.
      rewrite List.filter_app. simpl.
      destruct (String.eqb_spec (name f) k) as [E | Hne].
      * rewrite last_snoc. split.
        -- intros [[-> ->] | [Hk _]]; [now exists f | congruence].
        -- intros (g & Eg & ->). injection Eg as <-. now left.
      * rewrite app_nil_r, <- Hl. split.
        -- intros [[-> _] | [_ H]]; [congruence | exact H].
        -- intros H. right. split; [congruence | exact H].
    + rewrite length_app. simpl.
      clear - Hlen. revert Hlen.
      generalize (document_all generate style fs) as d.
      generalize (generate_function_docs style f (generate f)) as v.
      intros v d Hlen.
      assert (L : (List.length (dict_set (name f) v d) <= S (List.length d))%nat).
      { clear. induction d as [|[k' v'] d IH]; simpl; [lia|].
        destruct (String.eqb k' (name f)); simpl; lia. }
      lia.
Qed.

(** ** The values the consistency score takes *)

(** X20.  The consistency score is always one of 20, 40, 60, 80 and 100:
    twenty points for each of the five checks that holds. *)
Theorem consistency_is_a_multiple_of_20 (docs : string) :
  exists s, calculate_consistency docs = Ok s
            /\ s == 20 * inject_Z (Z.of_nat (List.length (List.filter id (consistency_checks docs))))
            /\ (1 <= List.length (List.filter id (consistency_checks docs)) <= 5)%nat.
Proof.
  unfold calculate_consistency.
  destruct (consistency_checks_shape docs) as (a & b & c & d & ->).
  destruct a, b, c, d;
    (eexists; split; [reflexivity | split; [vm_compute; reflexivity | simpl; lia]]).
Qed.

(** ** Where the length term gives full marks *)

Lemma length_term_below (L c : Q) :
  0 < c -> c <= Qabs (length_denominator L) ->
  fmul (b64 (1 / c)) 10 < 100 ->
  exists t, length_term L = Ok t /\ t < 100.
Proof.
  intros Hc Hd Hx. unfold length_term, fdiv.
  set (d := Qabs (length_denominator L)) in *.
  destruct (Qeq_bool d 0) eqn:E.
  { apply Qeq_bool_iff in E. lra. }
  simpl. eexists; split; [reflexivity|].
  assert (Hle : fmul (b64 (1 / d)) 10 <= fmul (b64 (1 / c)) 10).
  { apply fmul_mono; [discriminate|]. apply b64_mono.
    apply Qle_shift_div_l; [assumption|].
    assert (Eq : 1 / d * c == c / d) by (field; lra).
    rewrite Eq. apply Qle_shift_div_r; lra. }
  unfold pymin. destruct (Qlt_le_dec _ 100); lra.
Qed.

Lemma length_denominator_hundredths_mono (j k : Z) :
  (j <= k)%Z ->
  length_denominator (b64 (inject_Z j / 100))
  <= length_denominator (b64 (inject_Z k / 100)).
Proof.
  intros H. apply b64_mono, length_denominator_mono, hundredths_mono, H.
Qed.

Lemma length_term_plateau :
  forallb (fun n =>
             match length_term (b64 (inject_Z (80 + Z.of_nat n) / 100)) with
             | Ok t => Qeq_bool t 100
             | Raise _ => false
             end) (seq 0 21) = true.
Proof. vm_compute. reflexivity. Qed.

(** X21.  On a ratio of [k] hundredths the length term of the overall
    score is 100 exactly from 0.80 to 1.00 and smaller everywhere else,
    while the ratio is called balanced from 0.80 to 1.20: a balanced ratio
    above 1.00 does not get full marks. *)
Theorem length_term_full_marks_band (k : Z) :
  exists t, length_term (b64 (inject_Z k / 100)) = Ok t
            /\ (t == 100 <-> (80 <= k <= 100)%Z)
            /\ (_interpret_length_ratio (b64 (inject_Z k / 100)) = LengthBalanced
                <-> (80 <= k <= 120)%Z).
Proof.
  assert (Hterm : exists t, length_term (b64 (inject_Z k / 100)) = Ok t
                            /\ (t == 100 <-> (80 <= k <= 100)%Z)).
  { destruct (Z_lt_le_dec k 80) as [Hlo | Hlo]; [|destruct (Z_lt_le_dec 100 k) as [Hhi | Hhi]].
    - pose proof (length_denominator_hundredths_mono k 79 ltac:(lia)) as Hd.
      assert (H79 : length_denominator (b64 (inject_Z 79 / 100)) < 0)
        by (vm_compute; reflexivity).
      destruct (length_term_below (b64 (inject_Z k / 100))
                  (- length_denominator (b64 (inject_Z 79 / 100)))) as (t & Et & Ht).
      + lra.
      + rewrite Qabs_neg by lra. lra.
      + vm_compute. reflexivity.
      + exists t. split; [exact Et|]. split; [intros E; lra | lia].
    - pose proof (length_denominator_hundredths_mono 101 k ltac:(lia)) as Hd.
      assert (H101 : 0 < length_denominator (b64 (inject_Z 101 / 100)))
        by (vm_compute; reflexivity).
      destruct (length_term_below (b64 (inject_Z k / 100))
                  (length_denominator (b64 (inject_Z 101 / 100)))) as (t & Et & Ht).
      + exact H101.
      + rewrite Qabs_pos by lra. exact Hd.
      + vm_compute. reflexivity.
      + exists t. split; [exact Et|]. split; [intros E; lra | lia].
    - pose proof length_term_plateau as Hp.
      rewrite forallb_forall in Hp.
      specialize (Hp (Z.to_nat (k - 80))).
      replace (80 + Z.of_nat (Z.to_nat (k - 80)))%Z with k in Hp by lia.
      destruct (length_term (b64 (inject_Z k / 100))) as [t|e].
      + exists t. split; [reflexivity|]. split; [lia|]. intros _.
        apply Qeq_bool_iff, Hp, in_seq. lia.
      + exfalso. assert (false = true); [|discriminate].
        apply Hp, in_seq. lia. }
  destruct Hterm as (t & Et & Ht). exists t. split; [exact Et|]. split; [exact Ht|].
  unfold _interpret_length_ratio.
  assert (L80 : lit (8 # 10) = b64 (inject_Z 80 / 100)) by (apply b64_proper; reflexivity).
  assert (L120 : lit (12 # 10) = b64 (inject_Z 120 / 100)) by (apply b64_proper; reflexivity).
  assert (S79 : b64 (inject_Z 79 / 100) < b64 (inject_Z 80 / 100)) by (vm_compute; reflexivity).
  assert (S121 : b64 (inject_Z 120 / 100) < b64 (inject_Z 121 / 100)) by (vm_compute; reflexivity).
  rewrite L80, L120.
  destruct (Qle_bool (b64 (inject_Z 80 / 100)) (b64 (inject_Z k / 100))) eqn:E1;
    destruct (Qle_bool (b64 (inject_Z k / 100)) (b64 (inject_Z 120 / 100))) eqn:E2; simpl.
  - apply Qle_bool_iff in E1, E2. split; [intros _ | reflexivity].
    destruct (Z_lt_le_dec k 80) as [Hlo | Hlo].
    { pose proof (hundredths_mono k 79 ltac:(lia)). lra. }
    destruct (Z_lt_le_dec 120 k) as [Hhi | Hhi]; [|lia].
    pose proof (hundredths_mono 121 k ltac:(lia)). lra.
  - split; [discriminate|]. intros [H1 H2].
    pose proof (hundredths_mono k 120 H2) as H. apply Qle_bool_iff in H. congruence.
  - split; [discriminate|]. intros [H1 H2].
    pose proof (hundredths_mono 80 k H1) as H. apply Qle_bool_iff in H. congruence.
  - split; [discriminate|]. intros [H1 H2].
    pose proof (hundredths_mono 80 k H1) as H. apply Qle_bool_iff in H. congruence.
Qed.

(** ** The bands of the report *)

(** X22.  The label and the colour the formatter gives one score always
    form one of seven pairs -- [Excellent] is always green and red is
    always [Needs Improvement] -- and the formatter calls a length ratio
    ideal exactly when the evaluator calls it balanced. *)
Theorem formatter_bands_agree (score ratio : Q) :
  In (_get_label score, _get_color score)
     [("Excellent", "green"); ("Good", "green"); ("Good", "yellow");
      ("Fair", "yellow"); ("Fair", "orange");
      ("Needs Improvement", "orange"); ("Needs Improvement", "red")]
  /\ (length_status ratio = "ideal"
      <-> _interpret_length_ratio ratio = LengthBalanced).
Proof.
  split.
  - unfold _get_label, _get_color.
    destruct (Qle_bool 85 score) eqn:E85; destruct (Qle_bool 80 score) eqn:E80;
    destruct (Qle_bool 70 score) eqn:E70; destruct (Qle_bool 60 score) eqn:E60;
    destruct (Qle_bool 55 score) eqn:E55; destruct (Qle_bool 40 score) eqn:E40;
    simpl; auto 8;
    exfalso;
    repeat match goal with
    | H : Qle_bool _ _ = true |- _ => apply Qle_bool_iff in H
    | H : Qle_bool _ _ = false |- _ =>
        apply not_true_iff_false in H; rewrite Qle_bool_iff in H
    end; lra.
  - unfold length_status, _interpret_length_ratio.
    destruct (Qle_bool (lit (8 # 10)) ratio && Qle_bool ratio (lit (12 # 10))).
    + split; reflexivity.
    + split; [discriminate|]. now destruct (negb _).
Qed.

Local Close Scope Q_scope.

(** ** The comparison table *)

Lemma string_compare_trans (s1 s2 s3 : string) :
  String.compare s1 s2 <> Gt -> String.compare s2 s3 <> Gt ->
  String.compare s1 s3 <> Gt.
Proof.
  revert s2 s3. induction s1 as [|a s1 IH]; intros [|b s2] [|c s3]; simpl; try easy.
  unfold Ascii.compare.
  destruct (N.compare_spec (N_of_ascii a) (N_of_ascii b)) as [E1 | L1 | G1];
    destruct (N.compare_spec (N_of_ascii b) (N_of_ascii c)) as [E2 | L2 | G2];
    destruct (N.compare_spec (N_of_ascii a) (N_of_ascii c)) as [E3 | L3 | G3];
    try easy; try lia.
  apply IH.
Qed.

Lemma string_le_trans (a b c : string) : string_le a b -> string_le b c -> string_le a c.
Proof.
  unfold string_le, String.leb. intros H1 H2.
  pose proof (string_compare_trans a b c) as T.
  destruct (String.compare a b); destruct (String.compare b c);
    destruct (String.compare a c); try easy; exfalso; apply T; easy.
Qed.

Lemma string_lt_of_le (a b : string) : string_le a b -> a <> b -> String.ltb a b = true.
Proof.
  unfold string_le, String.leb, String.ltb. intros H Hne.
  destruct (String.compare a b) eqn:E; try easy.
  now apply String.compare_eq_iff in E.
Qed.

Lemma strictly_sorted (l : list string) :
  StronglySorted string_le l -> NoDup l ->
  StronglySorted (fun a b => String.ltb a b = true) l.
Proof.
  induction 1 as [|x l Hl IH Hx]; intros Hn; [constructor|].
  apply NoDup_cons in Hn as [Hx' Hn].
  constructor; [now apply IH|].
  apply Forall_forall. intros y Hy.
  apply string_lt_of_le.
  - rewrite Forall_forall in Hx. now apply Hx.
  - intros ->. contradiction.
Qed.

Lemma sorted_spec (S : gset string) :
  StronglySorted (fun a b => String.ltb a b = true) (sorted S)
  /\ forall x, In x (sorted S) <-> x ∈ S.
Proof.
  unfold sorted.
  assert (Hs : StronglySorted string_le (merge_sort string_le (elements S))).
  { assert (HT : Transitive string_le) by (intros a b c; apply string_le_trans).
    assert (HO : Total string_le) by (intros a b; apply String.leb_total).
    exact (@StronglySorted_merge_sort _ string_le _ HT HO (elements S)). }
  assert (Hp : merge_sort string_le (elements S) ≡ₚ elements S)
    by apply merge_sort_Permutation.
  assert (Hn : NoDup (merge_sort string_le (elements S))).
  { rewrite Hp. apply NoDup_elements. }
  split.
  - now apply strictly_sorted.
  - intros x. rewrite <- list_elem_of_In, Hp. apply elem_of_elements.
Qed.

Lemma among_In (k : string) (l : list string) : among k l = true <-> In k l.
Proof.
  unfold among. rewrite existsb_exists. split.
  - intros (x & Hx & E). apply String.eqb_eq in E. now subst.
  - intros H. exists k. split; [assumption | apply String.eqb_refl].
Qed.

Lemma dict_get_Some (k v : string) (d : list (string * string)) :
  dict_get k d = Some v -> In (k, v) d.
Proof.
  induction d as [|[k' v'] d IH]; simpl; [discriminate|].
  destruct (String.eqb_spec k' k) as [-> | Hne].
  - intros E. injection E as ->. now left.
  - intros H. right. now apply IH.
Qed.

Lemma dict_get_None (k : string) (d : list (string * string)) :
  dict_get k d = None <-> ~ In k (map fst d).
Proof.
  induction d as [|[k' v'] d IH]; simpl; [tauto|].
  destruct (String.eqb_spec k' k) as [-> | Hne].
  - split; [discriminate | intros H; exfalso; apply H; now left].
  - rewrite IH. split; [intros H [E | H']; [congruence | contradiction] | tauto].
Qed.

Lemma table_names (ai_docs human_docs : string) :
  map row_function (generate_comparison_table ai_docs human_docs)
  = sorted (list_to_set (map fst (_split_by_function ai_docs))
            ∪ list_to_set (map fst (_split_by_function human_docs))).
Proof.
  unfold generate_comparison_table. rewrite map_map. simpl. apply map_id.
Qed.

(** X23.  The comparison table has one row for every function name that
    heads a section of either document and no other row; the rows are in
    strictly increasing order of the names, so no name comes twice; a row
    is a match exactly when both documents have the section, and a missing
    section shows as the placeholder text. *)
Theorem comparison_table_rows (ai_docs human_docs : string) :
  let ai_sections := _split_by_function ai_docs in
  let human_sections := _split_by_function human_docs in
  let rows := generate_comparison_table ai_docs human_docs in
  StronglySorted (fun a b => String.ltb a b = true) (map row_function rows)
  /\ (forall f, In f (map row_function rows)
                <-> In f (map fst ai_sections) \/ In f (map fst human_sections))
  /\ Forall (fun r =>
               (row_match r = true
                <-> In (row_function r) (map fst ai_sections)
                    /\ In (row_function r) (map fst human_sections))
               /\ (In (row_function r, ai_doc r) ai_sections
                   \/ (~ In (row_function r) (map fst ai_sections)
                       /\ ai_doc r = not_documented))
               /\ (In (row_function r, human_doc r) human_sections
                   \/ (~ In (row_function r) (map fst human_sections)
                       /\ human_doc r = not_documented)))
            rows.
Proof.
  intros ai_sections human_sections rows.
  unfold rows. rewrite table_names. fold ai_sections human_sections.
  destruct (sorted_spec (list_to_set (map fst ai_sections)
                         ∪ list_to_set (map fst human_sections))) as [Hs Hm].
  split; [exact Hs|]. split.
  - intros f. rewrite Hm, elem_of_union, !elem_of_list_to_set, !list_elem_of_In.
    reflexivity.
  - unfold generate_comparison_table. fold ai_sections human_sections.
    apply Forall_forall. intros r Hr.
    apply list_elem_of_In, in_map_iff in Hr as (f & <- & _). simpl.
    split; [|split].
    + rewrite andb_true_iff, !among_In. reflexivity.
    + destruct (dict_get f ai_sections) as [v|] eqn:E.
      * left. now apply dict_get_Some.
      * right. split; [now apply dict_get_None | reflexivity].
    + destruct (dict_get f human_sections) as [v|] eqn:E.
      * left. now apply dict_get_Some.
      * right. split; [now apply dict_get_None | reflexivity].
Qed.

Lemma three_way_count {A} (p q r : A -> bool) (l : list A) :
  Forall (fun x => (p x = true /\ q x = false /\ r x = false)
                   \/ (p x = false /\ q x = true /\ r x = false)
                   \/ (p x = false /\ q x = false /\ r x = true)) l ->
  (List.length (List.filter p l) + List.length (List.filter q l)
   + List.length (List.filter r l) = List.length l)%nat.
Proof.
  induction 1 as [|x l Hx _ IH]; [reflexivity|]. simpl.
  destruct Hx as [(-> & -> & ->) | [(-> & -> & ->) | (-> & -> & ->)]]; simpl; lia.
Qed.

(** X24.  When no section of either document reads exactly as the
    placeholder [(Not documented)], the three counts of the summary --
    documented in both, only by the AI, only by the human -- add up to the
    number of rows. *)
Theorem comparison_summary_adds_up (ai_docs human_docs : string) :
  (forall k v, In (k, v) (_split_by_function ai_docs) -> v <> not_documented) ->
  (forall k v, In (k, v) (_split_by_function human_docs) -> v <> not_documented) ->
  let counts := format_comparison_summary (generate_comparison_table ai_docs human_docs) in
  (both_documented counts + only_ai counts + only_human counts
   = total_functions counts)%nat.
Proof.
  intros Ha Hh. simpl. apply three_way_count.
  pose proof (sorted_spec (list_to_set (map fst (_split_by_function ai_docs))
                           ∪ list_to_set (map fst (_split_by_function human_docs))))
    as [_ Hm].
  unfold generate_comparison_table. apply Forall_forall. intros r Hr.
  apply list_elem_of_In, in_map_iff in Hr as (f & <- & Hf). simpl.
  apply Hm in Hf. rewrite elem_of_union, !elem_of_list_to_set, !list_elem_of_In in Hf.
  destruct (dict_get f (_split_by_function ai_docs)) as [v|] eqn:Ea;
    destruct (dict_get f (_split_by_function human_docs)) as [w|] eqn:Eh; simpl.
  - left.
    assert (Hv : v <> not_documented) by (eapply Ha, dict_get_Some, Ea).
    assert (Hw : w <> not_documented) by (eapply Hh, dict_get_Some, Eh).
    apply String.eqb_neq in Hv, Hw. rewrite Hv, Hw.
    assert (Ia : among f (map fst (_split_by_function ai_docs)) = true).
    { apply among_In. apply dict_get_Some in Ea. apply in_map_iff. now exists (f, v). }
    assert (Ih : among f (map fst (_split_by_function human_docs)) = true).
    { apply among_In. apply dict_get_Some in Eh. apply in_map_iff. now exists (f, w). }
    now rewrite Ia, Ih.
  - right. left.
    assert (Hv : v <> not_documented) by (eapply Ha, dict_get_Some, Ea).
    apply String.eqb_neq in Hv. rewrite Hv.
    assert (Ih : among f (map fst (_split_by_function human_docs)) = false).
    { apply not_true_iff_false. rewrite among_In. now apply dict_get_None. }
    rewrite Ih, andb_false_r. repeat split.
  - right. right.
    assert (Hw : w <> not_documented) by (eapply Hh, dict_get_Some, Eh).
    apply String.eqb_neq in Hw. rewrite Hw.
    assert (Ia : among f (map fst (_split_by_function ai_docs)) = false).
    { apply not_true_iff_false. rewrite among_In. now apply dict_get_None. }
    rewrite Ia. repeat split.
  - exfalso. apply dict_get_None in Ea, Eh. tauto.
Qed.

Lemma comparison_summary_adds_up_witness :
  let counts :=
    format_comparison_summary
      (generate_comparison_table
         ("## Function: area" +:+ nl +:+ "Computes the area." +:+ nl +:+
          "## Function: scale" +:+ nl +:+ "Scales a shape.")
         ("def area(r):" +:+ nl +:+ "    Area of a circle.")) in
  (both_documented counts + only_ai counts + only_human counts
   = total_functions counts)%nat.
Proof.
  apply comparison_summary_adds_up.
  - intros k v H. vm_compute in H.
    destruct H as [H | [H | []]]; injection H as <- <-; discriminate.
  - intros k v H. vm_compute in H.
    destruct H as [H | []]; injection H as <- <-; discriminate.
Defined.

(** ** Splitting the generated document again *)

Lemma split_char_app_sep (c : ascii) (a b : string) :
  split_char c (a +:+ String c b) = (split_char c a ++ split_char c b)%list.
Proof.
  induction a as [|x a IH].
  - change ("" +:+ String c b) with (String c b). cbn [split_char].
    now rewrite Ascii.eqb_refl.
  - change (String x a +:+ String c b) with (String x (a +:+ String c b)).
    cbn [split_char]. rewrite IH.
    destruct (Ascii.eqb x c); [reflexivity|].
    destruct (split_char c a) as [|h t] eqn:E; [|reflexivity].
    pose proof (split_char_length c a) as L. rewrite E in L. discriminate.
Qed.

Lemma split_char_join (l : list string) :
  l <> [] -> split_char "010" (join nl l) = flat_map (split_char "010") l.
Proof.
  induction l as [|x l IH]; [congruence|]. intros _.
  destruct l as [|y l].
  - simpl. now rewrite app_nil_r.
  - change (join nl (x :: y :: l)) with (x +:+ String "010" (join nl (y :: l))).
    rewrite split_char_app_sep, IH by discriminate. reflexivity.
Qed.

Lemma split_char_one_line (s : string) :
  contains nl s = false -> split_char "010" s = [s].
Proof.
  induction s as [|c s IH]; [reflexivity|].
  cbn [contains startswith nl]. intros H.
  apply orb_false_iff in H as [H1 H2].
  cbn [split_char]. rewrite IH by assumption.
  destruct (Ascii.eqb_spec c "010") as [-> | Hc]; [discriminate | reflexivity].
Qed.

Lemma split_from_absent (sep s : string) :
  contains sep s = false -> split_from sep 0 s = [s].
Proof.
  induction s as [|c s IH]; [reflexivity|].
  cbn [contains]. intros H. apply orb_false_iff in H as [H1 H2].
  cbn [split_from]. now rewrite H1, IH.
Qed.

Lemma heading_name (k : string) :
  contains "Function:" k = false -> strip k = k ->
  strip (List.last (split_str "Function:" ("## Function: " +:+ k)) EmptyString) = k.
Proof.
  intros Hc Hs. unfold split_str.
  change ("## Function: " +:+ k)
    with (String "#" (String "#" (String " " ("Function:" +:+ String " " k)))).
  assert (E : split_from "Function:" 0 ("Function:" +:+ String " " k)
              = [""; String " " k]).
  { change ("Function:" +:+ String " " k)
      with (String "F" (String "u" (String "n" (String "c" (String "t"
             (String "i" (String "o" (String "n" (String ":" (String " " k)))))))))).
    cbn [split_from startswith String.length Nat.sub Ascii.eqb Bool.eqb andb].
    rewrite (split_from_absent "Function:" k Hc). reflexivity. }
  cbn [split_from startswith Ascii.eqb Bool.eqb andb].
  rewrite E. simpl List.last. exact Hs.
Qed.

Lemma plain_lines_fold (S : list (string * string)) (k : string) (c ls : list string) :
  k <> "" ->
  Forall (fun line => (contains "##" line && contains "Function:" line)
                      || startswith "def " line = false) ls ->
  fold_left split_step ls {| sections := S; current_func := Some k; current_content := c |}
  = {| sections := S; current_func := Some k; current_content := (c ++ ls)%list |}.
Proof.
  intros Hk H. revert c. induction H as [|line ls Hl _ IH]; intros c.
  - simpl. now rewrite app_nil_r.
  - cbn [fold_left]. apply orb_false_iff in Hl as [H1 H2].
    unfold split_step at 2. rewrite H1, H2. cbn [current_func truthy_opt].
    rewrite (truthy_nonempty k Hk). cbn [sections current_content].
    rewrite IH. now rewrite <- app_assoc.
Qed.

Lemma join_nl_cons (x : string) (l : list string) :
  l <> [] -> join nl (x :: l) = x +:+ nl +:+ join nl l.
Proof. destruct l; [congruence | reflexivity]. Qed.

Lemma join_app_nl (a b : list string) :
  a <> [] -> b <> [] -> join nl (a ++ b) = join nl a +:+ nl +:+ join nl b.
Proof.
  induction a as [|x a IH]; [congruence|]. intros _ Hb.
  destruct a as [|y a].
  - simpl app. now rewrite join_nl_cons.
  - change ((x :: y :: a) ++ b)%list with (x :: ((y :: a) ++ b))%list.
    rewrite join_nl_cons by discriminate. rewrite IH by (assumption || discriminate).
    rewrite (join_nl_cons x (y :: a)) by discriminate.
    now rewrite !sapp_assoc.
Qed.

Lemma entry_fold (st : splitter) (k v : string) :
  k <> "" -> strip k = k -> contains nl k = false -> contains "Function:" k = false ->
  Forall (fun line => (contains "##" line && contains "Function:" line)
                      || startswith "def " line = false) (split_char "010" v) ->
  save (fold_left split_step
          (flat_map (split_char "010")
             ["## Function: " +:+ k; ""; v; ""; repeat_char "-" 60; ""]) st)
  = dict_set k (nl +:+ v +:+ nl +:+ nl +:+ repeat_char "-" 60 +:+ nl) (save st)
  /\ current_func
       (fold_left split_step
          (flat_map (split_char "010")
             ["## Function: " +:+ k; ""; v; ""; repeat_char "-" 60; ""]) st) = Some k.
Proof.
  intros Hk Hs Hn Hc Hv.
  assert (El : flat_map (split_char "010")
                 ["## Function: " +:+ k; ""; v; ""; repeat_char "-" 60; ""]
               = ("## Function: " +:+ k)
                   :: ("" :: split_char "010" v ++ [""; repeat_char "-" 60; ""])%list).
  { cbn [flat_map]. rewrite split_char_one_line.
    - rewrite (split_char_one_line (repeat_char "-" 60)) by reflexivity.
      cbn [split_char app]. reflexivity.
    - change ("## Function: " +:+ k)
        with (String "#" (String "#" (String " " ("Function: " +:+ k)))).
      cbn [contains startswith nl Ascii.eqb Bool.eqb andb orb].
      change ("Function: " +:+ k)
        with (String "F" (String "u" (String "n" (String "c" (String "t"
               (String "i" (String "o" (String "n" (String ":" (String " " k)))))))))).
      cbn [contains startswith nl Ascii.eqb Bool.eqb andb orb]. exact Hn. }
  rewrite El.
  set (rest := ("" :: split_char "010" v ++ [""; repeat_char "-" 60; ""])%list).
  change (fold_left split_step (("## Function: " +:+ k) :: rest) st)
    with (fold_left split_step rest (split_step st ("## Function: " +:+ k))).
  assert (E1 : split_step st ("## Function: " +:+ k)
               = {| sections := save st; current_func := Some k; current_content := [] |}).
  { unfold split_step.
    rewrite (contains_app_l "##" "## Function: " k) by reflexivity.
    rewrite (contains_app_l "Function:" "## Function: " k) by reflexivity.
    cbn [andb]. now rewrite heading_name. }
  rewrite E1. unfold rest. rewrite plain_lines_fold.
  - split; [|reflexivity].
    unfold save. cbn [current_func current_content sections].
    rewrite (truthy_nonempty k Hk). f_equal.
    cbn [app]. rewrite join_nl_cons.
    + rewrite join_app_nl; [|intros E; pose proof (split_char_length "010" v) as L;
                              rewrite E in L; discriminate | discriminate].
      rewrite join_split_char. reflexivity.
    + destruct (split_char "010" v); discriminate.
  - exact Hk.
  - constructor; [reflexivity|]. apply Forall_app. split; [exact Hv|].
    repeat constructor.
Qed.

Lemma dict_set_fresh (k v : string) (d : list (string * string)) :
  ~ In k (map fst d) -> dict_set k v d = (d ++ [(k, v)])%list.
Proof.
  induction d as [|[k' v'] d IH]; simpl; intros H; [reflexivity|].
  destruct (String.eqb_spec k' k) as [-> | Hne]; [exfalso; apply H; now left|].
  rewrite IH; [reflexivity | tauto].
Qed.

Lemma fresh_entries_fold (g : string -> string) (d S : list (string * string)) :
  List.NoDup (map fst S ++ map fst d) ->
  fold_left (fun acc '(k, v) => dict_set k (g v) acc) d S
  = (S ++ map (fun '(k, v) => (k, g v)) d)%list.
Proof.
  revert S. induction d as [|[k v] d IH]; intros S H; simpl.
  - now rewrite app_nil_r.
  - rewrite dict_set_fresh.
    + rewrite IH.
      * now rewrite <- app_assoc.
      * rewrite map_app, <- app_assoc. exact H.
    + apply NoDup_remove_2 in H. intros Hin. apply H, in_or_app. now left.
Qed.

Lemma entries_fold (d : list (string * string)) (st : splitter) :
  Forall (fun '(k, v) =>
            k <> "" /\ strip k = k /\ contains nl k = false
            /\ contains "Function:" k = false
            /\ Forall (fun line => (contains "##" line && contains "Function:" line)
                                   || startswith "def " line = false)
                      (split_char "010" v)) d ->
  save (fold_left split_step
          (flat_map (split_char "010")
             (flat_map (fun '(func_name, docstring) =>
                          ["## Function: " +:+ func_name; ""; docstring; "";
                           repeat_char "-" 60; ""]) d)) st)
  = fold_left
      (fun acc '(k, v) =>
         dict_set k (nl +:+ v +:+ nl +:+ nl +:+ repeat_char "-" 60 +:+ nl) acc)
      d (save st).
Proof.
  intros H. revert st. induction H as [|[k v] d (Hk & Hs & Hn & Hc & Hv) _ IH]; intros st.
  - reflexivity.
  - cbn [flat_map fold_left].
    rewrite flat_map_app, fold_left_app, IH.
    f_equal. apply (entry_fold st k v Hk Hs Hn Hc Hv).
Qed.

(** X25.  [_split_by_function] undoes [format_output]: for a dict whose
    names are non-empty, without blanks around them, without a newline and
    without the text [Function:], and whose documentation has no heading
    line and no line that starts with [def ], splitting the formatted
    document gives the names back in order, each with its documentation
    between the blank line above and the rule below. *)
Theorem split_recovers_format_output (all_docs : list (string * string)) :
  List.NoDup (map fst all_docs) ->
  Forall (fun '(k, v) =>
            k <> "" /\ strip k = k /\ contains nl k = false
            /\ contains "Function:" k = false
            /\ Forall (fun line => (contains "##" line && contains "Function:" line)
                                   || startswith "def " line = false)
                      (split_char "010" v)) all_docs ->
  _split_by_function (format_output all_docs)
  = map (fun '(k, v) => (k, nl +:+ v +:+ nl +:+ nl +:+ repeat_char "-" 60 +:+ nl))
        all_docs.
Proof.
  intros Hn H. unfold _split_by_function, format_output.
  rewrite split_char_join by discriminate.
  unfold output_items. rewrite flat_map_app, fold_left_app.
  change (fold_left split_step
            (flat_map (split_char "010")
               ["# Generated Documentation" +:+ nl; repeat_char "=" 60; ""])
            {| sections := []; current_func := None; current_content := [] |})
    with {| sections := []; current_func := None; current_content := [] |}.
  rewrite (entries_fold all_docs _ H).
  now rewrite (fresh_entries_fold
                 (fun v => nl +:+ v +:+ nl +:+ nl +:+ repeat_char "-" 60 +:+ nl)).
Qed.

Lemma split_recovers_format_output_witness :
  _split_by_function
    (format_output [("area", "Area of a circle." +:+ nl +:+ "Args:" +:+ nl +:+ "    r: radius");
                    ("scale", "Scales a shape.")])
  = [("area", nl +:+ ("Area of a circle." +:+ nl +:+ "Args:" +:+ nl +:+ "    r: radius")
              +:+ nl +:+ nl +:+ repeat_char "-" 60 +:+ nl);
     ("scale", nl +:+ "Scales a shape." +:+ nl +:+ nl +:+ repeat_char "-" 60 +:+ nl)].
Proof.
  apply (split_recovers_format_output
           [("area", "Area of a circle." +:+ nl +:+ "Args:" +:+ nl +:+ "    r: radius");
            ("scale", "Scales a shape.")]).
  - repeat constructor; simpl; intuition discriminate.
  - repeat constructor; discriminate.
Defined.

Local Open Scope Q_scope.

(** ** The consistency of the documents the generator writes *)

Lemma checks_of_contents (docs : string) :
  exists d,
    consistency_checks docs
    = [search (fun s => imatches "Args:" s || imatches "Parameters:" s) docs;
       search (fun s => imatches "Returns:" s || imatches "Return:" s) docs;
       search (fun s => startswith "Example" s || startswith ">>>" s) docs;
       d; true]
    /\ (contains "Args:" docs = true ->
        search (fun s => imatches "Args:" s || imatches "Parameters:" s) docs = true)
    /\ (contains "Returns:" docs = true ->
        search (fun s => imatches "Returns:" s || imatches "Return:" s) docs = true)
    /\ (contains "Example" docs = true ->
        search (fun s => startswith "Example" s || startswith ">>>" s) docs = true).
Proof.
  eexists. split; [|split; [|split]].
  - unfold consistency_checks. repeat f_equal.
    destruct (param_findall true 0 docs); reflexivity.
  - rewrite contains_search. apply search_weaken. intros t Ht.
    now rewrite (imatch_startswith "Args:" t Ht).
  - rewrite contains_search. apply search_weaken. intros t Ht.
    now rewrite (imatch_startswith "Returns:" t Ht).
  - rewrite contains_search. apply search_weaken. intros t Ht. now rewrite Ht.
Qed.

Lemma generated_docs_contain (generate : FunctionInfo -> DocumentationOutput)
    (style : string) (fs : list FunctionInfo) (f : FunctionInfo) (marker : string) :
  contains marker (generate_function_docs style f (generate f)) = true ->
  contains marker (format_output (document_all generate style (fs ++ [f]))) = true.
Proof.
  intros H. rewrite document_all_snoc.
  set (v := generate_function_docs style f (generate f)) in *.
  set (d := document_all generate style fs).
  assert (Hin : In (name f, v) (dict_set (name f) v d)).
  { clear. induction d as [|[k' v'] d IH]; simpl; [now left|].
    destruct (String.eqb k' (name f)); [now left | now right]. }
  unfold format_output. apply (contains_in_join nl marker v); [|exact H].
  unfold output_items. apply in_or_app. right.
  apply in_flat_map. exists (name f, v). split; [exact Hin|]. simpl. tauto.
Qed.

(** X26.  For a structure with at least one function, the document the
    generation loop writes from the payloads of the interface (in either
    mode) always passes the examples check, so its consistency is at least
    40; in any style but NumPy it also passes the returns check (at least
    60), and when moreover every function has a parameter other than
    [self] the parameters check as well (at least 80). *)
Theorem generated_docs_consistency (complete : string -> option string)
    (self : interface) (style : string) (cs : CodeStructure) :
  functions cs <> [] ->
  let docs := generated_docs (generate_documentation complete self) style cs in
  exists s, calculate_consistency docs = Ok s
            /\ 40 <= s
            /\ nth 2 (consistency_checks docs) false = true
            /\ (lower style <> "numpy" ->
                60 <= s
                /\ nth 1 (consistency_checks docs) false = true
                /\ (Forall (fun f => non_self (params f) <> []) (functions cs) ->
                    80 <= s /\ nth 0 (consistency_checks docs) false = true)).
Proof.
  intros Hne docs.
  destruct (exists_last Hne) as (fs & f & Efs).
  destruct (payload_returns_and_examples complete self f) as [Pr Pe].
  assert (R : examples (generate_documentation complete self f) <> []).
  { intros E. rewrite E in Pe. discriminate Pe. }
  destruct (section_lines f _ Pr R) as (Gr & Ge & Ga & _ & _ & Ne & _ & _).
  set (out := generate_documentation complete self f) in *.
  assert (Hex : contains "Example" docs = true).
  { unfold docs, generated_docs. rewrite Efs. apply generated_docs_contain.
    unfold generate_function_docs, _format_google_style, _format_numpy_style.
    destruct (String.eqb _ "google"); [|destruct (String.eqb _ "numpy")].
    - apply (contains_in_join nl _ "Examples:"); [exact Ge | reflexivity].
    - apply (contains_in_join nl _ "Examples"); [exact Ne | reflexivity].
    - apply (contains_in_join nl _ "Examples:"); [exact Ge | reflexivity]. }
  assert (Hret : lower style <> "numpy" -> contains "Returns:" docs = true).
  { intros Hs. unfold docs, generated_docs. rewrite Efs. apply generated_docs_contain.
    unfold generate_function_docs, _format_google_style, DocGenExt.__init__.
    apply String.eqb_neq in Hs. rewrite Hs.
    destruct (String.eqb _ "google");
      (apply (contains_in_join nl _ "Returns:"); [exact Gr | reflexivity]). }
  assert (Harg : lower style <> "numpy" ->
                 Forall (fun f => non_self (params f) <> []) (functions cs) ->
                 contains "Args:" docs = true).
  { intros Hs Hp. unfold docs, generated_docs. rewrite Efs. apply generated_docs_contain.
    unfold generate_function_docs, _format_google_style, DocGenExt.__init__.
    apply String.eqb_neq in Hs. rewrite Hs.
    rewrite Efs in Hp. apply Forall_app in Hp as [_ Hp].
    apply Forall_cons_1 in Hp as [Hp _].
    destruct Ga as [Ga | Ga]; [contradiction|].
    destruct (String.eqb _ "google");
      (apply (contains_in_join nl _ "Args:"); [exact Ga | reflexivity]). }
  destruct (checks_of_contents docs) as (d & E & Ca & Cr & Ce).
  unfold calculate_consistency. rewrite E.
  rewrite (Ce Hex).
  destruct (search (fun s => imatches "Args:" s || imatches "Parameters:" s) docs) eqn:Sa;
    destruct (search (fun s => imatches "Returns:" s || imatches "Return:" s) docs) eqn:Sr;
    destruct d;
    (eexists; split; [reflexivity|]; split; [vm_compute; discriminate|];
     split; [reflexivity|]; intros Hs;
     first
       [ exfalso; pose proof (Cr (Hret Hs)); congruence
       | split; [vm_compute; discriminate|]; split; [reflexivity|]; intros Hp;
         first
           [ exfalso; pose proof (Ca (Harg Hs Hp)); congruence
           | split; [vm_compute; discriminate | reflexivity] ] ]).
Qed.

Lemma generated_docs_consistency_witness :
  let docs := generated_docs (generate_documentation steady_service keyed) "google"
                (mkCodeStructure [price_function] [] None 2 true None) in
  exists s, calculate_consistency docs = Ok s
            /\ 40 <= s
            /\ nth 2 (consistency_checks docs) false = true
            /\ (lower "google" <> "numpy" ->
                60 <= s
                /\ nth 1 (consistency_checks docs) false = true
                /\ (Forall (fun f => non_self (params f) <> [])
                      (functions (mkCodeStructure [price_function] [] None 2 true None)) ->
                    80 <= s /\ nth 0 (consistency_checks docs) false = true)).
Proof.
  apply (generated_docs_consistency steady_service keyed "google"
           (mkCodeStructure [price_function] [] None 2 true None)).
  discriminate.
Defined.

Local Close Scope Q_scope.

(** ** Splitting a camelCase name loses no character *)

Lemma span_len_le (p : ascii -> bool) (s : string) : (span_len p s <= String.length s)%nat.
Proof. induction s as [|c s IH]; simpl; [lia|]. destruct (p c); simpl; lia. Qed.

Lemma span_len_stops (p : ascii -> bool) (s : string) :
  match drop (span_len p s) s with
  | EmptyString => True
  | String d _ => p d = false
  end.
Proof.
  induction s as [|c s IH]; simpl; [exact I|].
  destruct (p c) eqn:E; simpl; [exact IH | exact E].
Qed.

Lemma span_len_last (p : ascii -> bool) (s : string) (n : nat) :
  span_len p s = S n ->
  exists e, drop n s = String e (drop (S n) s) /\ p e = true.
Proof.
  revert n. induction s as [|c s IH]; intros n; simpl; [discriminate|].
  destruct (p c) eqn:E; [|discriminate]. intros H. injection H as H.
  destruct n as [|m].
  - exists c. split; [reflexivity | exact E].
  - destruct (IH m H) as (e & E1 & E2). exists e. split; [exact E1 | exact E2].
Qed.

Lemma drop_length_le (k : nat) (s : string) :
  (String.length (drop k s) <= String.length s)%nat.
Proof.
  revert s. induction k as [|k IH]; intros [|c s]; simpl; try lia.
  specialize (IH s). lia.
Qed.

Lemma name_findall_skip (k : nat) (s : string) :
  name_findall k s = name_findall 0 (drop k s).
Proof.
  revert s. induction k as [|k IH]; intros [|c s]; try reflexivity.
  simpl. apply IH.
Qed.

Lemma capitals_match_some (n : nat) (s : string) :
  (exists k, (1 <= k <= n)%nat /\ name_lookahead (drop k s) = true) ->
  exists k, (1 <= k <= n)%nat /\ capitals_match n s = Some k.
Proof.
  induction n as [|n IH]; intros (k & Hk & Hl); [lia|].
  cbn [capitals_match].
  destruct (name_lookahead (drop (S n) s)) eqn:E.
  - exists (S n). split; [lia | reflexivity].
  - destruct (Nat.eq_dec k (S n)) as [-> | Hne]; [congruence|].
    destruct IH as (k' & Hk' & E').
    + exists k. split; [lia | exact Hl].
    + exists k'. split; [lia | exact E'].
Qed.

Lemma alnum_drop (k : nat) (s : string) :
  forallb (fun c => is_az c || is_AZ c || is_digit c) (list_ascii_of_string s) = true ->
  forallb (fun c => is_az c || is_AZ c || is_digit c) (list_ascii_of_string (drop k s))
  = true.
Proof.
  revert s. induction k as [|k IH]; intros [|c s] H; try exact H.
  simpl in H. apply andb_true_iff in H as [_ H]. now apply IH.
Qed.

Lemma name_token_at_alnum (c : ascii) (s : string) :
  forallb (fun c => is_az c || is_AZ c || is_digit c)
          (list_ascii_of_string (String c s)) = true ->
  exists k, (1 <= k <= S (String.length s))%nat
            /\ name_token_at (String c s) = Some (take k (String c s)).
Proof.
  intros Hal. pose proof Hal as Hc. simpl in Hc. apply andb_true_iff in Hc as [Hc Hs].
  unfold name_token_at.
  destruct (is_AZ c && (0 <? span_len is_az s)%nat) eqn:B1.
  { exists (S (span_len is_az s)). pose proof (span_len_le is_az s).
    split; [lia | reflexivity]. }
  destruct (is_az c) eqn:B2.
  { exists (span_len is_az (String c s)). simpl. rewrite B2.
    pose proof (span_len_le is_az s). split; [lia | reflexivity]. }
  destruct (is_AZ c) eqn:B3.
  { simpl in B1. apply Nat.ltb_ge in B1.
    destruct (capitals_match_some (span_len is_AZ (String c s)) (String c s))
      as (k & Hk & ->).
    - pose proof (span_len_stops is_AZ (String c s)) as Hstop.
      pose proof (alnum_drop (span_len is_AZ (String c s)) _ Hal) as Hd.
      cbn [span_len] in *. rewrite B3 in *.
      destruct (drop (S (span_len is_AZ s)) (String c s)) as [|d r] eqn:Ed.
      + exists (S (span_len is_AZ s)). split; [lia|]. now rewrite Ed.
      + simpl in Hd. apply andb_true_iff in Hd as [Hd _].
        rewrite Hstop, orb_false_r in Hd.
        destruct (is_digit d) eqn:Dd.
        * exists (S (span_len is_AZ s)). split; [lia|]. rewrite Ed. simpl.
          rewrite Dd. now rewrite orb_true_r.
        * rewrite orb_false_r in Hd.
          destruct (span_len is_AZ s) as [|m] eqn:Em.
          -- exfalso. simpl in Ed. subst s. simpl in B1. rewrite Hd in B1. lia.
          -- exists (S m). split; [lia|].
             destruct (span_len_last is_AZ (String c s) (S m)) as (e & E1 & E2).
             { simpl. now rewrite B3, Em. }
             rewrite E1, Ed. simpl. now rewrite E2, Hd.
    - exists k. pose proof (span_len_le is_AZ (String c s)). simpl in *.
      split; [lia | reflexivity]. }
  destruct (is_digit c) eqn:B4.
  { exists (span_len is_digit (String c s)). simpl. rewrite B4.
    pose proof (span_len_le is_digit s). split; [lia | reflexivity]. }
  discriminate.
Qed.

Lemma name_findall_alnum (n : nat) (s : string) :
  (String.length s <= n)%nat ->
  forallb (fun c => is_az c || is_AZ c || is_digit c) (list_ascii_of_string s) = true ->
  join "" (name_findall 0 s) = s
  /\ Forall (fun p => p <> "") (name_findall 0 s).
Proof.
  revert s. induction n as [|n IH]; intros [|c s] Hn Hal; simpl in Hn;
    try (split; [reflexivity | constructor]); try lia.
  destruct (name_token_at_alnum c s Hal) as (k & Hk & Et).
  cbn [name_findall]. rewrite Et.
  rewrite take_length_exact by (simpl; lia).
  destruct k as [|k]; [lia|].
  rewrite name_findall_skip. simpl Nat.sub. rewrite Nat.sub_0_r.
  destruct (IH (drop k s)) as [IH1 IH2].
  - pose proof (drop_length_le k s). lia.
  - apply (alnum_drop (S k) (String c s) Hal).
  - split.
    + rewrite <- (take_drop (S k) (String c s)) at 2. simpl drop.
      destruct (name_findall 0 (drop k s)) as [|t ts] eqn:E.
      * simpl in IH1. rewrite <- IH1, sapp_nil_r. reflexivity.
      * rewrite <- IH1.
        change (join "" (take (S k) (String c s) :: t :: ts))
          with (take (S k) (String c s) +:+ "" +:+ join "" (t :: ts)).
        reflexivity.
    + constructor; [rewrite take_S; discriminate | exact IH2].
Qed.

Lemma join_map_lower (l : list string) : join "" (map lower l) = lower (join "" l).
Proof.
  induction l as [|x l IH]; [reflexivity|].
  destruct l as [|y l]; [reflexivity|].
  change (join "" (map lower (x :: y :: l)))
    with (lower x +:+ "" +:+ join "" (map lower (y :: l))).
  change (join "" (x :: y :: l)) with (x +:+ "" +:+ join "" (y :: l)).
  now rewrite IH, !lower_app.
Qed.

(** X27.  For a name made of ASCII letters and digits only, the parts
    [_split_function_name] returns are non-empty and, put together again,
    spell the name in lower case: no character of the name is lost. *)
Theorem camel_case_parts_spell_the_name (nm : string) :
  forallb (fun c => is_az c || is_AZ c || is_digit c) (list_ascii_of_string nm) = true ->
  join "" (_split_function_name nm) = lower nm
  /\ Forall (fun p => p <> "") (_split_function_name nm).
Proof.
  intros Hal.
  assert (Hu : contains "_" nm = false).
  { clear - Hal. induction nm as [|c nm IH]; [reflexivity|].
    simpl in Hal. apply andb_true_iff in Hal as [Hc Hal].
    cbn [contains startswith]. rewrite (IH Hal), orb_false_r, andb_true_r.
    apply Ascii.eqb_neq. intros <-. discriminate Hc. }
  unfold _split_function_name. rewrite Hu.
  destruct (name_findall_alnum (String.length nm) nm (le_n _) Hal) as [E F].
  split.
  - now rewrite join_map_lower, E.
  - apply Forall_forall. intros p Hp.
    apply list_elem_of_In, in_map_iff in Hp as (q & <- & Hq).
    rewrite Forall_forall in F. apply list_elem_of_In, F in Hq.
    destruct q; [contradiction | discriminate].
Qed.

Lemma camel_case_parts_spell_the_name_witness :
  join "" (_split_function_name "getHTTPResponse2Code") = lower "getHTTPResponse2Code"
  /\ Forall (fun p => p <> "") (_split_function_name "getHTTPResponse2Code").
Proof.
  apply camel_case_parts_spell_the_name. reflexivity.
Defined.

(** ** The function body is the span of lines *)

Lemma split_char_lines_have_no_sep (c : ascii) (s l : string) :
  In l (split_char c s) -> forallb (fun x => negb (Ascii.eqb x c)) (list_ascii_of_string l) = true.
Proof.
  revert l. induction s as [|x s IH]; intros l; cbn [split_char].
  - intros [<- | []]. reflexivity.
  - destruct (Ascii.eqb x c) eqn:E.
    + intros [<- | H]; [reflexivity | now apply IH].
    + destruct (split_char c s) as [|h t] eqn:Es.
      * intros [<- | []]. simpl. now rewrite E.
      * intros [<- | H].
        -- simpl. rewrite E. apply IH. now left.
        -- apply IH. now right.
Qed.

Lemma split_char_without_sep (c : ascii) (l : string) :
  forallb (fun x => negb (Ascii.eqb x c)) (list_ascii_of_string l) = true ->
  split_char c l = [l].
Proof.
  induction l as [|x l IH]; [reflexivity|]. simpl.
  intros H. apply andb_true_iff in H as [Hx H].
  apply negb_true_iff in Hx. now rewrite Hx, IH.
Qed.

Lemma split_join_lines (ls : list string) :
  ls <> [] ->
  Forall (fun l => forallb (fun x => negb (Ascii.eqb x "010")) (list_ascii_of_string l) = true)
         ls ->
  split_char "010" (join nl ls) = ls.
Proof.
  intros Hne H. rewrite split_char_join by assumption.
  clear Hne. induction H as [|l ls Hl _ IH]; [reflexivity|].
  cbn [flat_map]. now rewrite (split_char_without_sep _ _ Hl), IH.
Qed.

Lemma join_block_contained (pre mid post : list string) :
  contains (join nl mid) (join nl (pre ++ mid ++ post)) = true.
Proof.
  destruct mid as [|m mid].
  { simpl join at 1. destruct (join nl _); reflexivity. }
  assert (M : forall post, contains (join nl (m :: mid)) (join nl ((m :: mid) ++ post)) = true).
  { intros [|p post'].
    - rewrite app_nil_r. apply contains_refl.
    - rewrite join_app_nl by discriminate. apply contains_app_l, contains_refl. }
  destruct pre as [|p pre].
  - apply M.
  - rewrite join_app_nl; [|discriminate | discriminate].
    apply contains_app_r, contains_app_r, M.
Qed.

(** X28.  When the line span of a definition lies inside the text, the
    body kept for it is made of exactly the lines [lineno] to [end_lineno]
    of the text: it has [line_end - line_start + 1] lines and occurs in the
    text as it is. *)
Theorem function_body_is_the_line_span (nm : string) (args : list string)
    (returns doc : option string) (lineno end_lineno : Z) (code : string) :
  (1 <= lineno)%Z -> (lineno <= end_lineno)%Z ->
  (end_lineno <= Z.of_nat (List.length (split_char "010" code)))%Z ->
  let f := _parse_function nm args returns doc lineno (Some end_lineno) code in
  split_char "010" (body f)
  = firstn (Z.to_nat (end_lineno - lineno + 1))
      (skipn (Z.to_nat (lineno - 1)) (split_char "010" code))
  /\ Z.of_nat (List.length (split_char "010" (body f))) = (line_end f - line_start f + 1)%Z
  /\ contains (body f) code = true.
Proof.
  intros H1 H2 H3. simpl.
  set (lines := split_char "010" code) in *.
  assert (Es : slice lines (lineno - 1) (Some end_lineno)
               = firstn (Z.to_nat (end_lineno - lineno + 1))
                   (skipn (Z.to_nat (lineno - 1)) lines)).
  { unfold slice, clip_index.
    destruct (Z.ltb_spec (lineno - 1) 0); [lia|].
    destruct (Z.ltb_spec end_lineno 0); [lia|].
    rewrite !Nat.min_r by lia. f_equal. lia. }
  rewrite Es.
  set (block := firstn (Z.to_nat (end_lineno - lineno + 1))
                  (skipn (Z.to_nat (lineno - 1)) lines)).
  assert (Hlen : List.length block = Z.to_nat (end_lineno - lineno + 1)).
  { unfold block. rewrite length_firstn, length_skipn. lia. }
  assert (Hsplit : split_char "010" (join nl block) = block).
  { apply split_join_lines.
    - intros E. rewrite E in Hlen. simpl in Hlen. lia.
    - apply Forall_forall. intros l Hl.
      apply (split_char_lines_have_no_sep "010" code). apply list_elem_of_In.
      apply (subseteq_drop (Z.to_nat (lineno - 1)) lines).
      apply (subseteq_take (Z.to_nat (end_lineno - lineno + 1))). exact Hl. }
  split; [exact Hsplit|]. split.
  - rewrite Hsplit, Hlen. unfold or_lineno.
    destruct (Z.eqb_spec end_lineno 0); lia.
  - assert (Ec : contains (join nl block) code
                 = contains (join nl block) (join nl lines)).
    { unfold lines. now rewrite join_split_char. }
    assert (El : lines
                 = (firstn (Z.to_nat (lineno - 1)) lines
                    ++ block
                    ++ skipn (Z.to_nat (end_lineno - lineno + 1))
                         (skipn (Z.to_nat (lineno - 1)) lines))%list).
    { unfold block. now rewrite !firstn_skipn. }
    rewrite Ec, El. apply join_block_contained.
Qed.

Lemma function_body_is_the_line_span_witness :
  let f := _parse_function "scale" ["self"; "k"] None None 4 (Some 7%Z) shapes_text in
  split_char "010" (body f)
  = firstn (Z.to_nat (7 - 4 + 1)) (skipn (Z.to_nat (4 - 1)) (split_char "010" shapes_text))
  /\ Z.of_nat (List.length (split_char "010" (body f))) = (line_end f - line_start f + 1)%Z
  /\ contains (body f) shapes_text = true.
Proof.
  apply (function_body_is_the_line_span "scale" ["self"; "k"] None None 4 7 shapes_text).
  - lia.
  - lia.
  - vm_compute. discriminate.
Defined.

Local Open Scope Q_scope.

(** ** The overall score as a function of the four metrics *)

(** X29.  The weighted sum of [evaluate] is monotone under the float
    roundings: raising the keyword score, the coverage, the length term or
    the consistency never lowers the overall score. *)
Theorem overall_score_is_monotone (k k' c c' t t' s s' : Q) :
  k <= k' -> c <= c' -> t <= t' -> s <= s' ->
  weighted_sum k c t s <= weighted_sum k' c' t' s'.
Proof.
  intros Hk Hc Ht Hs. unfold weighted_sum.
  repeat apply fadd_mono; apply fmul_mono; try assumption;
    apply b64_ge0; discriminate.
Qed.

Lemma overall_score_is_monotone_witness :
  weighted_sum 40 100 (lit (909 # 10)) 60 <= weighted_sum 45 100 100 80.
Proof.
  apply overall_score_is_monotone.
  - discriminate.
  - discriminate.
  - vm_compute. discriminate.
  - discriminate.
Defined.

(** ** When coverage is 100 *)

Lemma filter_length_lt {A} (p : A -> bool) (l : list A) :
  forallb p l = false -> (List.length (List.filter p l) < List.length l)%nat.
Proof.
  induction l as [|x l IH]; simpl; [discriminate|].
  destruct (p x); simpl.
  - intros H. specialize (IH H). lia.
  - intros _. pose proof (filter_length_le p l). lia.
Qed.

Lemma documented_app (docs : string) (a b : list string) :
  documented docs (a ++ b) = (documented docs a + documented docs b)%nat.
Proof. unfold documented. now rewrite List.filter_app, length_app. Qed.

(** X30.  For a structure of fewer than 20000 functions and classes the
    coverage is 100 exactly when every name occurs in the documentation
    (without regard to case): up to that size the rounding to two decimals
    cannot hide a missing element. *)
Theorem perfect_coverage_means_all_documented (docs : string) (cs : CodeStructure) :
  (Z.of_nat (List.length (element_names cs)) < 20000)%Z ->
  exists s, calculate_coverage docs cs = Ok s
            /\ (s == 100
                <-> Forall (fun nm => contains (lower nm) (lower docs) = true)
                           (element_names cs)).
Proof.
  intros Hsize. unfold calculate_coverage.
  assert (Ht : (List.length (functions cs) + List.length (classes cs))%nat
               = List.length (element_names cs)).
  { unfold element_names. now rewrite length_app, !length_map. }
  rewrite <- documented_app. fold (element_names cs). rewrite Ht.
  set (names := element_names cs) in *.
  destruct (List.length names =? 0)%nat eqn:E0.
  { apply Nat.eqb_eq in E0. exists 100. split; [reflexivity|].
    split; [|reflexivity]. intros _. destruct names; [constructor | discriminate]. }
  apply Nat.eqb_neq in E0.
  rewrite int_truediv_ok by lia. simpl.
  eexists; split; [reflexivity|].
  destruct (forallb (fun nm => contains (lower nm) (lower docs)) names) eqn:Ef.
  - rewrite forallb_forall in Ef.
    assert (Hall : Forall (fun nm => contains (lower nm) (lower docs) = true) names).
    { apply Forall_forall. intros nm Hn. apply Ef. now apply list_elem_of_In. }
    split; [intros _; exact Hall|]. intros _.
    unfold documented. rewrite (filter_all _ _ Hall).
    rewrite b64_self_quotient by lia. apply percent_full.
  - pose proof (filter_length_lt _ _ Ef) as Hlt. fold (documented docs names) in Hlt.
    assert (Hs : round2 (fmul (b64 (inject_Z (Z.of_nat (documented docs names))
                                    / inject_Z (Z.of_nat (List.length names)))) 100)
                 <= round2 (fmul (b64 (19998 # 19999)) 100)).
    { apply percent_mono, b64_mono.
      apply Qle_shift_div_r.
      - change 0 with (inject_Z 0). rewrite <- Zlt_Qlt. lia.
      - unfold Qle, Qmult, inject_Z. cbn [Qnum Qden Pos.mul].
        lia. }
    assert (Hc : round2 (fmul (b64 (19998 # 19999)) 100) < 100) by (vm_compute; reflexivity).
    split.
    + intros E. lra.
    + intros Hall. exfalso.
      assert (Ef' : forallb (fun nm => contains (lower nm) (lower docs)) names = true).
      { apply forallb_forall. intros nm Hn. rewrite Forall_forall in Hall.
        apply Hall. now apply list_elem_of_In. }
      congruence.
Qed.

Lemma perfect_coverage_means_all_documented_witness :
  exists s, calculate_coverage "Use area and then scale." nested_names = Ok s
            /\ (s == 100
                <-> Forall (fun nm => contains (lower nm) (lower "Use area and then scale.") = true)
                           (element_names nested_names)).
Proof.
  apply perfect_coverage_means_all_documented. vm_compute. reflexivity.
Defined.

(** At that size it can: 19999 documented elements out of 20000 give
    a float that rounds to 100. *)
Example coverage_100_with_one_element_missing :
  let f := mkFunctionInfo "area" [] None None 1 1 "def area(): pass" in
  let g := mkFunctionInfo "scale" [] None None 2 2 "def scale(): pass" in
  let cs := mkCodeStructure (List.repeat f (Z.to_nat 19999) ++ [g]) [] None 2 true None in
  (exists s, calculate_coverage "area" cs = Ok s /\ s == 100)
  /\ contains (lower "scale") (lower "area") = false.
Proof. vm_compute. split; [eexists; split; reflexivity | reflexivity]. Qed.
